(** * curator.go test doubles and harness (mocks.go)

    A shallow embedding of [mocks.go]: the connection, dialer and provider
    doubles built on a call-recording mock, and the orchestrator
    [mockZookeeperClient.Test] that wires them to a client, resolves the
    parameters of a test callback by type, runs it and tears the client
    down.

    Go values that travel through [interface{}] are a tagged union
    ([value]); a method that can panic returns an [outcome] next to the
    state it leaves behind, so that what was mutated before a panic stays
    visible. *)

From Stdlib Require Import ZArith Lia.
From Stdlib.Strings Require Import Byte.
From stdpp Require Import base decidable option list strings.

Open Scope Z_scope.
Open Scope list_scope.

(** ** Values of the coordination-service API *)

(** [zk.Stat]: the metadata record attached to a node. *)
Record Stat := mkStat {
  Czxid : Z; Mzxid : Z; Ctime : Z; Mtime : Z;
  Version : Z; Cversion : Z; Aversion : Z;
  EphemeralOwner : Z; DataLength : Z; NumChildren : Z; Pzxid : Z }.

(** [zk.ACL]. *)
Record ACL := mkACL { Perms : Z; Scheme : string; ID : string }.

(** [zk.MultiResponse]: the per-operation result of a batch. *)
Record MultiResponse := mkMultiResponse {
  mr_Stat : option Stat; mr_String : string }.

(** The request structs a batch is made of. *)
Inductive request :=
| CreateRequest (path : string) (data : list Byte.byte) (acl : list ACL) (flags : Z)
| SetDataRequest (path : string) (data : list Byte.byte) (version : Z)
| DeleteRequest (path : string) (version : Z)
| CheckVersionRequest (path : string) (version : Z).

(** Channels are known by identity. *)
Definition chan := nat.

(** A Go [error] as returned to a caller: [None] is [nil]. *)
Definition error := option string.

(** A dynamic value, as stored behind [interface{}] in the argument and
    return lists of an expectation.  Pointers to the harness's own objects
    are singletons; [VNil] is the nil interface. *)
#[warnings="-register-all"] Inductive value :=
| VNil
| VBool (b : bool)
| VInt (n : Z)
| VInt32 (n : Z)
| VString (s : string)
| VBytes (b : list Byte.byte)
| VStrings (l : list string)
| VDuration (d : Z)
| VStat (st : option Stat)
| VACLs (l : list ACL)
| VChan (ch : chan)
| VRecvChan (ch : chan)
| VResponses (l : list MultiResponse)
| VError (msg : string)
| VConn
| VDialer
| VCompress
| VBuilder
| VFramework
| VWaitGroup
| VEnsurePath (id : nat)
| VClient (id : nat)
| VRequest (r : request)
| VSlice (l : list value).

Global Instance byte_eq_dec : EqDecision Byte.byte := Byte.byte_eq_dec.
Global Instance Stat_eq_dec : EqDecision Stat.
Proof. solve_decision. Defined.
Global Instance ACL_eq_dec : EqDecision ACL.
Proof. solve_decision. Defined.
Global Instance MultiResponse_eq_dec : EqDecision MultiResponse.
Proof. solve_decision. Defined.
Global Instance request_eq_dec : EqDecision request.
Proof. solve_decision. Defined.

(** Structural equality of dynamic values is decidable; the slice case
    recurses through the list. *)
Global Instance value_eq_dec : EqDecision value.
Proof.
  refine (fix go (x y : value) {struct x} : Decision (x = y) :=
    let _ : EqDecision value := @go in
    match x, y with
    | VNil, VNil => left _
    | VBool a, VBool b => cast_if (decide (a = b))
    | VInt a, VInt b => cast_if (decide (a = b))
    | VInt32 a, VInt32 b => cast_if (decide (a = b))
    | VString a, VString b => cast_if (decide (a = b))
    | VBytes a, VBytes b => cast_if (decide (a = b))
    | VStrings a, VStrings b => cast_if (decide (a = b))
    | VDuration a, VDuration b => cast_if (decide (a = b))
    | VStat a, VStat b => cast_if (decide (a = b))
    | VACLs a, VACLs b => cast_if (decide (a = b))
    | VChan a, VChan b => cast_if (decide (a = b))
    | VRecvChan a, VRecvChan b => cast_if (decide (a = b))
    | VResponses a, VResponses b => cast_if (decide (a = b))
    | VError a, VError b => cast_if (decide (a = b))
    | VConn, VConn => left _
    | VDialer, VDialer => left _
    | VCompress, VCompress => left _
    | VBuilder, VBuilder => left _
    | VFramework, VFramework => left _
    | VWaitGroup, VWaitGroup => left _
    | VEnsurePath a, VEnsurePath b => cast_if (decide (a = b))
    | VClient a, VClient b => cast_if (decide (a = b))
    | VRequest a, VRequest b => cast_if (decide (a = b))
    | VSlice a, VSlice b => cast_if (decide (a = b))
    | _, _ => right _
    end); abstract congruence.
Defined.

(** ** Outcomes and the state monad of a double *)

(** Why a call aborted. *)
Inductive failure :=
| UnexpectedCall (method : string) (args : list value)
| OverCalled (method : string) (args : list value)
| MissingArgument (i : nat)
| WrongType (accessor : string) (i : nat)
| InterfaceConversion (v : value) (want : string)
| Crash
| ZeroValueArgument
| NotAFunc
| CloseOfClosedChannel
| NegativeWaitGroup
| CallbackPanic (msg : string).

(** [Done a]: returned [a]; [Panic f]: aborted by a panic; [Hang]: blocked
    for ever. *)
Inductive outcome (A : Type) :=
| Done (a : A)
| Panic (f : failure)
| Hang.
Arguments Done {A} a.
Arguments Panic {A} f.
Arguments Hang {A}.

Definition M (S A : Type) : Type := S -> outcome A * S.

Definition ret {S A} (a : A) : M S A := fun s => (Done a, s).

Definition bind {S A B} (m : M S A) (k : A -> M S B) : M S B :=
  fun s =>
    match m s with
    | (Done a, s') => k a s'
    | (Panic f, s') => (Panic f, s')
    | (Hang, s') => (Hang, s')
    end.

Definition panic {S A} (f : failure) : M S A := fun s => (Panic f, s).
Definition get {S} : M S S := fun s => (Done s, s).
Definition modify {S} (f : S -> S) : M S unit := fun s => (Done tt, f s).

(** A pure step that may panic. *)
Definition lift {S A} (o : outcome A) : M S A := fun s => (o, s).

Declare Scope go_scope.
Delimit Scope go_scope with go.
Notation "x <- c1 ;; c2" := (bind c1 (fun x => c2))
  (at level 100, c1 at next level, right associativity) : go_scope.
Notation "c1 ;; c2" := (bind c1 (fun _ => c2))
  (at level 100, right associativity) : go_scope.
Open Scope go_scope.

(** ** The mocking substrate *)

(** Modelled from the spec: the call-recording substrate ([mock.Mock] with
    [On]/[Return]/[Once], [Called], [AssertExpectations] and the accessors
    of the returned argument list) is an imported package, not under src/.
    An expectation carries an operation name, the arguments it matches, the
    canned results, a repetition policy and a consumption count; a call
    matches on the operation name plus structurally equal arguments; the
    lookup takes the next matching expectation that is not exhausted; a
    call with no match and a call whose only matches are exhausted are hard
    failures. *)
Record Call := mkCall {
  Method : string;
  Arguments : list value;
  ReturnArguments : list value;
  Repeatability : Z;      (* 0: unlimited, n > 0: n calls left, -1: exhausted *)
  totalCalls : nat }.

Global Instance Call_eq_dec : EqDecision Call.
Proof. solve_decision. Defined.

Record Mock := mkMock {
  ExpectedCalls : list Call;
  Calls : list (string * list value) }.

Definition new_Mock : Mock := mkMock [] [].

(** [m.On(method, args...).Return(rets...)], followed by [.Times(n)] when
    [n > 0] ([.Once()] is [n = 1]). *)
Definition On (method : string) (args rets : list value) (times : Z) (m : Mock) : Mock :=
  mkMock (ExpectedCalls m ++ [mkCall method args rets times 0]) (Calls m).

Definition matches (method : string) (args : list value) (c : Call) : bool :=
  bool_decide (Method c = method) && bool_decide (Arguments c = args).

(** The index of the next matching expectation that can still be called,
    or else whether some exhausted expectation matched. *)
Fixpoint findExpectedCall (l : list Call) (method : string) (args : list value)
    (i : nat) (exhausted : bool) : option nat * bool :=
  match l with
  | [] => (None, exhausted)
  | c :: rest =>
      if matches method args c then
        if bool_decide (-1 < Repeatability c) then (Some i, true)
        else findExpectedCall rest method args (S i) true
      else findExpectedCall rest method args (S i) exhausted
  end.

(** One consumption of an expectation. *)
Definition consume (c : Call) : Call :=
  mkCall (Method c) (Arguments c) (ReturnArguments c)
    (if bool_decide (Repeatability c = 1) then -1
     else if bool_decide (1 < Repeatability c) then Repeatability c - 1
     else Repeatability c)
    (S (totalCalls c)).

(** The substrate's [MethodCalled] on the bare mock. *)
Definition MethodCalled (method : string) (args : list value) (m : Mock)
    : outcome (list value) * Mock :=
  match findExpectedCall (ExpectedCalls m) method args 0 false with
  | (Some i, _) =>
      match ExpectedCalls m !! i with
      | Some c =>
          (Done (ReturnArguments c),
           mkMock (<[i := consume c]> (ExpectedCalls m)) (Calls m ++ [(method, args)]))
      | None => (Panic (UnexpectedCall method args), m)
      end
  | (None, true) => (Panic (OverCalled method args), m)
  | (None, false) => (Panic (UnexpectedCall method args), m)
  end.

(** An expectation is met when it was called and owes no further call. *)
Definition methodWasCalled (m : Mock) (method : string) (args : list value) : bool :=
  existsb (fun c => bool_decide (c = (method, args))) (Calls m).

Definition satisfied (m : Mock) (c : Call) : bool :=
  (methodWasCalled m (Method c) (Arguments c) || negb (bool_decide (totalCalls c = 0%nat)))
  && negb (bool_decide (0 < Repeatability c)).

(** [AssertExpectations]: the expectations that are not met. *)
Definition unmet (m : Mock) : list Call :=
  filter (fun c => satisfied m c = false) (ExpectedCalls m).

(** Doubles embed the mock. *)
Class HasMock (S : Type) := {
  the_mock : S -> Mock;
  with_mock : Mock -> S -> S }.

Definition Called {S} `{HasMock S} (method : string) (args : list value)
    : M S (list value) :=
  fun s =>
    let '(o, m') := MethodCalled method args (the_mock s) in
    (o, with_mock m' s).

(** Accessors of a returned argument list.  [Get] and the typed accessors
    panic when the slot is missing; a typed accessor panics when the stored
    value has another type; [Error] maps the nil interface to a nil error. *)
Definition args_Get {S} (args : list value) (i : nat) : M S value :=
  match args !! i with
  | Some v => ret v
  | None => panic (MissingArgument i)
  end.

Definition args_String {S} (args : list value) (i : nat) : M S string :=
  v <- args_Get args i ;;
  match v with
  | VString s => ret s
  | _ => panic (WrongType "String" i)
  end.

Definition args_Bool {S} (args : list value) (i : nat) : M S bool :=
  v <- args_Get args i ;;
  match v with
  | VBool b => ret b
  | _ => panic (WrongType "Bool" i)
  end.

Definition args_Error {S} (args : list value) (i : nat) : M S error :=
  v <- args_Get args i ;;
  match v with
  | VNil => ret None
  | VError msg => ret (Some msg)
  | _ => panic (WrongType "Error" i)
  end.

(** ** Type assertions *)

(** [v.(T)] for the types the doubles assert to: [Some] when the dynamic
    type of [v] is [T]. *)
Definition assert_bytes (v : value) : option (list Byte.byte) :=
  match v with VBytes b => Some b | _ => None end.
Definition assert_Stat (v : value) : option (option Stat) :=
  match v with VStat st => Some st | _ => None end.
Definition assert_chan (v : value) : option (option chan) :=
  match v with VChan ch => Some (Some ch) | _ => None end.
Definition assert_strings (v : value) : option (list string) :=
  match v with VStrings l => Some l | _ => None end.
Definition assert_ACLs (v : value) : option (list ACL) :=
  match v with VACLs l => Some l | _ => None end.
Definition assert_responses (v : value) : option (list MultiResponse) :=
  match v with VResponses l => Some l | _ => None end.

(** The interfaces of the package, by the doubles that implement them. *)
Inductive ZookeeperConnection := TheConn.
Definition assert_ZookeeperConnection (v : value) : option (option ZookeeperConnection) :=
  match v with VConn => Some (Some TheConn) | _ => None end.
Definition EnsurePath := nat.
Definition assert_EnsurePath (v : value) : option (option EnsurePath) :=
  match v with VEnsurePath id => Some (Some id) | _ => None end.

(** [x, _ := v.(T)]: the checked form, the zero value when the type
    differs. *)
Definition comma_ok {A} (zero : A) (a : option A) : A := default zero a.

(** [v.(T)]: the unchecked form panics when the type differs. *)
Definition must {S A} (v : value) (want : string) (a : option A) : M S A :=
  match a with
  | Some x => ret x
  | None => panic (InterfaceConversion v want)
  end.

(** Typed results shown as values in a trace line. *)
Definition of_error (e : error) : value :=
  match e with None => VNil | Some msg => VError msg end.
Definition of_chan (c : option chan) : value :=
  match c with None => VNil | Some ch => VChan ch end.
Definition of_conn (c : option ZookeeperConnection) : value :=
  match c with None => VNil | Some TheConn => VConn end.
Definition of_EnsurePath (e : option EnsurePath) : value :=
  match e with None => VNil | Some id => VEnsurePath id end.

(** ** The diagnostic hook *)

(** [infof]: a printf-style hook.  A hook only writes diagnostics: it is a
    function from the format and its arguments to a change of the
    diagnostic output. *)
Definition trace_line : Type := string * list value.
Definition infof : Type := string -> list value -> list trace_line -> list trace_line.

(** [t.Logf]. *)
Definition Logf : infof := fun format args out => out ++ [(format, args)].

Class HasLog (S : Type) := {
  the_log : S -> option infof;
  the_out : S -> list trace_line;
  with_out : list trace_line -> S -> S }.

(** [if x.log != nil { x.log(format, args...) }] *)
Definition log_if_set {S} `{HasLog S} (format : string) (args : list value) : M S unit :=
  fun s =>
    match the_log s with
    | Some f => (Done tt, with_out (f format args (the_out s)) s)
    | None => (Done tt, s)
    end.

(** ** mockCloseable, mockTracerDriver, mockRetrySleeper *)

Record mockCloseable := mkCloseable { closeable_Mock : Mock; crash : bool }.

Global Instance mockCloseable_HasMock : HasMock mockCloseable :=
  {| the_mock := closeable_Mock;
     with_mock m c := mkCloseable m (crash c) |}.

Definition mockCloseable_Close : M mockCloseable error :=
  c <- get ;;
  if crash c then panic Crash
  else
    args <- Called "Close" [] ;;
    args_Error args 0.

Record mockTracerDriver := mkTracerDriver { tracer_Mock : Mock }.

Global Instance mockTracerDriver_HasMock : HasMock mockTracerDriver :=
  {| the_mock := tracer_Mock; with_mock m _ := mkTracerDriver m |}.

Definition mockTracerDriver_AddTime (name : string) (d : Z) : M mockTracerDriver unit :=
  _ <- Called "AddTime" [VString name; VDuration d] ;;
  ret tt.

Definition mockTracerDriver_AddCount (name : string) (increment : Z) : M mockTracerDriver unit :=
  _ <- Called "AddCount" [VString name; VInt increment] ;;
  ret tt.

Record mockRetrySleeper := mkRetrySleeper { sleeper_Mock : Mock }.

Global Instance mockRetrySleeper_HasMock : HasMock mockRetrySleeper :=
  {| the_mock := sleeper_Mock; with_mock m _ := mkRetrySleeper m |}.

Definition mockRetrySleeper_SleepFor (time : Z) : M mockRetrySleeper error :=
  args <- Called "SleepFor" [VDuration time] ;;
  args_Error args 0.

(** ** mockConn *)

Record mockConn := mkConn {
  conn_Mock : Mock;
  operations : list value;
  conn_log : option infof;
  conn_out : list trace_line }.

Global Instance mockConn_HasMock : HasMock mockConn :=
  {| the_mock := conn_Mock;
     with_mock m c := mkConn m (operations c) (conn_log c) (conn_out c) |}.

Global Instance mockConn_HasLog : HasLog mockConn :=
  {| the_log := conn_log;
     the_out := conn_out;
     with_out o c := mkConn (conn_Mock c) (operations c) (conn_log c) o |}.

Definition new_mockConn : mockConn := mkConn new_Mock [] None [].

Definition mockConn_AddAuth (scheme : string) (auth : list Byte.byte) : M mockConn error :=
  args <- Called "AddAuth" [VString scheme; VBytes auth] ;;
  args_Error args 0.

Definition mockConn_Close : M mockConn unit :=
  _ <- Called "Close" [] ;;
  ret tt.

(** The format strings are the source's, without the escaped quotes. *)
Definition mockConn_Create (path : string) (data : list Byte.byte) (flags : Z)
    (acls : list ACL) : M mockConn (string * error) :=
  args <- Called "Create" [VString path; VBytes data; VInt32 flags; VACLs acls] ;;
  createPath <- args_String args 0 ;;
  err <- args_Error args 1 ;;
  log_if_set "Create(path=%s, data=[]byte(%s), flags=%d, alcs=%v) (createdPath=%s, error=%v)"
    [VString path; VBytes data; VInt32 flags; VACLs acls; VString createPath; of_error err] ;;
  ret (createPath, err).

Definition mockConn_Exists (path : string) : M mockConn (bool * option Stat * error) :=
  args <- Called "Exists" [VString path] ;;
  exists_ <- args_Bool args 0 ;;
  v1 <- args_Get args 1 ;;
  let stat := comma_ok None (assert_Stat v1) in
  err <- args_Error args 2 ;;
  log_if_set "Exists(path=%s)(exists=%v, stat=%v, error=%v)"
    [VString path; VBool exists_; VStat stat; of_error err] ;;
  ret (exists_, stat, err).

Definition mockConn_ExistsW (path : string)
    : M mockConn (bool * option Stat * option chan * error) :=
  args <- Called "ExistsW" [VString path] ;;
  exists_ <- args_Bool args 0 ;;
  v1 <- args_Get args 1 ;;
  let stat := comma_ok None (assert_Stat v1) in
  v2 <- args_Get args 2 ;;
  let events := comma_ok None (assert_chan v2) in
  err <- args_Error args 3 ;;
  log_if_set "ExistsW(path=%s)(exists=%v, stat=%v, events=%v, error=%v)"
    [VString path; VBool exists_; VStat stat; of_chan events; of_error err] ;;
  ret (exists_, stat, events, err).

Definition mockConn_Delete (path : string) (version : Z) : M mockConn error :=
  args <- Called "Delete" [VString path; VInt32 version] ;;
  err <- args_Error args 0 ;;
  log_if_set "Delete(path=%s, version=%d) error=%v"
    [VString path; VInt32 version; of_error err] ;;
  ret err.

Definition mockConn_Get (path : string)
    : M mockConn (list Byte.byte * option Stat * error) :=
  args <- Called "Get" [VString path] ;;
  v0 <- args_Get args 0 ;;
  let data := comma_ok [] (assert_bytes v0) in
  v1 <- args_Get args 1 ;;
  let stat := comma_ok None (assert_Stat v1) in
  err <- args_Error args 2 ;;
  ret (data, stat, err).

Definition mockConn_GetW (path : string)
    : M mockConn (list Byte.byte * option Stat * option chan * error) :=
  args <- Called "GetW" [VString path] ;;
  v0 <- args_Get args 0 ;;
  let data := comma_ok [] (assert_bytes v0) in
  v1 <- args_Get args 1 ;;
  let stat := comma_ok None (assert_Stat v1) in
  v2 <- args_Get args 2 ;;
  let events := comma_ok None (assert_chan v2) in
  err <- args_Error args 3 ;;
  ret (data, stat, events, err).

Definition mockConn_Set (path : string) (data : list Byte.byte) (version : Z)
    : M mockConn (option Stat * error) :=
  args <- Called "Set" [VString path; VBytes data; VInt32 version] ;;
  v0 <- args_Get args 0 ;;
  let stat := comma_ok None (assert_Stat v0) in
  err <- args_Error args 1 ;;
  ret (stat, err).

Definition mockConn_Children (path : string)
    : M mockConn (list string * option Stat * error) :=
  args <- Called "Children" [VString path] ;;
  v0 <- args_Get args 0 ;;
  let children := comma_ok [] (assert_strings v0) in
  v1 <- args_Get args 1 ;;
  let stat := comma_ok None (assert_Stat v1) in
  err <- args_Error args 2 ;;
  log_if_set "Children(path=%s)(children=%v, stat=%v, error=%v)"
    [VString path; VStrings children; VStat stat; of_error err] ;;
  ret (children, stat, err).

Definition mockConn_ChildrenW (path : string)
    : M mockConn (list string * option Stat * option chan * error) :=
  args <- Called "ChildrenW" [VString path] ;;
  v0 <- args_Get args 0 ;;
  let children := comma_ok [] (assert_strings v0) in
  v1 <- args_Get args 1 ;;
  let stat := comma_ok None (assert_Stat v1) in
  v2 <- args_Get args 2 ;;
  let events := comma_ok None (assert_chan v2) in
  err <- args_Error args 3 ;;
  log_if_set "ChildrenW(path=%s)(children=%v, stat=%v, events=%v, error=%v)"
    [VString path; VStrings children; VStat stat; of_chan events; of_error err] ;;
  ret (children, stat, events, err).

Definition mockConn_GetACL (path : string)
    : M mockConn (list ACL * option Stat * error) :=
  args <- Called "GetACL" [VString path] ;;
  v0 <- args_Get args 0 ;;
  let acls := comma_ok [] (assert_ACLs v0) in
  v1 <- args_Get args 1 ;;
  let stat := comma_ok None (assert_Stat v1) in
  err <- args_Error args 2 ;;
  ret (acls, stat, err).

Definition mockConn_SetACL (path : string) (acls : list ACL) (version : Z)
    : M mockConn (option Stat * error) :=
  args <- Called "SetACL" [VString path; VACLs acls; VInt32 version] ;;
  v0 <- args_Get args 0 ;;
  let stat := comma_ok None (assert_Stat v0) in
  err <- args_Error args 1 ;;
  ret (stat, err).

(** The batch is recorded first; the slice of sub-operations is passed to
    the mock as one argument. *)
Definition mockConn_Multi (ops : list value)
    : M mockConn (list MultiResponse * error) :=
  modify (fun c => mkConn (conn_Mock c) (operations c ++ ops) (conn_log c) (conn_out c)) ;;
  args <- Called "Multi" [VSlice ops] ;;
  v0 <- args_Get args 0 ;;
  let res := comma_ok [] (assert_responses v0) in
  err <- args_Error args 1 ;;
  log_if_set "Multi(ops=%v)(responses=%v, error=%v)"
    [VSlice ops; VResponses res; of_error err] ;;
  ret (res, err).

Definition mockConn_Sync (path : string) : M mockConn (string * error) :=
  args <- Called "Sync" [VString path] ;;
  s <- args_String args 0 ;;
  err <- args_Error args 1 ;;
  ret (s, err).

(** ** mockZookeeperDialer *)

Record mockZookeeperDialer := mkDialer {
  dialer_Mock : Mock;
  dialer_log : option infof;
  dialer_out : list trace_line }.

Global Instance mockZookeeperDialer_HasMock : HasMock mockZookeeperDialer :=
  {| the_mock := dialer_Mock;
     with_mock m d := mkDialer m (dialer_log d) (dialer_out d) |}.

Global Instance mockZookeeperDialer_HasLog : HasLog mockZookeeperDialer :=
  {| the_log := dialer_log;
     the_out := dialer_out;
     with_out o d := mkDialer (dialer_Mock d) (dialer_log d) o |}.

Definition new_mockZookeeperDialer : mockZookeeperDialer := mkDialer new_Mock None [].

Definition mockZookeeperDialer_Dial (connString : string) (sessionTimeout : Z)
    (canBeReadOnly : bool)
    : M mockZookeeperDialer (option ZookeeperConnection * option chan * error) :=
  args <- Called "Dial" [VString connString; VDuration sessionTimeout; VBool canBeReadOnly] ;;
  v0 <- args_Get args 0 ;;
  let conn := comma_ok None (assert_ZookeeperConnection v0) in
  v1 <- args_Get args 1 ;;
  let events := comma_ok None (assert_chan v1) in
  err <- args_Error args 2 ;;
  log_if_set "Dial(connectString=%s, sessionTimeout=%v, canBeReadOnly=%v)(conn=%p, events=%v, error=%v)"
    [VString connString; VDuration sessionTimeout; VBool canBeReadOnly;
     of_conn conn; of_chan events; of_error err] ;;
  ret (conn, events, err).

(** ** mockCompressionProvider *)

Record mockCompressionProvider := mkCompression {
  compress_Mock : Mock;
  compress_log : option infof;
  compress_out : list trace_line }.

Global Instance mockCompressionProvider_HasMock : HasMock mockCompressionProvider :=
  {| the_mock := compress_Mock;
     with_mock m p := mkCompression m (compress_log p) (compress_out p) |}.

Global Instance mockCompressionProvider_HasLog : HasLog mockCompressionProvider :=
  {| the_log := compress_log;
     the_out := compress_out;
     with_out o p := mkCompression (compress_Mock p) (compress_log p) o |}.

Definition new_mockCompressionProvider : mockCompressionProvider :=
  mkCompression new_Mock None [].

Definition mockCompressionProvider_Compress (path : string) (data : list Byte.byte)
    : M mockCompressionProvider (list Byte.byte * error) :=
  args <- Called "Compress" [VString path; VBytes data] ;;
  v0 <- args_Get args 0 ;;
  let compressedData := comma_ok [] (assert_bytes v0) in
  err <- args_Error args 1 ;;
  log_if_set "Compress(path=%s, data=[]byte(%s))(compressedData=[]byte(%s), error=%v)"
    [VString path; VBytes data; VBytes compressedData; of_error err] ;;
  ret (compressedData, err).

Definition mockCompressionProvider_Decompress (path : string) (compressedData : list Byte.byte)
    : M mockCompressionProvider (list Byte.byte * error) :=
  args <- Called "Decompress" [VString path; VBytes compressedData] ;;
  v0 <- args_Get args 0 ;;
  let data := comma_ok [] (assert_bytes v0) in
  err <- args_Error args 1 ;;
  log_if_set "Decompress(path=%s, compressedData=[]byte(%s))(data=[]byte(%s), error=%v)"
    [VString path; VBytes compressedData; VBytes data; of_error err] ;;
  ret (data, err).

(** ** mockACLProvider *)

Record mockACLProvider := mkACLProvider { acl_Mock : Mock }.

Global Instance mockACLProvider_HasMock : HasMock mockACLProvider :=
  {| the_mock := acl_Mock; with_mock m _ := mkACLProvider m |}.

Definition mockACLProvider_GetDefaultAcl : M mockACLProvider (list ACL) :=
  args <- Called "GetDefaultAcl" [] ;;
  v0 <- args_Get args 0 ;;
  must v0 "[]zk.ACL" (assert_ACLs v0).

Definition mockACLProvider_GetAclForPath (path : string) : M mockACLProvider (list ACL) :=
  args <- Called "GetAclForPath" [VString path] ;;
  v0 <- args_Get args 0 ;;
  must v0 "[]zk.ACL" (assert_ACLs v0).

(** ** mockEnsurePath and mockEnsurePathHelper *)

Record mockEnsurePath := mkEnsurePath {
  ensure_Mock : Mock;
  ensure_log : option infof;
  ensure_out : list trace_line }.

Global Instance mockEnsurePath_HasMock : HasMock mockEnsurePath :=
  {| the_mock := ensure_Mock;
     with_mock m e := mkEnsurePath m (ensure_log e) (ensure_out e) |}.

Global Instance mockEnsurePath_HasLog : HasLog mockEnsurePath :=
  {| the_log := ensure_log;
     the_out := ensure_out;
     with_out o e := mkEnsurePath (ensure_Mock e) (ensure_log e) o |}.

(** [client] is a [*CuratorZookeeperClient], known by identity. *)
Definition mockEnsurePath_Ensure (client : nat) : M mockEnsurePath error :=
  args <- Called "Ensure" [VClient client] ;;
  err <- args_Error args 0 ;;
  log_if_set "Ensure(client=%p) error=%v" [VClient client; of_error err] ;;
  ret err.

Definition mockEnsurePath_ExcludingLast : M mockEnsurePath (option EnsurePath) :=
  args <- Called "ExcludingLast" [] ;;
  v0 <- args_Get args 0 ;;
  let ret_ := comma_ok None (assert_EnsurePath v0) in
  log_if_set "ExcludingLast() EnsurePath=%p" [of_EnsurePath ret_] ;;
  ret ret_.

Record mockEnsurePathHelper := mkEnsurePathHelper {
  helper_Mock : Mock;
  helper_log : option infof;
  helper_out : list trace_line }.

Global Instance mockEnsurePathHelper_HasMock : HasMock mockEnsurePathHelper :=
  {| the_mock := helper_Mock;
     with_mock m h := mkEnsurePathHelper m (helper_log h) (helper_out h) |}.

Global Instance mockEnsurePathHelper_HasLog : HasLog mockEnsurePathHelper :=
  {| the_log := helper_log;
     the_out := helper_out;
     with_out o h := mkEnsurePathHelper (helper_Mock h) (helper_log h) o |}.

Definition mockEnsurePathHelper_Ensure (client : nat) (path : string) (makeLastNode : bool)
    : M mockEnsurePathHelper error :=
  args <- Called "Ensure" [VClient client; VString path; VBool makeLastNode] ;;
  err <- args_Error args 0 ;;
  log_if_set "Ensure(client=%p, path=%s, makeLastNode=%v) error=%v"
    [VClient client; VString path; VBool makeLastNode; of_error err] ;;
  ret err.

(** ** Calls on the connection double, as data *)

(** One constructor per method of [mockConn], with its arguments. *)
Inductive conn_call :=
| CAddAuth (scheme : string) (auth : list Byte.byte)
| CClose
| CCreate (path : string) (data : list Byte.byte) (flags : Z) (acls : list ACL)
| CExists (path : string)
| CExistsW (path : string)
| CDelete (path : string) (version : Z)
| CGet (path : string)
| CGetW (path : string)
| CSet (path : string) (data : list Byte.byte) (version : Z)
| CChildren (path : string)
| CChildrenW (path : string)
| CGetACL (path : string)
| CSetACL (path : string) (acls : list ACL) (version : Z)
| CMulti (ops : list value)
| CSync (path : string).

(** What a call returns to its caller. *)
Inductive conn_result :=
| RError (err : error)
| RClosed
| RPath (path : string) (err : error)
| RExists (exists_ : bool) (stat : option Stat) (err : error)
| RExistsW (exists_ : bool) (stat : option Stat) (events : option chan) (err : error)
| RData (data : list Byte.byte) (stat : option Stat) (err : error)
| RDataW (data : list Byte.byte) (stat : option Stat) (events : option chan) (err : error)
| RStat (stat : option Stat) (err : error)
| RChildren (children : list string) (stat : option Stat) (err : error)
| RChildrenW (children : list string) (stat : option Stat) (events : option chan) (err : error)
| RACL (acls : list ACL) (stat : option Stat) (err : error)
| RMulti (res : list MultiResponse) (err : error).

Definition fmap_M {S A B} (f : A -> B) (m : M S A) : M S B :=
  a <- m ;; ret (f a).

Definition invoke (call : conn_call) : M mockConn conn_result :=
  match call with
  | CAddAuth scheme auth => fmap_M RError (mockConn_AddAuth scheme auth)
  | CClose => fmap_M (fun _ => RClosed) mockConn_Close
  | CCreate path data flags acls =>
      fmap_M (fun '(p, e) => RPath p e) (mockConn_Create path data flags acls)
  | CExists path => fmap_M (fun '(b, st, e) => RExists b st e) (mockConn_Exists path)
  | CExistsW path => fmap_M (fun '(b, st, ev, e) => RExistsW b st ev e) (mockConn_ExistsW path)
  | CDelete path version => fmap_M RError (mockConn_Delete path version)
  | CGet path => fmap_M (fun '(d, st, e) => RData d st e) (mockConn_Get path)
  | CGetW path => fmap_M (fun '(d, st, ev, e) => RDataW d st ev e) (mockConn_GetW path)
  | CSet path data version => fmap_M (fun '(st, e) => RStat st e) (mockConn_Set path data version)
  | CChildren path => fmap_M (fun '(l, st, e) => RChildren l st e) (mockConn_Children path)
  | CChildrenW path =>
      fmap_M (fun '(l, st, ev, e) => RChildrenW l st ev e) (mockConn_ChildrenW path)
  | CGetACL path => fmap_M (fun '(l, st, e) => RACL l st e) (mockConn_GetACL path)
  | CSetACL path acls version =>
      fmap_M (fun '(st, e) => RStat st e) (mockConn_SetACL path acls version)
  | CMulti ops => fmap_M (fun '(r, e) => RMulti r e) (mockConn_Multi ops)
  | CSync path => fmap_M (fun '(p, e) => RPath p e) (mockConn_Sync path)
  end.

(** The name and argument list a call presents to the mock. *)
Definition call_method (call : conn_call) : string :=
  match call with
  | CAddAuth _ _ => "AddAuth" | CClose => "Close" | CCreate _ _ _ _ => "Create"
  | CExists _ => "Exists" | CExistsW _ => "ExistsW" | CDelete _ _ => "Delete"
  | CGet _ => "Get" | CGetW _ => "GetW" | CSet _ _ _ => "Set"
  | CChildren _ => "Children" | CChildrenW _ => "ChildrenW" | CGetACL _ => "GetACL"
  | CSetACL _ _ _ => "SetACL" | CMulti _ => "Multi" | CSync _ => "Sync"
  end.

Definition call_args (call : conn_call) : list value :=
  match call with
  | CAddAuth scheme auth => [VString scheme; VBytes auth]
  | CClose => []
  | CCreate path data flags acls => [VString path; VBytes data; VInt32 flags; VACLs acls]
  | CExists path | CExistsW path | CGet path | CGetW path | CChildren path
  | CChildrenW path | CGetACL path | CSync path => [VString path]
  | CDelete path version => [VString path; VInt32 version]
  | CSet path data version => [VString path; VBytes data; VInt32 version]
  | CSetACL path acls version => [VString path; VACLs acls; VInt32 version]
  | CMulti ops => [VSlice ops]
  end.

(** A run of calls on one connection double, each made whatever the
    previous one did (a test recovers from a panic and goes on). *)
Fixpoint invoke_all (calls : list conn_call) (c : mockConn) : mockConn :=
  match calls with
  | [] => c
  | call :: rest => invoke_all rest (snd (invoke call c))
  end.

(** ** The harness state *)

(** The fields of [CuratorFrameworkBuilder] the harness sets or reads.
    [ZookeeperDialer] and [CompressionProvider] point to the doubles of the
    harness; [EnsembleProvider] is the [fixedEnsembleProvider], whose
    [ConnectionString()] is the string it holds; [RetryPolicy] is the sleep
    time given to [NewRetryOneTime]. *)
Record CuratorFrameworkBuilder := mkBuilder {
  ZookeeperDialer : value;
  EnsembleProvider : string;
  CompressionProvider : value;
  RetryPolicy : Z;
  DefaultData : list Byte.byte;
  Namespace : string;
  CanBeReadOnly : bool }.

Definition ConnectionString (b : CuratorFrameworkBuilder) : string := EnsembleProvider b.

(** An unbuffered [chan zk.Event]: its identity and whether it was closed. *)
Record channel := mkChannel { chan_id : chan; closed : bool }.

Record mockZookeeperClient := mkZookeeperClient {
  conn : mockConn;
  dialer : mockZookeeperDialer;
  compress : mockCompressionProvider;
  builder : CuratorFrameworkBuilder;
  events : channel;
  wg : Z }.

(** [testing.T]: the failures reported with [Errorf]. *)
Record testing_T := mkT { errors : list (string * list value) }.

Definition failed (t : testing_T) : bool :=
  match errors t with [] => false | _ => true end.

(** Who performs a step, and on which double. *)
Inductive actor := Orchestrator | Client | Callback | Background.
Inductive double := DConn | DDialer | DCompress.

Global Instance actor_eq_dec : EqDecision actor.
Proof. solve_decision. Defined.
Global Instance double_eq_dec : EqDecision double.
Proof. solve_decision. Defined.

(** The observable steps of a run, in the order they happen. *)
Inductive event :=
| EvBuild
| EvExpect (who : actor) (d : double) (method : string) (args : list value)
| EvStart
| EvStarted
| EvCall (who : actor) (d : double) (method : string) (args : list value)
| EvWgAdd (who : actor)
| EvWgDone (who : actor)
| EvWaited
| EvInvoke (args : list value)
| EvReturned
| EvClose
| EvClosed
| EvChanClose (who : actor).

Global Instance event_eq_dec : EqDecision event.
Proof. solve_decision. Defined.

(** What code handed to the harness (the client under test, the callback,
    a goroutine it starts) does with the handles it holds.  [G] is the type
    of the bodies it can start as goroutines. *)
Inductive prog (G : Type) :=
| Return_ (err : error)
| Throw (msg : string)
| OnConn (call : conn_call) (k : conn_result -> prog G)
| OnDial (connString : string) (sessionTimeout : Z) (canBeReadOnly : bool)
    (k : option ZookeeperConnection * option chan * error -> prog G)
| OnCompress (path : string) (data : list Byte.byte) (k : list Byte.byte * error -> prog G)
| OnDecompress (path : string) (data : list Byte.byte) (k : list Byte.byte * error -> prog G)
| Expect (d : double) (method : string) (args rets : list value) (times : Z) (k : prog G)
| WgAdd (k : prog G)
| WgDone (k : prog G)
| CloseEvents (k : prog G)
| Go (body : G) (k : prog G).
Arguments Return_ {G} err.
Arguments Throw {G} msg.
Arguments OnConn {G} call k.
Arguments OnDial {G} connString sessionTimeout canBeReadOnly k.
Arguments OnCompress {G} path data k.
Arguments OnDecompress {G} path data k.
Arguments Expect {G} d method args rets times k.
Arguments WgAdd {G} k.
Arguments WgDone {G} k.
Arguments CloseEvents {G} k.
Arguments Go {G} body k.

(** A goroutine starts no further goroutine; a routine may start some. *)
Definition goroutine : Type := prog Empty_set.
Definition routine : Type := prog goroutine.

Record world := mkWorld {
  harness : mockZookeeperClient;
  t : testing_T;
  goroutines : list goroutine;
  trace : list event }.

Definition upd_harness (f : mockZookeeperClient -> mockZookeeperClient) (w : world) : world :=
  mkWorld (f (harness w)) (t w) (goroutines w) (trace w).
Definition set_goroutines (q : list goroutine) (w : world) : world :=
  mkWorld (harness w) (t w) q (trace w).

Definition set_conn (x : mockConn) (c : mockZookeeperClient) : mockZookeeperClient :=
  mkZookeeperClient x (dialer c) (compress c) (builder c) (events c) (wg c).
Definition set_dialer (x : mockZookeeperDialer) (c : mockZookeeperClient) : mockZookeeperClient :=
  mkZookeeperClient (conn c) x (compress c) (builder c) (events c) (wg c).
Definition set_compress (x : mockCompressionProvider) (c : mockZookeeperClient)
    : mockZookeeperClient :=
  mkZookeeperClient (conn c) (dialer c) x (builder c) (events c) (wg c).
Definition set_builder (x : CuratorFrameworkBuilder) (c : mockZookeeperClient)
    : mockZookeeperClient :=
  mkZookeeperClient (conn c) (dialer c) (compress c) x (events c) (wg c).
Definition set_events (x : channel) (c : mockZookeeperClient) : mockZookeeperClient :=
  mkZookeeperClient (conn c) (dialer c) (compress c) (builder c) x (wg c).
Definition set_wg (x : Z) (c : mockZookeeperClient) : mockZookeeperClient :=
  mkZookeeperClient (conn c) (dialer c) (compress c) (builder c) (events c) x.

Definition emit (e : event) : M world unit :=
  modify (fun w => mkWorld (harness w) (t w) (goroutines w) (trace w ++ [e])).

(** [t.Errorf(format, args...)]: reports a failure and goes on. *)
Definition Errorf (format : string) (args : list value) : M world unit :=
  modify (fun w => mkWorld (harness w) (mkT (errors (t w) ++ [(format, args)]))
                     (goroutines w) (trace w)).

(** A method of a double, run on the double the harness holds. *)
Definition on_conn {A} (m : M mockConn A) : M world A :=
  fun w => let '(o, x) := m (conn (harness w)) in (o, upd_harness (set_conn x) w).
Definition on_dialer {A} (m : M mockZookeeperDialer A) : M world A :=
  fun w => let '(o, x) := m (dialer (harness w)) in (o, upd_harness (set_dialer x) w).
Definition on_compress {A} (m : M mockCompressionProvider A) : M world A :=
  fun w => let '(o, x) := m (compress (harness w)) in (o, upd_harness (set_compress x) w).

Definition call_conn (who : actor) (call : conn_call) : M world conn_result :=
  emit (EvCall who DConn (call_method call) (call_args call)) ;;
  on_conn (invoke call).

Definition call_Dial (who : actor) (connString : string) (sessionTimeout : Z)
    (canBeReadOnly : bool) : M world (option ZookeeperConnection * option chan * error) :=
  emit (EvCall who DDialer "Dial"
          [VString connString; VDuration sessionTimeout; VBool canBeReadOnly]) ;;
  on_dialer (mockZookeeperDialer_Dial connString sessionTimeout canBeReadOnly).

Definition call_Compress (who : actor) (path : string) (data : list Byte.byte)
    : M world (list Byte.byte * error) :=
  emit (EvCall who DCompress "Compress" [VString path; VBytes data]) ;;
  on_compress (mockCompressionProvider_Compress path data).

Definition call_Decompress (who : actor) (path : string) (data : list Byte.byte)
    : M world (list Byte.byte * error) :=
  emit (EvCall who DCompress "Decompress" [VString path; VBytes data]) ;;
  on_compress (mockCompressionProvider_Decompress path data).

(** [d.On(method, args...).Return(rets...).Times(times)] on a double of the
    harness. *)
Definition expect (who : actor) (d : double) (method : string) (args rets : list value)
    (times : Z) : M world unit :=
  emit (EvExpect who d method args) ;;
  modify (upd_harness (fun c =>
    match d with
    | DConn => set_conn (with_mock (On method args rets times (conn_Mock (conn c))) (conn c)) c
    | DDialer =>
        set_dialer (with_mock (On method args rets times (dialer_Mock (dialer c))) (dialer c)) c
    | DCompress =>
        set_compress
          (with_mock (On method args rets times (compress_Mock (compress c))) (compress c)) c
    end)).

(** [sync.WaitGroup]: [Add(1)], [Done()] (a negative counter panics). *)
Definition wg_Add1 (who : actor) : M world unit :=
  emit (EvWgAdd who) ;;
  modify (upd_harness (fun c => set_wg (wg c + 1) c)).

Definition wg_Done (who : actor) : M world unit :=
  w <- get ;;
  if bool_decide (wg (harness w) - 1 < 0) then panic NegativeWaitGroup
  else
    emit (EvWgDone who) ;;
    modify (upd_harness (fun c => set_wg (wg c - 1) c)).

(** [close(c.events)]: closing a closed channel panics. *)
Definition close_events (who : actor) : M world unit :=
  w <- get ;;
  if closed (events (harness w)) then panic CloseOfClosedChannel
  else
    emit (EvChanClose who) ;;
    modify (upd_harness (fun c => set_events (mkChannel (chan_id (events c)) true) c)).

(** Running handed-in code step by step; [spawn] is what [go] does with a
    body. *)
Fixpoint run {G} (spawn : G -> M world unit) (who : actor) (p : prog G) : M world error :=
  match p with
  | Return_ err => ret err
  | Throw msg => panic (CallbackPanic msg)
  | OnConn call k => r <- call_conn who call ;; run spawn who (k r)
  | OnDial cs st ro k => r <- call_Dial who cs st ro ;; run spawn who (k r)
  | OnCompress path data k => r <- call_Compress who path data ;; run spawn who (k r)
  | OnDecompress path data k => r <- call_Decompress who path data ;; run spawn who (k r)
  | Expect d method args rets times k =>
      expect who d method args rets times ;; run spawn who k
  | WgAdd k => wg_Add1 who ;; run spawn who k
  | WgDone k => wg_Done who ;; run spawn who k
  | CloseEvents k => close_events who ;; run spawn who k
  | Go body k => spawn body ;; run spawn who k
  end.

Definition no_spawn (g : Empty_set) : M world unit := match g with end.

(** [go body]: the goroutine is queued; it runs when the run blocks. *)
Definition spawn_goroutine (g : goroutine) : M world unit :=
  modify (fun w => set_goroutines (goroutines w ++ [g]) w).

Definition run_goroutine (g : goroutine) : M world error := run no_spawn Background g.
Definition run_routine (who : actor) (p : routine) : M world error :=
  run spawn_goroutine who p.

(** [wg.Wait()]: returns once the counter is zero; while it is not, the
    queued goroutines run, oldest first; with none left to run the wait
    never returns. *)
Fixpoint wait_loop (queue : list goroutine) : M world unit :=
  fun w =>
    if bool_decide (wg (harness w) = 0) then (Done tt, w)
    else
      match queue with
      | [] => (Hang, w)
      | g :: rest =>
          (modify (set_goroutines rest) ;; _ <- run_goroutine g ;; wait_loop rest) w
      end.

Definition wg_Wait : M world unit :=
  (fun w => wait_loop (goroutines w) w) ;;
  emit EvWaited.

(** ** Callback parameters *)

(** The types a callback parameter can have, as [reflect.Type] sees them:
    the ones the harness names, and any other type by its name. *)
Inductive go_type :=
| T_ptr_CuratorFrameworkBuilder       (* reflect.TypeOf(c.builder) *)
| T_CuratorFramework                  (* the interface *)
| T_ZookeeperConnection               (* the interface *)
| T_ptr_mockConn                      (* reflect.TypeOf(c.conn) *)
| T_ZookeeperDialer                   (* the interface *)
| T_ptr_mockZookeeperDialer           (* reflect.TypeOf(c.dialer) *)
| T_CompressionProvider               (* the interface *)
| T_ptr_mockCompressionProvider       (* reflect.TypeOf(c.compress) *)
| T_chan_Event                        (* reflect.TypeOf(c.events) *)
| T_ptr_WaitGroup                     (* reflect.TypeOf(&c.wg) *)
| T_other (name : string).

Global Instance go_type_eq_dec : EqDecision go_type.
Proof. solve_decision. Defined.

(** The bodies of the [switch] in [Test], in source order. *)
Inductive slot :=
| SBuilder | SClient | SConn | SDialer | SCompress | SEvents | SWaitGroup.

Global Instance slot_eq_dec : EqDecision slot.
Proof. solve_decision. Defined.

(** The [case] lists of the [switch], in source order; the first list that
    holds the type selects the body. *)
Definition cases : list (list go_type * slot) :=
  [ ([T_ptr_CuratorFrameworkBuilder], SBuilder);
    ([T_CuratorFramework], SClient);
    ([T_ZookeeperConnection; T_ptr_mockConn], SConn);
    ([T_ZookeeperDialer; T_ptr_mockZookeeperDialer], SDialer);
    ([T_ZookeeperDialer; T_ptr_mockCompressionProvider], SCompress);
    ([T_chan_Event], SEvents);
    ([T_ptr_WaitGroup], SWaitGroup) ].

Fixpoint switch_on (cs : list (list go_type * slot)) (argType : go_type) : option slot :=
  match cs with
  | [] => None
  | (tys, s) :: rest =>
      if bool_decide (argType ∈ tys) then Some s else switch_on rest argType
  end.

Definition type_name (ty : go_type) : string :=
  match ty with
  | T_ptr_CuratorFrameworkBuilder => "*curator.CuratorFrameworkBuilder"
  | T_CuratorFramework => "curator.CuratorFramework"
  | T_ZookeeperConnection => "curator.ZookeeperConnection"
  | T_ptr_mockConn => "*curator.mockConn"
  | T_ZookeeperDialer => "curator.ZookeeperDialer"
  | T_ptr_mockZookeeperDialer => "*curator.mockZookeeperDialer"
  | T_CompressionProvider => "curator.CompressionProvider"
  | T_ptr_mockCompressionProvider => "*curator.mockCompressionProvider"
  | T_chan_Event => "chan zk.Event"
  | T_ptr_WaitGroup => "*sync.WaitGroup"
  | T_other name => name
  end.

(** The value handed to the callback, as [interface{}]: a function with
    its parameter types and its body, or something that is no function. *)
Inductive callback :=
| Func (params : list go_type) (body : routine)
| NotFunc (kind : string).

(** ** The client under test *)

(** What [Build] returns: the work building does on the doubles, and the
    [Start] and [Close] methods of the result. *)
Record CuratorFramework := mkFramework {
  building : routine;
  Start : routine;
  Close : routine }.

Section Harness.

(** The package constant, declared outside [mocks.go]. *)
Variable DEFAULT_CONNECTION_TIMEOUT : Z.

(** Modelled from the spec: the client framework ([Build], [Start],
    [Close] of the package) is not under src/.  Building touches no double;
    starting the client triggers one dial, with the connect string of the
    address resolver, the default timeout and the read-only flag of the
    configuration, and returns the dial's error; closing the client
    triggers one close of the connection. *)
Definition client_dialing (connString : string) (sessionTimeout : Z) (canBeReadOnly : bool)
    : CuratorFramework :=
  {| building := Return_ None;
     Start := OnDial connString sessionTimeout canBeReadOnly (fun r => Return_ (snd r));
     Close := OnConn CClose (fun _ => Return_ None) |}.

Definition curator_Build (b : CuratorFrameworkBuilder) : CuratorFramework :=
  client_dialing (ConnectionString b) DEFAULT_CONNECTION_TIMEOUT (CanBeReadOnly b).

(** [newMockZookeeperClient()]; the event channel is channel 0. *)
Definition newMockZookeeperClient : mockZookeeperClient :=
  {| conn := new_mockConn;
     dialer := new_mockZookeeperDialer;
     compress := new_mockCompressionProvider;
     events := mkChannel 0%nat false;
     wg := 0;
     builder := {| ZookeeperDialer := VDialer;
                   EnsembleProvider := "connectString";
                   CompressionProvider := VCompress;
                   RetryPolicy := 0;
                   DefaultData := String.list_byte_of_string "default";
                   Namespace := "";
                   CanBeReadOnly := false |} |}.

Definition WithNamespace (namespace : string) (c : mockZookeeperClient) : mockZookeeperClient :=
  set_builder
    (mkBuilder (ZookeeperDialer (builder c)) (EnsembleProvider (builder c))
       (CompressionProvider (builder c)) (RetryPolicy (builder c))
       (DefaultData (builder c)) namespace (CanBeReadOnly (builder c))) c.

(** [assert.NoError(t, err)] *)
Definition assert_NoError (err : error) : M world unit :=
  match err with
  | None => ret tt
  | Some msg => Errorf "Received unexpected error: %v" [VError msg]
  end.

(** [x.AssertExpectations(t)] *)
Definition AssertExpectations (d : double) : M world unit :=
  w <- get ;;
  let m := match d with
           | DConn => conn_Mock (conn (harness w))
           | DDialer => dialer_Mock (dialer (harness w))
           | DCompress => compress_Mock (compress (harness w))
           end in
  match unmet m with
  | [] => ret tt
  | l => Errorf "FAIL: %d out of %d expectation(s) were met"
           [VInt (Z.of_nat (length (ExpectedCalls m) - length l));
            VInt (Z.of_nat (length (ExpectedCalls m)))]
  end.

(** One turn of the loop over the parameters: the [switch] on the type of
    parameter [i].  The argument slot stays the zero [reflect.Value]
    ([None]) in the default case. *)
Definition resolve_one (argType : go_type) : M world (option value * bool) :=
  match switch_on cases argType with
  | Some SBuilder => ret (Some VBuilder, false)
  | Some SClient => ret (Some VFramework, false)
  | Some SConn => ret (Some VConn, false)
  | Some SDialer => ret (Some VDialer, false)
  | Some SCompress => ret (Some VCompress, false)
  | Some SEvents =>
      w <- get ;; ret (Some (VChan (chan_id (events (harness w)))), false)
  | Some SWaitGroup =>
      wg_Add1 Orchestrator ;; ret (Some VWaitGroup, true)
  | None =>
      Errorf "unknown arg type: %s" [VString (type_name argType)] ;;
      ret (None, false)
  end.

(** The loop: the argument slots, and whether a wait was asked for. *)
Fixpoint resolve (params : list go_type) (waiting : bool)
    : M world (list (option value) * bool) :=
  match params with
  | [] => ret ([], waiting)
  | argType :: rest =>
      r <- resolve_one argType ;;
      r' <- resolve rest (waiting || snd r) ;;
      ret (fst r :: fst r', snd r')
  end.

(** The arguments when every slot holds a value. *)
Fixpoint valid_args (args : list (option value)) : option (list value) :=
  match args with
  | [] => Some []
  | None :: _ => None
  | Some v :: rest =>
      match valid_args rest with
      | Some vs => Some (v :: vs)
      | None => None
      end
  end.

(** [reflect.ValueOf(callback).Call(args)]: a zero [reflect.Value] among
    the arguments panics before the function is entered. *)
Definition Call_ (body : routine) (args : list (option value)) : M world unit :=
  match valid_args args with
  | None => panic ZeroValueArgument
  | Some vs =>
      emit (EvInvoke vs) ;;
      _ <- run_routine Callback body ;;
      emit EvReturned
  end.

(** [(c *mockZookeeperClient) Test(t, callback)], for a client built by
    [Build], in the three blocks of the source.  First block: the hooks
    are set, the client is built, the expected dial is programmed, the
    client is started. *)
Definition Test_start (Build : CuratorFrameworkBuilder -> CuratorFramework)
    : M world CuratorFramework :=
  modify (upd_harness (fun c =>
    set_compress (mkCompression (compress_Mock (compress c)) (Some Logf) (compress_out (compress c)))
      (set_dialer (mkDialer (dialer_Mock (dialer c)) (Some Logf) (dialer_out (dialer c)))
         (set_conn (mkConn (conn_Mock (conn c)) (operations (conn c)) (Some Logf)
                      (conn_out (conn c))) c)))) ;;
  w <- get ;;
  let b := builder (harness w) in
  let client := Build b in
  emit EvBuild ;;
  _ <- run_routine Client (building client) ;;
  expect Orchestrator DDialer "Dial"
    [VString (ConnectionString b); VDuration DEFAULT_CONNECTION_TIMEOUT; VBool (CanBeReadOnly b)]
    [VConn; VChan (chan_id (events (harness w))); VNil] 1 ;;
  emit EvStart ;;
  err <- run_routine Client (Start client) ;;
  emit EvStarted ;;
  assert_NoError err ;;
  ret client.

(** Second block: the callback is inspected, its parameters are resolved,
    it is called; the result is whether a wait was asked for.  [NumIn] of
    something that is no function panics. *)
Definition Test_call (cb : callback) : M world bool :=
  match cb with
  | NotFunc kind =>
      Errorf "Not equal: %v (expected) != %v (actual)" [VString "func"; VString kind] ;;
      panic NotAFunc
  | Func params body =>
      r <- resolve params false ;;
      Call_ body (fst r) ;;
      ret (snd r)
  end.

(** Third block: the wait, the expected close, the close of the client and
    of the event channel, the check of the expectations. *)
Definition Test_teardown (client : CuratorFramework) (waiting : bool) : M world unit :=
  (if waiting then wg_Wait else ret tt) ;;
  expect Orchestrator DConn "Close" [] [] 1 ;;
  emit EvClose ;;
  err <- run_routine Client (Close client) ;;
  emit EvClosed ;;
  assert_NoError err ;;
  close_events Orchestrator ;;
  AssertExpectations DConn ;;
  AssertExpectations DDialer ;;
  AssertExpectations DCompress.

Definition Test (Build : CuratorFrameworkBuilder -> CuratorFramework) (cb : callback)
    : M world unit :=
  client <- Test_start Build ;;
  waiting <- Test_call cb ;;
  Test_teardown client waiting.

(** [WithClient] and [WithClientAndNamespace] of the test suite: a run of
    the harness on a fresh [mockZookeeperClient]. *)
Definition fresh (c : mockZookeeperClient) : world := mkWorld c (mkT []) [] [].

Definition WithClient (Build : CuratorFrameworkBuilder -> CuratorFramework) (cb : callback)
    : outcome unit * world :=
  Test Build cb (fresh newMockZookeeperClient).

Definition WithClientAndNamespace (Build : CuratorFrameworkBuilder -> CuratorFramework)
    (namespace : string) (cb : callback) : outcome unit * world :=
  Test Build cb (fresh (WithNamespace namespace newMockZookeeperClient)).

End Harness.

(** ** A bench with one double of each kind *)

(** The doubles of the file side by side, and a call on any of them as
    data, so that a property of every double is stated once. *)
Record bench := mkBench {
  b_closeable : mockCloseable;
  b_tracer : mockTracerDriver;
  b_sleeper : mockRetrySleeper;
  b_conn : mockConn;
  b_dialer : mockZookeeperDialer;
  b_compress : mockCompressionProvider;
  b_acl : mockACLProvider;
  b_ensure : mockEnsurePath;
  b_helper : mockEnsurePathHelper }.

Inductive bench_call :=
| BClose
| BAddTime (name : string) (d : Z)
| BAddCount (name : string) (increment : Z)
| BSleepFor (time : Z)
| BConn (call : conn_call)
| BDial (connString : string) (sessionTimeout : Z) (canBeReadOnly : bool)
| BCompress (path : string) (data : list Byte.byte)
| BDecompress (path : string) (compressedData : list Byte.byte)
| BGetDefaultAcl
| BGetAclForPath (path : string)
| BEnsure (client : nat)
| BExcludingLast
| BHelperEnsure (client : nat) (path : string) (makeLastNode : bool).

(** The results of a call on the connection double, as values again. *)
Definition result_values (r : conn_result) : list value :=
  match r with
  | RError err => [of_error err]
  | RClosed => []
  | RPath path err => [VString path; of_error err]
  | RExists b st err => [VBool b; VStat st; of_error err]
  | RExistsW b st ev err => [VBool b; VStat st; of_chan ev; of_error err]
  | RData d st err => [VBytes d; VStat st; of_error err]
  | RDataW d st ev err => [VBytes d; VStat st; of_chan ev; of_error err]
  | RStat st err => [VStat st; of_error err]
  | RChildren l st err => [VStrings l; VStat st; of_error err]
  | RChildrenW l st ev err => [VStrings l; VStat st; of_chan ev; of_error err]
  | RACL l st err => [VACLs l; VStat st; of_error err]
  | RMulti res err => [VResponses res; of_error err]
  end.

Definition lift_field {S A} (proj : bench -> S) (inj : S -> bench -> bench) (m : M S A)
    : M bench A :=
  fun b => let '(o, x) := m (proj b) in (o, inj x b).

Definition set_b_closeable (x : mockCloseable) (b : bench) : bench :=
  mkBench x (b_tracer b) (b_sleeper b) (b_conn b) (b_dialer b) (b_compress b) (b_acl b)
    (b_ensure b) (b_helper b).
Definition set_b_tracer (x : mockTracerDriver) (b : bench) : bench :=
  mkBench (b_closeable b) x (b_sleeper b) (b_conn b) (b_dialer b) (b_compress b) (b_acl b)
    (b_ensure b) (b_helper b).
Definition set_b_sleeper (x : mockRetrySleeper) (b : bench) : bench :=
  mkBench (b_closeable b) (b_tracer b) x (b_conn b) (b_dialer b) (b_compress b) (b_acl b)
    (b_ensure b) (b_helper b).
Definition set_b_conn (x : mockConn) (b : bench) : bench :=
  mkBench (b_closeable b) (b_tracer b) (b_sleeper b) x (b_dialer b) (b_compress b) (b_acl b)
    (b_ensure b) (b_helper b).
Definition set_b_dialer (x : mockZookeeperDialer) (b : bench) : bench :=
  mkBench (b_closeable b) (b_tracer b) (b_sleeper b) (b_conn b) x (b_compress b) (b_acl b)
    (b_ensure b) (b_helper b).
Definition set_b_compress (x : mockCompressionProvider) (b : bench) : bench :=
  mkBench (b_closeable b) (b_tracer b) (b_sleeper b) (b_conn b) (b_dialer b) x (b_acl b)
    (b_ensure b) (b_helper b).
Definition set_b_acl (x : mockACLProvider) (b : bench) : bench :=
  mkBench (b_closeable b) (b_tracer b) (b_sleeper b) (b_conn b) (b_dialer b) (b_compress b) x
    (b_ensure b) (b_helper b).
Definition set_b_ensure (x : mockEnsurePath) (b : bench) : bench :=
  mkBench (b_closeable b) (b_tracer b) (b_sleeper b) (b_conn b) (b_dialer b) (b_compress b)
    (b_acl b) x (b_helper b).
Definition set_b_helper (x : mockEnsurePathHelper) (b : bench) : bench :=
  mkBench (b_closeable b) (b_tracer b) (b_sleeper b) (b_conn b) (b_dialer b) (b_compress b)
    (b_acl b) (b_ensure b) x.

(** Making the call; what the caller receives, as values. *)
Definition perform (call : bench_call) : M bench (list value) :=
  match call with
  | BClose =>
      fmap_M (fun e => [of_error e]) (lift_field b_closeable set_b_closeable mockCloseable_Close)
  | BAddTime name d =>
      fmap_M (fun _ => []) (lift_field b_tracer set_b_tracer (mockTracerDriver_AddTime name d))
  | BAddCount name n =>
      fmap_M (fun _ => []) (lift_field b_tracer set_b_tracer (mockTracerDriver_AddCount name n))
  | BSleepFor time =>
      fmap_M (fun e => [of_error e])
        (lift_field b_sleeper set_b_sleeper (mockRetrySleeper_SleepFor time))
  | BConn call => fmap_M result_values (lift_field b_conn set_b_conn (invoke call))
  | BDial cs st ro =>
      fmap_M (fun '(c, ev, e) => [of_conn c; of_chan ev; of_error e])
        (lift_field b_dialer set_b_dialer (mockZookeeperDialer_Dial cs st ro))
  | BCompress path data =>
      fmap_M (fun '(d, e) => [VBytes d; of_error e])
        (lift_field b_compress set_b_compress (mockCompressionProvider_Compress path data))
  | BDecompress path data =>
      fmap_M (fun '(d, e) => [VBytes d; of_error e])
        (lift_field b_compress set_b_compress (mockCompressionProvider_Decompress path data))
  | BGetDefaultAcl =>
      fmap_M (fun l => [VACLs l]) (lift_field b_acl set_b_acl mockACLProvider_GetDefaultAcl)
  | BGetAclForPath path =>
      fmap_M (fun l => [VACLs l])
        (lift_field b_acl set_b_acl (mockACLProvider_GetAclForPath path))
  | BEnsure client =>
      fmap_M (fun e => [of_error e])
        (lift_field b_ensure set_b_ensure (mockEnsurePath_Ensure client))
  | BExcludingLast =>
      fmap_M (fun e => [of_EnsurePath e])
        (lift_field b_ensure set_b_ensure mockEnsurePath_ExcludingLast)
  | BHelperEnsure client path makeLastNode =>
      fmap_M (fun e => [of_error e])
        (lift_field b_helper set_b_helper (mockEnsurePathHelper_Ensure client path makeLastNode))
  end.

(** The mock a call consults, and the name and arguments it presents. *)
Definition bench_mock (call : bench_call) (b : bench) : Mock :=
  match call with
  | BClose => closeable_Mock (b_closeable b)
  | BAddTime _ _ | BAddCount _ _ => tracer_Mock (b_tracer b)
  | BSleepFor _ => sleeper_Mock (b_sleeper b)
  | BConn _ => conn_Mock (b_conn b)
  | BDial _ _ _ => dialer_Mock (b_dialer b)
  | BCompress _ _ | BDecompress _ _ => compress_Mock (b_compress b)
  | BGetDefaultAcl | BGetAclForPath _ => acl_Mock (b_acl b)
  | BEnsure _ | BExcludingLast => ensure_Mock (b_ensure b)
  | BHelperEnsure _ _ _ => helper_Mock (b_helper b)
  end.

Definition bench_method (call : bench_call) : string :=
  match call with
  | BClose => "Close" | BAddTime _ _ => "AddTime" | BAddCount _ _ => "AddCount"
  | BSleepFor _ => "SleepFor" | BConn call => call_method call | BDial _ _ _ => "Dial"
  | BCompress _ _ => "Compress" | BDecompress _ _ => "Decompress"
  | BGetDefaultAcl => "GetDefaultAcl" | BGetAclForPath _ => "GetAclForPath"
  | BEnsure _ => "Ensure" | BExcludingLast => "ExcludingLast"
  | BHelperEnsure _ _ _ => "Ensure"
  end.

Definition bench_args (call : bench_call) : list value :=
  match call with
  | BClose | BGetDefaultAcl | BExcludingLast => []
  | BAddTime name d => [VString name; VDuration d]
  | BAddCount name n => [VString name; VInt n]
  | BSleepFor time => [VDuration time]
  | BConn call => call_args call
  | BDial cs st ro => [VString cs; VDuration st; VBool ro]
  | BCompress path data | BDecompress path data => [VString path; VBytes data]
  | BGetAclForPath path => [VString path]
  | BEnsure client => [VClient client]
  | BHelperEnsure client path makeLastNode => [VClient client; VString path; VBool makeLastNode]
  end.

(** How a method reads a slot of the canned results: through a typed
    accessor ([KString], [KBool], [KError]), through a checked assertion,
    or through the unchecked assertion to an ACL list ([KMustACLs]). *)
Inductive slot_kind :=
| KString | KBool | KError
| KBytes | KStat | KChan | KStrings | KACLs | KResponses | KConn | KEnsurePath
| KMustACLs.

Definition checked (k : slot_kind) : bool :=
  match k with
  | KBytes | KStat | KChan | KStrings | KACLs | KResponses | KConn | KEnsurePath => true
  | KString | KBool | KError | KMustACLs => false
  end.

(** The dynamic type of [v] is the type the slot is read at. *)
Definition well_typed (k : slot_kind) (v : value) : bool :=
  match k, v with
  | KString, VString _ | KBool, VBool _ | KError, VNil | KError, VError _
  | KBytes, VBytes _ | KStat, VStat _ | KChan, VChan _ | KStrings, VStrings _
  | KACLs, VACLs _ | KResponses, VResponses _ | KConn, VConn
  | KEnsurePath, VEnsurePath _ | KMustACLs, VACLs _ => true
  | _, _ => false
  end.

(** The zero value of the slot's type, as the caller sees it. *)
Definition zero (k : slot_kind) : value :=
  match k with
  | KString => VString ""
  | KBool => VBool false
  | KError | KChan | KConn | KEnsurePath => VNil
  | KBytes => VBytes []
  | KStat => VStat None
  | KStrings => VStrings []
  | KACLs | KMustACLs => VACLs []
  | KResponses => VResponses []
  end.

(** The result slots of each method, from its Go signature and body. *)
Definition conn_signature (call : conn_call) : list slot_kind :=
  match call with
  | CAddAuth _ _ | CDelete _ _ => [KError]
  | CClose => []
  | CCreate _ _ _ _ | CSync _ => [KString; KError]
  | CExists _ => [KBool; KStat; KError]
  | CExistsW _ => [KBool; KStat; KChan; KError]
  | CGet _ => [KBytes; KStat; KError]
  | CGetW _ => [KBytes; KStat; KChan; KError]
  | CSet _ _ _ | CSetACL _ _ _ => [KStat; KError]
  | CChildren _ => [KStrings; KStat; KError]
  | CChildrenW _ => [KStrings; KStat; KChan; KError]
  | CGetACL _ => [KACLs; KStat; KError]
  | CMulti _ => [KResponses; KError]
  end.

Definition bench_signature (call : bench_call) : list slot_kind :=
  match call with
  | BClose | BSleepFor _ | BEnsure _ | BHelperEnsure _ _ _ => [KError]
  | BAddTime _ _ | BAddCount _ _ => []
  | BConn call => conn_signature call
  | BDial _ _ _ => [KConn; KChan; KError]
  | BCompress _ _ | BDecompress _ _ => [KBytes; KError]
  | BGetDefaultAcl | BGetAclForPath _ => [KMustACLs]
  | BExcludingLast => [KEnsurePath]
  end.

(** The expectation that answers a call: the next one that matches and is
    not exhausted. *)
Definition next_expected (m : Mock) (method : string) (args : list value) : option Call :=
  match findExpectedCall (ExpectedCalls m) method args 0 false with
  | (Some i, _) => ExpectedCalls m !! i
  | (None, _) => None
  end.

(** A fresh double programmed with one expectation. *)
Definition programmed (method : string) (args rets : list value) (times : Z) : Mock :=
  On method args rets times new_Mock.

(** A bench of fresh doubles. *)
Definition new_bench : bench :=
  mkBench (mkCloseable new_Mock false) (mkTracerDriver new_Mock) (mkRetrySleeper new_Mock)
    new_mockConn new_mockZookeeperDialer new_mockCompressionProvider
    (mkACLProvider new_Mock) (mkEnsurePath new_Mock None []) (mkEnsurePathHelper new_Mock None []).

(** The calls on the ACL-provider double. *)
Definition is_acl_call (call : bench_call) : bool :=
  match call with
  | BGetDefaultAcl | BGetAclForPath _ => true
  | _ => false
  end.

(** What a caller receives in a slot for a canned value [v]: [v] itself
    when it has the slot's type, else the zero value of the slot. *)
Definition received (k : slot_kind) (v : value) : value :=
  if well_typed k v then v else zero k.

(** ** Scenarios *)

(** A stat with [Version: 1]. *)
Definition stat_v1 : Stat := mkStat 0 0 0 0 1 0 0 0 0 0 0.

(** A bench whose connection double, resp. ACL-provider double, holds the
    expectations of [m]. *)
Definition bench_conn (m : Mock) : bench := set_b_conn (with_mock m new_mockConn) new_bench.
Definition bench_acl (m : Mock) : bench := set_b_acl (mkACLProvider m) new_bench.

(** ** Reading a run *)

(** A harness as [newMockZookeeperClient] makes it, for any configuration. *)
Definition harness_with (b : CuratorFrameworkBuilder) : mockZookeeperClient :=
  mkZookeeperClient new_mockConn new_mockZookeeperDialer new_mockCompressionProvider b
    (mkChannel 0%nat false) 0.

(** The argument triple of the expected dial. *)
Definition dial_args (timeout : Z) (b : CuratorFrameworkBuilder) : list value :=
  [VString (ConnectionString b); VDuration timeout; VBool (CanBeReadOnly b)].

(** The steps of the first and of the last block of [Test] when the client
    dials once at start and closes the connection once at close. *)
Definition start_events (timeout : Z) (b : CuratorFrameworkBuilder) : list event :=
  [EvBuild; EvExpect Orchestrator DDialer "Dial" (dial_args timeout b); EvStart;
   EvCall Client DDialer "Dial" (dial_args timeout b); EvStarted].

Definition end_events : list event :=
  [EvExpect Orchestrator DConn "Close" []; EvClose; EvCall Client DConn "Close" [];
   EvClosed; EvChanClose Orchestrator].

(** The expected dial and the expected close once they are consumed. *)
Definition dial_consumed (timeout : Z) (b : CuratorFrameworkBuilder) : Call :=
  mkCall "Dial" (dial_args timeout b) [VConn; VChan 0%nat; VNil] (-1) 1.

Definition close_consumed : Call := mkCall "Close" [] [] (-1) 1.

(** Steps that handed-in code run by [who] can make. *)
Definition made_by (who : actor) (e : event) : bool :=
  match e with
  | EvExpect a _ _ _ | EvCall a _ _ _ | EvWgAdd a | EvWgDone a | EvChanClose a =>
      bool_decide (a = who)
  | _ => false
  end.

Definition is_add (e : event) : bool :=
  match e with EvWgAdd _ => true | _ => false end.
Definition is_done (e : event) : bool :=
  match e with EvWgDone _ => true | _ => false end.
Definition is_chan_close (e : event) : bool :=
  match e with EvChanClose _ => true | _ => false end.
Definition is_invoke (e : event) : bool :=
  match e with EvInvoke _ => true | _ => false end.
Definition by_orchestrator (e : event) : bool :=
  match e with
  | EvExpect a _ _ _ | EvCall a _ _ _ | EvWgAdd a | EvWgDone a | EvChanClose a =>
      bool_decide (a = Orchestrator)
  | _ => true
  end.

Fixpoint count (f : event -> bool) (tr : list event) : nat :=
  match tr with
  | [] => 0
  | e :: rest => (if f e then 1 else 0) + count f rest
  end.

(** The counter of the wait group is the number of units registered minus
    the number marked done. *)
Definition balanced (w : world) : Prop :=
  wg (harness w) = Z.of_nat (count is_add (trace w)) - Z.of_nat (count is_done (trace w)).

(** The event channel is closed when, and only when, a close of it is in
    the trace; it is there at most once. *)
Definition chan_ok (w : world) : Prop :=
  count is_chan_close (trace w) = if closed (events (harness w)) then 1%nat else 0%nat.

(** An exhausted expectation stays as it is. *)
Definition frozen (m m' : Mock) : Prop :=
  forall i c, ExpectedCalls m !! i = Some c -> Repeatability c = -1 ->
    ExpectedCalls m' !! i = Some c.

(** The parameter types the harness recognizes: the configuration object,
    the client handle, the connection double by concrete or abstract
    identity, the dialer double by concrete or abstract identity, the
    compression double by concrete identity, the event channel, the
    completion-signal handle. *)
Definition recognized : list go_type :=
  [T_ptr_CuratorFrameworkBuilder; T_CuratorFramework;
   T_ptr_mockConn; T_ZookeeperConnection;
   T_ptr_mockZookeeperDialer; T_ZookeeperDialer;
   T_ptr_mockCompressionProvider; T_chan_Event; T_ptr_WaitGroup].

(** The handle that matches a recognized type. *)
Definition handle_for (ty : go_type) : option value :=
  match ty with
  | T_ptr_CuratorFrameworkBuilder => Some VBuilder
  | T_CuratorFramework => Some VFramework
  | T_ptr_mockConn | T_ZookeeperConnection => Some VConn
  | T_ptr_mockZookeeperDialer | T_ZookeeperDialer => Some VDialer
  | T_ptr_mockCompressionProvider => Some VCompress
  | T_chan_Event => Some (VChan 0%nat)
  | T_ptr_WaitGroup => Some VWaitGroup
  | T_CompressionProvider | T_other _ => None
  end.

(** The number of completion-signal-handle parameters. *)
Definition wait_params (params : list go_type) : nat :=
  length (filter (fun ty => ty = T_ptr_WaitGroup) params).

(** The failure reported for a parameter type. *)
Definition unknown_arg (ty : go_type) : string * list value :=
  ("unknown arg type: %s", [VString (type_name ty)]).

(** The state in which the first block leaves a fresh harness when the
    client dials as programmed. *)
Definition started (timeout : Z) (b : CuratorFrameworkBuilder) : world :=
  mkWorld
    (mkZookeeperClient
       (mkConn new_Mock [] (Some Logf) [])
       (mkDialer (mkMock [dial_consumed timeout b] [("Dial", dial_args timeout b)])
          (Some Logf)
          [("Dial(connectString=%s, sessionTimeout=%v, canBeReadOnly=%v)(conn=%p, events=%v, error=%v)",
            dial_args timeout b ++ [VConn; VChan 0%nat; VNil])])
       (mkCompression new_Mock (Some Logf) [])
       b (mkChannel 0%nat false) 0)
    (mkT []) [] (start_events timeout b).

(** Steps by which the orchestrator programs a double, resp. the dialer
    double. *)
Definition is_orchestrator_expect (e : event) : bool :=
  match e with EvExpect Orchestrator _ _ _ => true | _ => false end.
Definition expects_dial (e : event) : bool :=
  match e with EvExpect Orchestrator DDialer _ _ => true | _ => false end.

(** A step by which the orchestrator registers a unit of pending work. *)
Definition is_registration (e : event) : bool :=
  match e with EvWgAdd Orchestrator => true | _ => false end.

(** A client whose [Build] itself dials, with continuation [k]. *)
Definition client_dialing_at_build (connString : string) (sessionTimeout : Z)
    (canBeReadOnly : bool)
    (k : option ZookeeperConnection * option chan * error -> routine) : CuratorFramework :=
  {| building := OnDial connString sessionTimeout canBeReadOnly k;
     Start := Return_ None;
     Close := OnConn CClose (fun _ => Return_ None) |}.

(** Callbacks of the scenarios: no parameter; a parameter of a foreign
    type; two completion-signal handles, each marked done by the body. *)
Definition callback_plain : callback := Func [] (Return_ None).
Definition callback_foreign : callback := Func [T_other "int"] (Return_ None).
Definition callback_two_handles : callback :=
  Func [T_ptr_WaitGroup; T_ptr_WaitGroup] (WgDone (WgDone (Return_ None))).

(** The callback of the specification's scenario: one completion-signal
    handle and the connection double; the body programs [Children] and
    starts a goroutine that reads the children and then marks the unit
    done. *)
Definition callback_background : callback :=
  Func [T_ptr_WaitGroup; T_ptr_mockConn]
    (Expect DConn "Children" [VString "/a"] [VStrings ["x"; "y"; "z"]; VStat None; VNil] 1
       (Go (OnConn (CChildren "/a") (fun _ => WgDone (Return_ None)))
          (Return_ None))).

(** ** Relations used in the proofs *)

(** A relation between the state before and after that holds whatever the
    outcome. *)
Definition stable {S A} (R : S -> S -> Prop) (m : M S A) : Prop :=
  forall s, R s (snd (m s)).

(** The recorded operations grew by [ops]. *)
Definition grown_by (ops : list value) (c c' : mockConn) : Prop :=
  operations c' = operations c ++ ops.

(** Two connection doubles that differ at most in the hook and in the
    diagnostics written so far. *)
Definition same_but_log (c1 c2 : mockConn) : Prop :=
  conn_Mock c1 = conn_Mock c2 /\ operations c1 = operations c2.

Definition agree {A} (m : M mockConn A) : Prop :=
  forall c1 c2, same_but_log c1 c2 ->
    fst (m c1) = fst (m c2) /\ same_but_log (snd (m c1)) (snd (m c2)).

(** An exhausted expectation of the dialer double stays as it is. *)
Definition dialer_frozen (d d' : mockZookeeperDialer) : Prop :=
  frozen (dialer_Mock d) (dialer_Mock d').

(** What any step of a run guarantees, whatever its outcome: the trace
    only grows, by steps in [P]; the wait-group counter stays the balance
    of the registered and the finished units; the channel is closed when
    its close is in the trace; an exhausted expectation of the dialer stays
    as it is; reported failures stay. *)
Definition evolves (P : event -> bool) (w w' : world) : Prop :=
  (exists ev, trace w' = trace w ++ ev /\ Forall (fun e => P e = true) ev) /\
  (balanced w -> balanced w') /\
  (chan_ok w -> chan_ok w') /\
  frozen (dialer_Mock (dialer (harness w))) (dialer_Mock (dialer (harness w'))) /\
  errors (t w) `prefix_of` errors (t w').

(** The predicate that admits every step. *)
Definition anything (e : event) : bool := true.

(** How far a run got after the units of pending work were registered,
    read off the rest of its trace.  [k] is the number of units registered
    and [before] the trace up to there. *)
Inductive after_registration (k : nat) (before : list event) : list event -> Prop :=
| not_invoked :
    after_registration k before []
| not_returned vs during :
    Forall (fun e => made_by Callback e = true) during ->
    after_registration k before ([EvInvoke vs] ++ during)
| still_waiting vs during bg :
    (0 < k)%nat ->
    Forall (fun e => made_by Callback e = true) during ->
    Forall (fun e => made_by Background e = true) bg ->
    after_registration k before ([EvInvoke vs] ++ during ++ [EvReturned] ++ bg)
| close_programmed vs during bg rest :
    Forall (fun e => made_by Callback e = true) during ->
    Forall (fun e => made_by Background e = true) bg ->
    (k = 0%nat -> bg = []) ->
    ((0 < k)%nat ->
       count is_done (before ++ [EvInvoke vs] ++ during ++ [EvReturned] ++ bg) =
       count is_add (before ++ [EvInvoke vs] ++ during ++ [EvReturned] ++ bg)) ->
    after_registration k before
      ([EvInvoke vs] ++ during ++ [EvReturned] ++ bg ++
       (if bool_decide (0 < k)%nat then [EvWaited] else []) ++
       [EvExpect Orchestrator DConn "Close" []] ++ rest).

(** ** Reading the diagnostics of a double *)

(** The hook of the double a call is made on and what was written through
    it so far; the closeable, tracer, sleeper and ACL-provider doubles
    carry no hook. *)
Definition bench_log (call : bench_call) (b : bench) : option infof :=
  match call with
  | BConn _ => conn_log (b_conn b)
  | BDial _ _ _ => dialer_log (b_dialer b)
  | BCompress _ _ | BDecompress _ _ => compress_log (b_compress b)
  | BEnsure _ | BExcludingLast => ensure_log (b_ensure b)
  | BHelperEnsure _ _ _ => helper_log (b_helper b)
  | BClose | BAddTime _ _ | BAddCount _ _ | BSleepFor _ | BGetDefaultAcl
  | BGetAclForPath _ => None
  end.

Definition bench_out (call : bench_call) (b : bench) : list trace_line :=
  match call with
  | BConn _ => conn_out (b_conn b)
  | BDial _ _ _ => dialer_out (b_dialer b)
  | BCompress _ _ | BDecompress _ _ => compress_out (b_compress b)
  | BEnsure _ | BExcludingLast => ensure_out (b_ensure b)
  | BHelperEnsure _ _ _ => helper_out (b_helper b)
  | BClose | BAddTime _ _ | BAddCount _ _ | BSleepFor _ | BGetDefaultAcl
  | BGetAclForPath _ => []
  end.

(** The methods whose body holds an [if x.log != nil { x.log(...) }]. *)
Definition conn_logs (call : conn_call) : bool :=
  match call with
  | CCreate _ _ _ _ | CExists _ | CExistsW _ | CDelete _ _ | CChildren _
  | CChildrenW _ | CMulti _ => true
  | CAddAuth _ _ | CClose | CGet _ | CGetW _ | CSet _ _ _ | CGetACL _
  | CSetACL _ _ _ | CSync _ => false
  end.

Definition logging (call : bench_call) : bool :=
  match call with
  | BConn call => conn_logs call
  | BDial _ _ _ | BCompress _ _ | BDecompress _ _ | BEnsure _ | BExcludingLast
  | BHelperEnsure _ _ _ => true
  | BClose | BAddTime _ _ | BAddCount _ _ | BSleepFor _ | BGetDefaultAcl
  | BGetAclForPath _ => false
  end.

(** The canned values that a method reads through a typed accessor or an
    unchecked assertion have the type of their slot (the values that are
    there: the list may be shorter or longer than the results). *)
Definition accessors_typed (sig : list slot_kind) (rets : list value) : bool :=
  forallb (fun kv => checked kv.1 || well_typed kv.1 kv.2) (zip sig rets).

(** What a call has done to the double by the time it consults the mock:
    [Multi] has recorded its batch, the other methods nothing. *)
Definition recorded_only (call : bench_call) (b : bench) : bench :=
  match call with
  | BConn (CMulti ops) =>
      set_b_conn (mkConn (conn_Mock (b_conn b)) (operations (b_conn b) ++ ops)
                    (conn_log (b_conn b)) (conn_out (b_conn b))) b
  | _ => b
  end.

(** ** Reading a run step by step *)

(** The first statements of [Test]: the three doubles of the harness get
    [t.Logf] as their hook. *)
Definition install_hooks (c : mockZookeeperClient) : mockZookeeperClient :=
  set_compress (mkCompression (compress_Mock (compress c)) (Some Logf) (compress_out (compress c)))
    (set_dialer (mkDialer (dialer_Mock (dialer c)) (Some Logf) (dialer_out (dialer c)))
       (set_conn (mkConn (conn_Mock (conn c)) (operations (conn c)) (Some Logf)
                    (conn_out (conn c))) c)).

(** The three doubles of the harness write through [t.Logf]. *)
Definition hooked (c : mockZookeeperClient) : Prop :=
  conn_log (conn c) = Some Logf /\ dialer_log (dialer c) = Some Logf /\
  compress_log (compress c) = Some Logf.

(** [d.On(method, args...).Return(rets...).Times(times)] as a change of the
    harness. *)
Definition program (d : double) (method : string) (args rets : list value) (times : Z)
    (c : mockZookeeperClient) : mockZookeeperClient :=
  match d with
  | DConn => set_conn (with_mock (On method args rets times (conn_Mock (conn c))) (conn c)) c
  | DDialer =>
      set_dialer (with_mock (On method args rets times (dialer_Mock (dialer c))) (dialer c)) c
  | DCompress =>
      set_compress
        (with_mock (On method args rets times (compress_Mock (compress c))) (compress c)) c
  end.

(** A closed event channel stays closed. *)
Definition stays_closed (w w' : world) : Prop :=
  closed (events (harness w)) = true -> closed (events (harness w')) = true.

(** The configuration and the identity of the event channel are kept, and
    so are the hooks once they are [t.Logf]. *)
Definition configuration_kept (w w' : world) : Prop :=
  builder (harness w') = builder (harness w) /\
  chan_id (events (harness w')) = chan_id (events (harness w)) /\
  (hooked (harness w) -> hooked (harness w')).

(** Nothing is reported to the test handle. *)
Definition reports_kept (w w' : world) : Prop := t w' = t w.

(** Handed-in code that never marks a unit of work done, given what holds
    of the bodies it starts as goroutines. *)
Fixpoint never_done {G} (inner : G -> Prop) (p : prog G) : Prop :=
  match p with
  | Return_ _ | Throw _ => True
  | OnConn _ k => forall r, never_done inner (k r)
  | OnDial _ _ _ k => forall r, never_done inner (k r)
  | OnCompress _ _ k | OnDecompress _ _ k => forall r, never_done inner (k r)
  | Expect _ _ _ _ _ k | WgAdd k | CloseEvents k => never_done inner k
  | WgDone _ => False
  | Go body k => inner body /\ never_done inner k
  end.

(** A goroutine, resp. a routine and the goroutines it starts, never marks
    a unit done. *)
Definition goroutine_never_done (g : goroutine) : Prop :=
  never_done (fun _ : Empty_set => True) g.
Definition routine_never_done (p : routine) : Prop :=
  never_done goroutine_never_done p.

(** The counter of the wait group did not go down and the queued goroutines
    still never mark a unit done. *)
Definition unfinished (w w' : world) : Prop :=
  wg (harness w) <= wg (harness w') /\
  (Forall goroutine_never_done (goroutines w) -> Forall goroutine_never_done (goroutines w')).

(** The arguments of the callback: the handle of each recognized parameter
    type, in the order of the parameters. *)
Definition handles (params : list go_type) : list value := omap handle_for params.

(** The world in which a callback whose parameters are all recognized and
    hold no completion-signal handle is entered. *)
Definition entered (timeout : Z) (b : CuratorFrameworkBuilder) (params : list go_type) : world :=
  mkWorld (harness (started timeout b)) (mkT []) []
    (start_events timeout b ++ [EvInvoke (handles params)]).

(** The failure [AssertExpectations] reports for the mock [m], if any. *)
Definition unmet_report (m : Mock) : list (string * list value) :=
  match unmet m with
  | [] => []
  | l => [("FAIL: %d out of %d expectation(s) were met",
           [VInt (Z.of_nat (length (ExpectedCalls m) - length l));
            VInt (Z.of_nat (length (ExpectedCalls m)))])]
  end.

(** The steps of a run in which the orchestrator closes the client. *)
Definition is_client_close (e : event) : bool :=
  match e with EvClose => true | _ => false end.

(** Two benches whose doubles differ at most in their hooks and in what was
    written through them. *)
Definition same_but_hooks (b1 b2 : bench) : Prop :=
  b_closeable b1 = b_closeable b2 /\ b_tracer b1 = b_tracer b2 /\
  b_sleeper b1 = b_sleeper b2 /\
  conn_Mock (b_conn b1) = conn_Mock (b_conn b2) /\
  operations (b_conn b1) = operations (b_conn b2) /\
  dialer_Mock (b_dialer b1) = dialer_Mock (b_dialer b2) /\
  compress_Mock (b_compress b1) = compress_Mock (b_compress b2) /\
  b_acl b1 = b_acl b2 /\
  ensure_Mock (b_ensure b1) = ensure_Mock (b_ensure b2) /\
  helper_Mock (b_helper b1) = helper_Mock (b_helper b2).

(** A method of a double whose outcome and whose effect on the mock do not
    depend on anything but the mock. *)
Definition inert {S A} `{HasMock S} (m : M S A) : Prop :=
  forall s1 s2, the_mock s1 = the_mock s2 ->
    fst (m s1) = fst (m s2) /\ the_mock (snd (m s1)) = the_mock (snd (m s2)).

(** ** Reading the canned results slot by slot *)

(** The panic of an unchecked read of [v] in slot [i]: the typed accessors
    name themselves, the assertion to an ACL list names the value. *)
Definition mistyped (k : slot_kind) (i : nat) (v : value) : failure :=
  match k with
  | KString => WrongType "String" i
  | KBool => WrongType "Bool" i
  | KError => WrongType "Error" i
  | _ => InterfaceConversion v "[]zk.ACL"
  end.

(** What reading slot [i] at kind [k] yields. *)
Definition read_slot (k : slot_kind) (i : nat) (rets : list value) : outcome value :=
  match rets !! i with
  | None => Panic (MissingArgument i)
  | Some v =>
      if checked k || well_typed k v then Done (received k v) else Panic (mistyped k i v)
  end.

(** Reading the slots in order from slot [i] on; the first panic wins. *)
Fixpoint read_from (i : nat) (sig : list slot_kind) (rets : list value)
    : outcome (list value) :=
  match sig with
  | [] => Done []
  | k :: rest =>
      match read_slot k i rets with
      | Done v =>
          match read_from (S i) rest rets with
          | Done vs => Done (v :: vs)
          | Panic f => Panic f
          | Hang => Hang
          end
      | Panic f => Panic f
      | Hang => Hang
      end
  end.

(** * Properties *)

(** ** The monad *)

Lemma bind_Done {S A B} (m : M S A) (k : A -> M S B) s a s' :
  m s = (Done a, s') -> bind m k s = k a s'.
Proof. intros E. unfold bind. by rewrite E. Qed.

Lemma bind_inv_Done {S A B} (m : M S A) (k : A -> M S B) s b s2 :
  bind m k s = (Done b, s2) ->
  exists a s1, m s = (Done a, s1) /\ k a s1 = (Done b, s2).
Proof.
  unfold bind. destruct (m s) as [[a|f|] s1]; intros E; try discriminate.
  by exists a, s1.
Qed.

Section Stable.
Context {S : Type} (R : S -> S -> Prop) `{!Reflexive R} `{!Transitive R}.

Lemma stable_ret {A} (a : A) : stable R (ret a).
Proof. intros s. simpl. reflexivity. Qed.

Lemma stable_panic {A} f : stable R (@panic S A f).
Proof. intros s. simpl. reflexivity. Qed.

Lemma stable_get : stable R (@get S).
Proof. intros s. simpl. reflexivity. Qed.

Lemma stable_bind {A B} (m : M S A) (k : A -> M S B) :
  stable R m -> (forall a, stable R (k a)) -> stable R (bind m k).
Proof.
  intros Hm Hk s. unfold bind. specialize (Hm s).
  destruct (m s) as [[a|f|] s1]; simpl in *; auto.
  etransitivity; [exact Hm | apply Hk].
Qed.

Lemma stable_fmap {A B} (f : A -> B) (m : M S A) : stable R m -> stable R (fmap_M f m).
Proof. intros Hm. apply stable_bind; [done | intros; apply stable_ret]. Qed.

Lemma stable_args_Get args i : stable R (@args_Get S args i).
Proof. unfold args_Get. destruct (args !! i); [apply stable_ret | apply stable_panic]. Qed.

Lemma stable_args_String args i : stable R (@args_String S args i).
Proof.
  apply stable_bind; [apply stable_args_Get |].
  intros []; first [apply stable_ret | apply stable_panic].
Qed.

Lemma stable_args_Bool args i : stable R (@args_Bool S args i).
Proof.
  apply stable_bind; [apply stable_args_Get |].
  intros []; first [apply stable_ret | apply stable_panic].
Qed.

Lemma stable_args_Error args i : stable R (@args_Error S args i).
Proof.
  apply stable_bind; [apply stable_args_Get |].
  intros []; first [apply stable_ret | apply stable_panic].
Qed.

Lemma stable_must {A} v want (a : option A) : stable R (@must S A v want a).
Proof. destruct a; [apply stable_ret | apply stable_panic]. Qed.
End Stable.

(** ** The substrate *)

Lemma matches_spec method args c :
  matches method args c = true <-> Method c = method /\ Arguments c = args.
Proof.
  unfold matches. rewrite andb_true_iff, !bool_decide_eq_true. tauto.
Qed.

Lemma findExpectedCall_Some l method args i ex j b :
  findExpectedCall l method args i ex = (Some j, b) ->
  exists c, (i <= j)%nat /\ l !! (j - i)%nat = Some c /\
    matches method args c = true /\ -1 < Repeatability c /\
    forall n c', (n < j - i)%nat -> l !! n = Some c' ->
      matches method args c' = true -> Repeatability c' <= -1.
Proof.
  revert i ex. induction l as [|c l IH]; intros i ex; simpl; [discriminate|].
  destruct (matches method args c) eqn:Em.
  - case_bool_decide as Hr.
    + intros [= <- <-]. exists c. replace (i - i)%nat with 0%nat by lia.
      repeat split; auto. intros n c' Hn. lia.
    + intros E. destruct (IH _ _ E) as (c0 & Hij & Hl & Hm & Hlive & Hfirst).
      exists c0. replace (j - i)%nat with (S (j - S i)) by lia.
      repeat split; auto; [lia |].
      intros [|n] c' Hn; simpl; [intros [= <-] _; lia |].
      intros. eapply Hfirst; eauto. lia.
  - intros E. destruct (IH _ _ E) as (c0 & Hij & Hl & Hm & Hlive & Hfirst).
    exists c0. replace (j - i)%nat with (S (j - S i)) by lia.
    repeat split; auto; [lia |].
    intros [|n] c' Hn; simpl; [intros [= <-]; congruence |].
    intros. eapply Hfirst; eauto. lia.
Qed.

(** The expectation that answers: it matches by name and by structurally
    equal arguments, it is not exhausted, and no earlier expectation is
    both. *)
Lemma next_expected_spec m method args e :
  next_expected m method args = Some e ->
  exists i, ExpectedCalls m !! i = Some e /\
    Method e = method /\ Arguments e = args /\ -1 < Repeatability e /\
    (forall n c', (n < i)%nat -> ExpectedCalls m !! n = Some c' ->
       Method c' = method -> Arguments c' = args -> Repeatability c' <= -1) /\
    MethodCalled method args m =
      (Done (ReturnArguments e),
       mkMock (<[i := consume e]> (ExpectedCalls m)) (Calls m ++ [(method, args)])).
Proof.
  unfold next_expected, MethodCalled.
  destruct (findExpectedCall _ _ _ _ _) as [[j|] b] eqn:E; [|discriminate].
  intros He. destruct (findExpectedCall_Some _ _ _ _ _ _ _ E) as (c & _ & Hl & Hm & Hlive & Hfirst).
  replace (j - 0)%nat with j in * by lia.
  assert (c = e) as -> by congruence.
  apply matches_spec in Hm as [Hn Ha].
  exists j. repeat split; auto.
  - intros n c' Hn' Hl' H1 H2. eapply Hfirst; eauto. apply matches_spec; auto.
  - by rewrite He.
Qed.

Lemma Called_hit {S} `{HasMock S} (s : S) method args e :
  next_expected (the_mock s) method args = Some e ->
  exists m', Called method args s = (Done (ReturnArguments e), with_mock m' s) /\
    MethodCalled method args (the_mock s) = (Done (ReturnArguments e), m').
Proof.
  intros He. destruct (next_expected_spec _ _ _ _ He) as (i & _ & _ & _ & _ & _ & E).
  unfold Called. rewrite E. eauto.
Qed.

Lemma stable_Called {S} `{HasMock S} (R : S -> S -> Prop) method args :
  (forall s, R s (with_mock (snd (MethodCalled method args (the_mock s))) s)) ->
  stable R (Called method args).
Proof.
  intros HR s. unfold Called. specialize (HR s).
  by destruct (MethodCalled _ _ _) as [o m'].
Qed.

Lemma stable_log_if_set {S} `{HasLog S} (R : S -> S -> Prop) `{!Reflexive R} format args :
  (forall s o, R s (with_out o s)) -> stable R (log_if_set format args).
Proof.
  intros HR s. unfold log_if_set. destruct (the_log s); simpl; [apply HR | reflexivity].
Qed.

(** Solves [stable R m] for a method body, given how [R] sees a change of
    the mock and of the diagnostic output. *)
Ltac stable_with side :=
  repeat first
    [ apply stable_ret; try typeclasses eauto
    | apply stable_panic; try typeclasses eauto
    | apply stable_get; try typeclasses eauto
    | apply stable_args_Get; try typeclasses eauto
    | apply stable_args_String; try typeclasses eauto
    | apply stable_args_Bool; try typeclasses eauto
    | apply stable_args_Error; try typeclasses eauto
    | apply stable_must; try typeclasses eauto
    | apply stable_Called; [intros; side]
    | apply stable_log_if_set; try typeclasses eauto; [intros; side]
    | apply stable_fmap; try typeclasses eauto
    | apply stable_bind; try typeclasses eauto; [| intros ?] ].

(** ** The recorded operations of the connection double *)

Ltac stable_body := stable_with ltac:(try reflexivity; auto).

Global Instance grown_by_nil_refl : Reflexive (grown_by []).
Proof. intros c. unfold grown_by. by rewrite app_nil_r. Qed.
Global Instance grown_by_nil_trans : Transitive (grown_by []).
Proof. intros a b c. unfold grown_by. rewrite !app_nil_r. congruence. Qed.

Lemma Multi_records ops c : grown_by ops c (snd (mockConn_Multi ops c)).
Proof.
  unfold mockConn_Multi.
  pose (c1 := mkConn (conn_Mock c) (operations c ++ ops) (conn_log c) (conn_out c)).
  assert (Hrest : forall (k : M mockConn (list MultiResponse * error)),
    stable (grown_by []) k -> grown_by ops c (snd (bind (modify (fun c => mkConn (conn_Mock c) (operations c ++ ops) (conn_log c) (conn_out c))) (fun _ => k) c))).
  { intros k Hk. unfold bind, modify. simpl. specialize (Hk c1). unfold grown_by in *.
    fold c1. rewrite Hk. simpl. by rewrite app_nil_r. }
  apply Hrest. stable_with ltac:(unfold grown_by; simpl; by rewrite app_nil_r).
Qed.

Lemma other_calls_record_nothing call :
  (forall ops, call <> CMulti ops) -> stable (grown_by []) (invoke call).
Proof.
  intros Hne. destruct call; simpl;
    try (unfold mockConn_AddAuth, mockConn_Close, mockConn_Create, mockConn_Exists,
           mockConn_ExistsW, mockConn_Delete, mockConn_Get, mockConn_GetW, mockConn_Set,
           mockConn_Children, mockConn_ChildrenW, mockConn_GetACL, mockConn_SetACL,
           mockConn_Sync;
         stable_with ltac:(unfold grown_by; simpl; by rewrite app_nil_r)).
  by destruct (Hne ops).
Qed.

Lemma invoke_grows call c :
  exists more, grown_by more c (snd (invoke call c)) /\
    more = match call with CMulti ops => ops | _ => [] end.
Proof.
  destruct call;
    try (eexists; split; [apply other_calls_record_nothing; intros; discriminate | reflexivity]).
  exists ops. split; [|done]. simpl. unfold fmap_M, bind.
  pose proof (Multi_records ops c) as H.
  destruct (mockConn_Multi ops c) as [[a|f|] c']; simpl in *; auto.
Qed.

Lemma invoke_all_Multi batches c :
  operations (invoke_all (CMulti <$> batches) c) = operations c ++ concat batches.
Proof.
  revert c. induction batches as [|ops batches IH]; intros c; simpl.
  - by rewrite app_nil_r.
  - rewrite IH. destruct (invoke_grows (CMulti ops) c) as (more & Hg & ->).
    simpl in Hg. unfold grown_by in Hg. rewrite Hg. by rewrite <- app_assoc.
Qed.

Lemma invoke_all_prefix calls c :
  operations c `prefix_of` operations (invoke_all calls c).
Proof.
  revert c. induction calls as [|call calls IH]; intros c; simpl; [done|].
  etransitivity; [| apply IH].
  destruct (invoke_grows call c) as (more & Hg & _). unfold grown_by in Hg.
  rewrite Hg. by exists more.
Qed.

Lemma length_concat_sum {A} (ls : list (list A)) :
  length (concat ls) = sum_list (length <$> ls).
Proof. induction ls as [|l ls IH]; simpl; [done|]. by rewrite length_app, IH. Qed.

(** C1: [Multi] appends every sub-operation to the recorded sequence before
    it consults the mock, whatever the mock then answers: after any number
    of batches the sequence is the old one followed by all the batches, so
    its length grows by the sum of their sizes; an unprogrammed batch
    panics with its sub-operations already recorded; no call on the double
    ever shortens the sequence. *)
Theorem Multi_records_every_batch :
  forall (batches : list (list value)) (c : mockConn),
    operations (invoke_all (CMulti <$> batches) c) = operations c ++ concat batches /\
    length (operations (invoke_all (CMulti <$> batches) c)) =
      (length (operations c) + sum_list (length <$> batches))%nat /\
    (forall ops, operations (snd (mockConn_Multi ops c)) = operations c ++ ops) /\
    (forall ops recorded hook out,
       mockConn_Multi ops (mkConn new_Mock recorded hook out) =
         (Panic (UnexpectedCall "Multi" [VSlice ops]),
          mkConn new_Mock (recorded ++ ops) hook out)) /\
    (forall calls, operations c `prefix_of` operations (invoke_all calls c)).
Proof.
  intros batches c. split; [|split; [|split; [|split]]].
  - apply invoke_all_Multi.
  - rewrite invoke_all_Multi, length_app, length_concat_sum. done.
  - intros ops. apply Multi_records.
  - intros ops recorded hook out. reflexivity.
  - intros calls. apply invoke_all_prefix.
Qed.

(** ** The diagnostic hook of the connection double *)

Lemma agree_ret {A} (a : A) : agree (ret a).
Proof. by intros c1 c2 H. Qed.

Lemma agree_panic {A} f : agree (@panic mockConn A f).
Proof. by intros c1 c2 H. Qed.

Lemma agree_bind {A B} (m : M mockConn A) (k : A -> M mockConn B) :
  agree m -> (forall a, agree (k a)) -> agree (bind m k).
Proof.
  intros Hm Hk c1 c2 H. unfold bind. destruct (Hm c1 c2 H) as [Ho Hs].
  destruct (m c1) as [o1 s1], (m c2) as [o2 s2]. simpl in *. subst o2.
  destruct o1; simpl; auto. by apply Hk.
Qed.

Lemma agree_args_Get args i : agree (args_Get args i).
Proof. unfold args_Get. destruct (args !! i); [apply agree_ret | apply agree_panic]. Qed.

Lemma agree_args_String args i : agree (args_String args i).
Proof.
  apply agree_bind; [apply agree_args_Get |].
  intros []; first [apply agree_ret | apply agree_panic].
Qed.

Lemma agree_args_Bool args i : agree (args_Bool args i).
Proof.
  apply agree_bind; [apply agree_args_Get |].
  intros []; first [apply agree_ret | apply agree_panic].
Qed.

Lemma agree_args_Error args i : agree (args_Error args i).
Proof.
  apply agree_bind; [apply agree_args_Get |].
  intros []; first [apply agree_ret | apply agree_panic].
Qed.

Lemma agree_Called method args : agree (Called method args).
Proof.
  intros c1 c2 [Hm Ho]. unfold Called. simpl. rewrite Hm.
  destruct (MethodCalled _ _ _) as [o m']. simpl. by split.
Qed.

Lemma agree_log_if_set format args : agree (log_if_set format args).
Proof.
  intros c1 c2 [Hm Ho]. unfold log_if_set. simpl.
  destruct (conn_log c1), (conn_log c2); simpl; by split.
Qed.

Lemma agree_record ops :
  agree (modify (fun c => mkConn (conn_Mock c) (operations c ++ ops) (conn_log c) (conn_out c))).
Proof. intros c1 c2 [Hm Ho]. unfold modify. simpl. split; [done|]. split; simpl; congruence. Qed.

Lemma agree_fmap {A B} (f : A -> B) m : agree m -> agree (fmap_M f m).
Proof. intros Hm. apply agree_bind; [done | intros; apply agree_ret]. Qed.

Ltac agree_body :=
  repeat first
    [ apply agree_ret | apply agree_panic | apply agree_args_Get | apply agree_args_String
    | apply agree_args_Bool | apply agree_args_Error | apply agree_Called
    | apply agree_log_if_set | apply agree_record | apply agree_fmap
    | apply agree_bind; [| intros ?] ].

Lemma invoke_agrees call : agree (invoke call).
Proof.
  destruct call; simpl;
    unfold mockConn_AddAuth, mockConn_Close, mockConn_Create, mockConn_Exists,
      mockConn_ExistsW, mockConn_Delete, mockConn_Get, mockConn_GetW, mockConn_Set,
      mockConn_Children, mockConn_ChildrenW, mockConn_GetACL, mockConn_SetACL,
      mockConn_Multi, mockConn_Sync; agree_body.
Qed.

(** C8: for every call on the connection double, two doubles that differ
    only in the diagnostic hook (and in what was written through it) return
    the same outcome to the caller and are left with the same expectations,
    the same consumption and the same recorded operations. *)
Theorem log_hook_is_inert :
  forall (call : conn_call) (m : Mock) (ops : list value)
         (hook1 hook2 : option infof) (out1 out2 : list trace_line),
    let r1 := invoke call (mkConn m ops hook1 out1) in
    let r2 := invoke call (mkConn m ops hook2 out2) in
    fst r1 = fst r2 /\
    conn_Mock (snd r1) = conn_Mock (snd r2) /\
    operations (snd r1) = operations (snd r2).
Proof.
  intros call m ops hook1 hook2 out1 out2 r1 r2.
  destruct (invoke_agrees call (mkConn m ops hook1 out1) (mkConn m ops hook2 out2))
    as [Ho [Hm Hops]]; [by split |].
  auto.
Qed.

(** ** Canned results *)

Ltac unfold_methods :=
  unfold perform, fmap_M, lift_field, invoke,
    mockCloseable_Close, mockTracerDriver_AddTime, mockTracerDriver_AddCount,
    mockRetrySleeper_SleepFor,
    mockConn_AddAuth, mockConn_Close, mockConn_Create, mockConn_Exists,
    mockConn_ExistsW, mockConn_Delete, mockConn_Get, mockConn_GetW, mockConn_Set,
    mockConn_Children, mockConn_ChildrenW, mockConn_GetACL, mockConn_SetACL,
    mockConn_Multi, mockConn_Sync,
    mockZookeeperDialer_Dial, mockCompressionProvider_Compress,
    mockCompressionProvider_Decompress, mockACLProvider_GetDefaultAcl,
    mockACLProvider_GetAclForPath, mockEnsurePath_Ensure, mockEnsurePath_ExcludingLast,
    mockEnsurePathHelper_Ensure.

(** Exposes the canned values slot by slot when each has the type of its
    slot. *)
Ltac typed_slots :=
  repeat match goal with
  | H : Forall2 _ _ _ |- _ => inversion H; subst; clear H
  | H : well_typed _ ?v = true |- _ => destruct v; try discriminate H; clear H
  end.

(** Runs a method body whose call to the mock is answered as [HC] says. *)
Ltac answered HC :=
  unfold bind, get, modify; simpl;
  unfold Called in *; simpl in *; rewrite HC; simpl;
  unfold log_if_set; simpl;
  repeat match goal with
  | |- context [match ?l with Some _ => _ | None => _ end] => destruct l; simpl
  end.

Lemma perform_typed call b e :
  next_expected (bench_mock call b) (bench_method call) (bench_args call) = Some e ->
  Forall2 (fun k v => well_typed k v = true) (bench_signature call) (ReturnArguments e) ->
  (call = BClose -> crash (b_closeable b) = false) ->
  fst (perform call b) = Done (ReturnArguments e) /\
  MethodCalled (bench_method call) (bench_args call) (bench_mock call b) =
    (Done (ReturnArguments e), bench_mock call (snd (perform call b))).
Proof.
  intros He Ht Hc.
  destruct (next_expected_spec _ _ _ _ He) as (i & _ & _ & _ & _ & _ & HC).
  destruct e as [me ae rets rp tc]. simpl in *.
  destruct call as [| | | |call| | | | | | | |]; [| | | |destruct call| | | | | | | |];
    simpl in *; typed_slots; unfold_methods;
    try (specialize (Hc eq_refl); unfold bind, get; simpl; rewrite Hc);
    answered HC; done.
Qed.

(** The checked assertions, slot by slot. *)
Lemma received_bytes v : VBytes (comma_ok [] (assert_bytes v)) = received KBytes v.
Proof. by destruct v. Qed.
Lemma received_Stat v : VStat (comma_ok None (assert_Stat v)) = received KStat v.
Proof. by destruct v. Qed.
Lemma received_chan v : of_chan (comma_ok None (assert_chan v)) = received KChan v.
Proof. by destruct v. Qed.
Lemma received_strings v : VStrings (comma_ok [] (assert_strings v)) = received KStrings v.
Proof. by destruct v. Qed.
Lemma received_ACLs v : VACLs (comma_ok [] (assert_ACLs v)) = received KACLs v.
Proof. by destruct v. Qed.
Lemma received_responses v :
  VResponses (comma_ok [] (assert_responses v)) = received KResponses v.
Proof. by destruct v. Qed.
Lemma received_conn v :
  of_conn (comma_ok None (assert_ZookeeperConnection v)) = received KConn v.
Proof. by destruct v. Qed.
Lemma received_EnsurePath v :
  of_EnsurePath (comma_ok None (assert_EnsurePath v)) = received KEnsurePath v.
Proof. by destruct v. Qed.

Ltac accessor_slots :=
  repeat match goal with
  | H : Forall2 _ _ _ |- _ => inversion H; subst; clear H
  | H : checked ?k = false -> well_typed ?k ?v = true |- _ =>
      first [ specialize (H eq_refl); destruct v; try discriminate H; clear H | clear H ]
  end.

Lemma perform_checked call b e :
  next_expected (bench_mock call b) (bench_method call) (bench_args call) = Some e ->
  is_acl_call call = false ->
  (call = BClose -> crash (b_closeable b) = false) ->
  Forall2 (fun k v => checked k = false -> well_typed k v = true)
    (bench_signature call) (ReturnArguments e) ->
  fst (perform call b) = Done (zip_with received (bench_signature call) (ReturnArguments e)).
Proof.
  intros He Hacl Hc Ht.
  destruct (next_expected_spec _ _ _ _ He) as (i & _ & _ & _ & _ & _ & HC).
  destruct e as [me ae rets rp tc]. simpl in *.
  destruct call as [| | | |call| | | | | | | |]; [| | | |destruct call| | | | | | | |];
    simpl in *; try discriminate Hacl; accessor_slots; cbn [zip_with];
    rewrite <- ?received_bytes, <- ?received_Stat, <- ?received_chan, <- ?received_strings,
      <- ?received_ACLs, <- ?received_responses, <- ?received_conn, <- ?received_EnsurePath;
    unfold_methods;
    try (specialize (Hc eq_refl); unfold bind, get; simpl; rewrite Hc);
    unfold bind, get, modify; cbn -[comma_ok assert_bytes assert_Stat assert_chan
      assert_strings assert_ACLs assert_responses assert_ZookeeperConnection
      assert_EnsurePath];
    unfold Called in *; simpl in HC |- *; rewrite HC;
    cbn -[comma_ok assert_bytes assert_Stat assert_chan
      assert_strings assert_ACLs assert_responses assert_ZookeeperConnection
      assert_EnsurePath];
    unfold log_if_set; cbn -[comma_ok assert_bytes assert_Stat assert_chan
      assert_strings assert_ACLs assert_responses assert_ZookeeperConnection
      assert_EnsurePath];
    repeat match goal with
    | |- context [match ?l with Some _ => _ | None => _ end] => destruct l; simpl
    end; try done.

Qed.

Lemma perform_acl call b e :
  next_expected (bench_mock call b) (bench_method call) (bench_args call) = Some e ->
  is_acl_call call = true ->
  fst (perform call b) =
    match ReturnArguments e !! 0%nat with
    | Some (VACLs l) => Done [VACLs l]
    | Some v => Panic (InterfaceConversion v "[]zk.ACL")
    | None => Panic (MissingArgument 0)
    end.
Proof.
  intros He Hacl.
  destruct (next_expected_spec _ _ _ _ He) as (i & _ & _ & _ & _ & _ & HC).
  destruct e as [me ae rets rp tc]. simpl in *.
  destruct call; try discriminate Hacl; unfold_methods; unfold bind; simpl;
    unfold Called; simpl in HC |- *; rewrite HC; simpl;
    (destruct rets as [|v rets]; [done | by destruct v]).
Qed.

(** C7 (amended): on every double, when the expectation that answers a
    call carries one canned value per result, each of the type of its
    result, the caller receives exactly the canned values and the
    expectation is consumed; the expectation that answers has the name of
    the operation and arguments structurally equal to the call's, and
    nothing else enters the match.  (The closeable double must not be in
    its crashing mode.) *)
Theorem canned_results_returned :
  forall (call : bench_call) (b : bench) (e : Call),
    next_expected (bench_mock call b) (bench_method call) (bench_args call) = Some e ->
    Forall2 (fun k v => well_typed k v = true) (bench_signature call) (ReturnArguments e) ->
    (call = BClose -> crash (b_closeable b) = false) ->
    fst (perform call b) = Done (ReturnArguments e) /\
    MethodCalled (bench_method call) (bench_args call) (bench_mock call b) =
      (Done (ReturnArguments e), bench_mock call (snd (perform call b))) /\
    Method e = bench_method call /\ Arguments e = bench_args call /\
    (forall c, matches (bench_method call) (bench_args call) c = true <->
       Method c = bench_method call /\ Arguments c = bench_args call).
Proof.
  intros call b e He Ht Hc.
  destruct (perform_typed call b e He Ht Hc) as [H1 H2].
  destruct (next_expected_spec _ _ _ _ He) as (i & _ & Hm & Ha & _).
  split; [done|]. split; [done|]. split; [done|]. split; [done|].
  intros c. apply matches_spec.
Qed.

(** The scenario of the specification: [Get("/a")] programmed to return
    [[]byte("v")], a stat with version 1 and a nil error. *)
Lemma canned_results_returned_witness :
  fst (perform (BConn (CGet "/a"))
         (bench_conn (programmed "Get" [VString "/a"]
            [VBytes (String.list_byte_of_string "v"); VStat (Some stat_v1); VNil] 1))) =
    Done [VBytes (String.list_byte_of_string "v"); VStat (Some stat_v1); VNil].
Proof.
  refine (proj1 (canned_results_returned (BConn (CGet "/a"))
    (bench_conn (programmed "Get" [VString "/a"]
       [VBytes (String.list_byte_of_string "v"); VStat (Some stat_v1); VNil] 1))
    (mkCall "Get" [VString "/a"]
       [VBytes (String.list_byte_of_string "v"); VStat (Some stat_v1); VNil] 1 0) _ _ _)).
  - reflexivity.
  - repeat constructor.
  - intros H. discriminate H.
Defined.

(** C7, as stated, fails: [Get("/a")] programmed to return the string "v"
    where a byte slice is expected answers the call, and the caller
    receives a nil slice, not the canned value. *)
Lemma mistyped_canned_value_not_returned :
  let b := bench_conn (programmed "Get" [VString "/a"]
                         [VString "v"; VStat (Some stat_v1); VNil] 1) in
  next_expected (bench_mock (BConn (CGet "/a")) b) "Get" [VString "/a"] =
    Some (mkCall "Get" [VString "/a"] [VString "v"; VStat (Some stat_v1); VNil] 1 0) /\
  fst (mockConn_Get "/a" (b_conn b)) = Done ([], Some stat_v1, None) /\
  fst (perform (BConn (CGet "/a")) b) <> Done [VString "v"; VStat (Some stat_v1); VNil].
Proof. repeat split. intros H. discriminate H. Qed.

(** C10 (amended): the ACL-provider double asserts its first canned value
    to an ACL list without a check: any other value, the nil interface
    included, panics, and a missing value panics too.  On every other
    double, given one canned value per result, a slot read through a
    checked assertion yields the canned value when it has the slot's type
    and the zero value of the slot otherwise, provided the slots read
    through the typed accessors [String], [Bool] and [Error] hold values of
    their type. *)
Theorem acl_assertions_unchecked_others_checked :
  forall (call : bench_call) (b : bench) (e : Call),
    next_expected (bench_mock call b) (bench_method call) (bench_args call) = Some e ->
    (is_acl_call call = true ->
       fst (perform call b) =
         match ReturnArguments e !! 0%nat with
         | Some (VACLs l) => Done [VACLs l]
         | Some v => Panic (InterfaceConversion v "[]zk.ACL")
         | None => Panic (MissingArgument 0)
         end) /\
    (is_acl_call call = false ->
       (call = BClose -> crash (b_closeable b) = false) ->
       Forall2 (fun k v => checked k = false -> well_typed k v = true)
         (bench_signature call) (ReturnArguments e) ->
       fst (perform call b) =
         Done (zip_with received (bench_signature call) (ReturnArguments e))).
Proof.
  intros call b e He. split.
  - intros Hacl. by apply perform_acl.
  - intros Hacl Hc Ht. by apply perform_checked.
Qed.

(** [GetDefaultAcl] programmed to return nil panics; [Get] programmed with
    a string in the data slot returns a nil slice. *)
Lemma acl_assertions_unchecked_others_checked_witness :
  fst (perform BGetDefaultAcl (bench_acl (programmed "GetDefaultAcl" [] [VNil] 1))) =
    Panic (InterfaceConversion VNil "[]zk.ACL") /\
  fst (perform (BConn (CGet "/a"))
         (bench_conn (programmed "Get" [VString "/a"] [VString "v"; VNil; VNil] 1))) =
    Done [VBytes []; VStat None; VNil].
Proof.
  split.
  - refine (proj1 (acl_assertions_unchecked_others_checked BGetDefaultAcl
      (bench_acl (programmed "GetDefaultAcl" [] [VNil] 1))
      (mkCall "GetDefaultAcl" [] [VNil] 1 0) _) _); reflexivity.
  - refine (proj2 (acl_assertions_unchecked_others_checked (BConn (CGet "/a"))
      (bench_conn (programmed "Get" [VString "/a"] [VString "v"; VNil; VNil] 1))
      (mkCall "Get" [VString "/a"] [VString "v"; VNil; VNil] 1 0) _) _ _ _).
    + reflexivity.
    + reflexivity.
    + intros H. discriminate H.
    + repeat constructor; intros H; discriminate H.
Defined.

(** C10, as stated, fails: on the connection double, [Sync("/a")]
    programmed with an integer where the path is expected does not yield a
    zero value: the typed accessor panics. *)
Lemma mistyped_path_panics :
  let b := bench_conn (programmed "Sync" [VString "/a"] [VInt 5; VNil] 1) in
  next_expected (bench_mock (BConn (CSync "/a")) b) "Sync" [VString "/a"] =
    Some (mkCall "Sync" [VString "/a"] [VInt 5; VNil] 1 0) /\
  fst (mockConn_Sync "/a" (b_conn b)) = Panic (WrongType "String" 0) /\
  ~ exists vs, fst (perform (BConn (CSync "/a")) b) = Done vs.
Proof. repeat split. intros [vs H]. discriminate H. Qed.

(** ** How a run changes the world *)

Lemma count_app f tr1 tr2 : count f (tr1 ++ tr2) = (count f tr1 + count f tr2)%nat.
Proof. induction tr1 as [|e tr1 IH]; simpl; [done|]. rewrite IH. lia. Qed.

Lemma count_replicate f n e :
  count f (replicate n e) = (if f e then n else 0)%nat.
Proof. induction n as [|n IH]; simpl; [by destruct (f e)|]. rewrite IH. by destruct (f e). Qed.

Lemma count_zero f tr : Forall (fun e => f e = false) tr -> count f tr = 0%nat.
Proof. induction 1 as [|e tr He _ IH]; simpl; [done|]. by rewrite He, IH. Qed.

Lemma count_zero_inv f tr : count f tr = 0%nat -> Forall (fun e => f e = false) tr.
Proof.
  induction tr as [|e tr IH]; simpl; [constructor|].
  destruct (f e) eqn:E; [lia|]. intros H. constructor; auto.
Qed.

Global Instance frozen_refl : Reflexive frozen.
Proof. by intros m i c. Qed.
Global Instance frozen_trans : Transitive frozen.
Proof. intros m1 m2 m3 H1 H2 i c Hl Hr. apply H2; auto. Qed.

Lemma MethodCalled_frozen method args m : frozen m (snd (MethodCalled method args m)).
Proof.
  unfold MethodCalled.
  destruct (findExpectedCall _ _ _ _ _) as [[j|] b] eqn:E.
  - destruct (findExpectedCall_Some _ _ _ _ _ _ _ E) as (c & _ & Hl & _ & Hlive & _).
    replace (j - 0)%nat with j in Hl by lia. rewrite Hl. simpl.
    intros i c' Hi Hr. simpl. destruct (decide (i = j)) as [->|Hne].
    + assert (c' = c) by congruence. subst. lia.
    + by rewrite list_lookup_insert_ne.
  - destruct b; simpl; reflexivity.
Qed.

Lemma On_frozen method args rets times m : frozen m (On method args rets times m).
Proof. intros i c Hl _. simpl. by apply lookup_app_l_Some. Qed.

Global Instance dialer_frozen_refl : Reflexive dialer_frozen.
Proof. intros d. unfold dialer_frozen. reflexivity. Qed.
Global Instance dialer_frozen_trans : Transitive dialer_frozen.
Proof. intros d1 d2 d3. unfold dialer_frozen. apply frozen_trans. Qed.

Global Instance evolves_refl P : Reflexive (evolves P).
Proof.
  intros w. repeat split; auto; try reflexivity.
  exists []. by rewrite app_nil_r.
Qed.

Global Instance evolves_trans P : Transitive (evolves P).
Proof.
  intros w1 w2 w3 ((ev1 & E1 & F1) & B1 & C1 & Z1 & R1) ((ev2 & E2 & F2) & B2 & C2 & Z2 & R2).
  repeat split; auto.
  - exists (ev1 ++ ev2). rewrite E2, E1, app_assoc. split; [done|]. by apply Forall_app.
  - by etransitivity.
  - by etransitivity.
Qed.

Section Evolves.
Context (P : event -> bool).

(** A step that leaves the trace, the counter, the channel, the dialer's
    expectations and the failures alone. *)
Lemma evolves_same w w' :
  trace w' = trace w -> wg (harness w') = wg (harness w) ->
  closed (events (harness w')) = closed (events (harness w)) ->
  dialer_Mock (dialer (harness w')) = dialer_Mock (dialer (harness w)) ->
  errors (t w') = errors (t w) ->
  evolves P w w'.
Proof.
  intros Ht Hw Hc Hd He. unfold evolves, balanced, chan_ok.
  rewrite Ht, Hw, Hc, Hd, He. repeat split; auto; try reflexivity.
  exists []. by rewrite app_nil_r.
Qed.

Lemma stable_emit e :
  P e = true -> is_add e = false -> is_done e = false -> is_chan_close e = false ->
  stable (evolves P) (emit e).
Proof.
  intros HP Ha Hd Hc w. unfold emit, modify, evolves, balanced, chan_ok. simpl.
  rewrite !count_app. simpl. rewrite Ha, Hd, Hc. repeat split; try reflexivity.
  - exists [e]. split; [done|]. by constructor.
  - intros ->. lia.
  - intros ->. lia.
Qed.

Lemma stable_Errorf format args : stable (evolves P) (Errorf format args).
Proof.
  intros w. unfold Errorf, modify, evolves, balanced, chan_ok. simpl.
  repeat split; auto; try reflexivity.
  - exists []. by rewrite app_nil_r.
  - by apply prefix_app_r.
Qed.

Lemma stable_on_conn {A} (m : M mockConn A) : stable (evolves P) (on_conn m).
Proof.
  intros w. unfold on_conn. destruct (m _) as [o x]. by apply evolves_same.
Qed.

Lemma stable_on_compress {A} (m : M mockCompressionProvider A) :
  stable (evolves P) (on_compress m).
Proof.
  intros w. unfold on_compress. destruct (m _) as [o x]. by apply evolves_same.
Qed.

Lemma Dial_frozen cs st ro :
  stable dialer_frozen (mockZookeeperDialer_Dial cs st ro).
Proof.
  unfold mockZookeeperDialer_Dial.
  stable_with ltac:(unfold dialer_frozen; simpl;
                    first [apply MethodCalled_frozen | reflexivity]).
Qed.

Lemma stable_on_dialer_Dial cs st ro :
  stable (evolves P) (on_dialer (mockZookeeperDialer_Dial cs st ro)).
Proof.
  intros w. unfold on_dialer. pose proof (Dial_frozen cs st ro (dialer (harness w))) as Hf.
  destruct (mockZookeeperDialer_Dial _ _ _ _) as [o x]. simpl in *.
  unfold evolves, balanced, chan_ok. simpl. repeat split; auto; try reflexivity.
  exists []. by rewrite app_nil_r.
Qed.

Lemma stable_modify_goroutines (f : list goroutine -> list goroutine) :
  stable (evolves P) (modify (fun w => set_goroutines (f (goroutines w)) w)).
Proof. intros w. by apply evolves_same. Qed.

Lemma stable_set_goroutines q : stable (evolves P) (modify (set_goroutines q)).
Proof. intros w. by apply evolves_same. Qed.

Lemma stable_expect who d method args rets times :
  P (EvExpect who d method args) = true ->
  stable (evolves P) (expect who d method args rets times).
Proof.
  intros HP. unfold expect. apply stable_bind; try typeclasses eauto.
  - by apply stable_emit.
  - intros _ w. unfold modify. simpl. destruct d; simpl.
    + by apply evolves_same.
    + unfold evolves, balanced, chan_ok. simpl. repeat split; auto; try reflexivity.
      * exists []. by rewrite app_nil_r.
      * apply On_frozen.
    + by apply evolves_same.
Qed.

Lemma stable_wg_Add1 who :
  P (EvWgAdd who) = true -> stable (evolves P) (wg_Add1 who).
Proof.
  intros HP w. unfold wg_Add1, bind, emit, modify, evolves, balanced, chan_ok. simpl.
  rewrite !count_app. simpl. repeat split; try reflexivity.
  - exists [EvWgAdd who]. split; [done|]. by constructor.
  - intros ->. lia.
  - intros ->. lia.
Qed.

Lemma stable_wg_Done who :
  P (EvWgDone who) = true -> stable (evolves P) (wg_Done who).
Proof.
  intros HP w. unfold wg_Done, bind, get. simpl.
  case_bool_decide; [reflexivity|].
  unfold emit, modify, evolves, balanced, chan_ok. simpl.
  rewrite !count_app. simpl. repeat split; try reflexivity.
  - exists [EvWgDone who]. split; [done|]. by constructor.
  - intros ->. lia.
  - intros ->. lia.
Qed.

Lemma stable_close_events who :
  P (EvChanClose who) = true -> stable (evolves P) (close_events who).
Proof.
  intros HP w. unfold close_events, bind, get. simpl.
  destruct (closed (events (harness w))) eqn:Hc; [reflexivity|].
  unfold emit, modify, evolves, balanced, chan_ok. simpl.
  rewrite !count_app, Hc. simpl. repeat split; try reflexivity.
  - exists [EvChanClose who]. split; [done|]. by constructor.
  - intros ->. lia.
  - intros ->. lia.
Qed.

Lemma stable_call_conn who call :
  P (EvCall who DConn (call_method call) (call_args call)) = true ->
  stable (evolves P) (call_conn who call).
Proof.
  intros HP. unfold call_conn. apply stable_bind; try typeclasses eauto.
  - by apply stable_emit.
  - intros _. apply stable_on_conn.
Qed.

Lemma stable_call_Dial who cs st ro :
  P (EvCall who DDialer "Dial" [VString cs; VDuration st; VBool ro]) = true ->
  stable (evolves P) (call_Dial who cs st ro).
Proof.
  intros HP. unfold call_Dial. apply stable_bind; try typeclasses eauto.
  - by apply stable_emit.
  - intros _. apply stable_on_dialer_Dial.
Qed.

Lemma stable_call_Compress who path data :
  P (EvCall who DCompress "Compress" [VString path; VBytes data]) = true ->
  stable (evolves P) (call_Compress who path data).
Proof.
  intros HP. unfold call_Compress. apply stable_bind; try typeclasses eauto.
  - by apply stable_emit.
  - intros _. apply stable_on_compress.
Qed.

Lemma stable_call_Decompress who path data :
  P (EvCall who DCompress "Decompress" [VString path; VBytes data]) = true ->
  stable (evolves P) (call_Decompress who path data).
Proof.
  intros HP. unfold call_Decompress. apply stable_bind; try typeclasses eauto.
  - by apply stable_emit.
  - intros _. apply stable_on_compress.
Qed.

(** Handed-in code only makes steps of its own. *)
Lemma stable_run {G} (spawn : G -> M world unit) who (p : prog G) :
  (forall e, made_by who e = true -> P e = true) ->
  (forall g, stable (evolves P) (spawn g)) ->
  stable (evolves P) (run spawn who p).
Proof.
  intros HP Hs.
  assert (Hwho : forall e, made_by who e = true -> P e = true) by exact HP.
  induction p as [err|msg|call k IH|cs st ro k IH|path data k IH|path data k IH
                  |d method args rets times k IH|k IH|k IH|k IH|body k IH]; simpl.
  - apply stable_ret; typeclasses eauto.
  - apply stable_panic; typeclasses eauto.
  - apply stable_bind; try typeclasses eauto; [|done].
    apply stable_call_conn, HP. simpl. by apply bool_decide_eq_true_2.
  - apply stable_bind; try typeclasses eauto; [|done].
    apply stable_call_Dial, HP. simpl. by apply bool_decide_eq_true_2.
  - apply stable_bind; try typeclasses eauto; [|done].
    apply stable_call_Compress, HP. simpl. by apply bool_decide_eq_true_2.
  - apply stable_bind; try typeclasses eauto; [|done].
    apply stable_call_Decompress, HP. simpl. by apply bool_decide_eq_true_2.
  - apply stable_bind; try typeclasses eauto; [|done].
    apply stable_expect, HP. simpl. by apply bool_decide_eq_true_2.
  - apply stable_bind; try typeclasses eauto; [|done].
    apply stable_wg_Add1, HP. simpl. by apply bool_decide_eq_true_2.
  - apply stable_bind; try typeclasses eauto; [|done].
    apply stable_wg_Done, HP. simpl. by apply bool_decide_eq_true_2.
  - apply stable_bind; try typeclasses eauto; [|done].
    apply stable_close_events, HP. simpl. by apply bool_decide_eq_true_2.
  - apply stable_bind; try typeclasses eauto; [|done]. apply Hs.
Qed.

Lemma stable_run_goroutine g :
  (forall e, made_by Background e = true -> P e = true) ->
  stable (evolves P) (run_goroutine g).
Proof. intros HP. apply stable_run; [done | intros []]. Qed.

Lemma stable_run_routine who p :
  (forall e, made_by who e = true -> P e = true) ->
  stable (evolves P) (run_routine who p).
Proof.
  intros HP. apply stable_run; [done|]. intros g w. by apply evolves_same.
Qed.

Lemma stable_wait_loop queue :
  (forall e, made_by Background e = true -> P e = true) ->
  stable (evolves P) (wait_loop queue).
Proof.
  intros HP. induction queue as [|g rest IH]; intros w; simpl.
  - case_bool_decide; reflexivity.
  - case_bool_decide; [reflexivity|].
    revert w H. fold (stable (evolves P)
      (modify (set_goroutines rest) ;; _ <- run_goroutine g ;; wait_loop rest)).
    intros w _. revert w.
    apply stable_bind; try typeclasses eauto; [apply stable_set_goroutines|].
    intros _. apply stable_bind; try typeclasses eauto; [by apply stable_run_goroutine|].
    intros _. apply IH.
Qed.
End Evolves.

(** ** The first block of [Test] *)

Lemma MethodCalled_once method args rets calls :
  MethodCalled method args (mkMock [mkCall method args rets 1 0] calls) =
    (Done rets, mkMock [mkCall method args rets (-1) 1] (calls ++ [(method, args)])).
Proof.
  unfold MethodCalled. cbn [ExpectedCalls findExpectedCall]. unfold matches.
  cbn [Method Arguments Repeatability andb].
  rewrite !(bool_decide_eq_true_2 (_ = _)) by done. cbn [andb].
  rewrite bool_decide_eq_true_2 by done. done.
Qed.

Lemma MethodCalled_other method args args' rets calls :
  args' <> args ->
  MethodCalled method args' (mkMock [mkCall method args rets 1 0] calls) =
    (Panic (UnexpectedCall method args'), mkMock [mkCall method args rets 1 0] calls).
Proof.
  intros Hne. unfold MethodCalled. cbn [ExpectedCalls findExpectedCall]. unfold matches.
  cbn [Method Arguments Repeatability andb].
  rewrite (bool_decide_eq_true_2 (method = method)) by done.
  rewrite (bool_decide_eq_false_2 (args = args')) by congruence. done.
Qed.

Section Start.
Context (timeout : Z).

Lemma Test_start_curator Build b :
  Build b = curator_Build timeout b ->
  Test_start timeout Build (fresh (harness_with b)) = (Done (Build b), started timeout b).
Proof.
  Local Opaque MethodCalled.
  intros HB.
  unfold Test_start, harness_with, fresh, started, start_events, dial_consumed, dial_args.
  unfold bind, modify, get. simpl. rewrite HB.
  repeat (unfold bind, modify, get, emit, expect, run_routine, call_Dial, on_dialer,
    mockZookeeperDialer_Dial, Called, On, log_if_set, Logf, ret; simpl).
  rewrite MethodCalled_once. reflexivity.
Qed.

(** A client that dials with another triple is stopped at the dial. *)
Lemma Test_start_other_triple b cs st ro :
  [VString cs; VDuration st; VBool ro] <> dial_args timeout b ->
  exists w,
    Test_start timeout (fun _ => client_dialing cs st ro) (fresh (harness_with b)) =
      (Panic (UnexpectedCall "Dial" [VString cs; VDuration st; VBool ro]), w) /\
    trace w = [EvBuild; EvExpect Orchestrator DDialer "Dial" (dial_args timeout b); EvStart;
               EvCall Client DDialer "Dial" [VString cs; VDuration st; VBool ro]].
Proof.
  intros Hne. eexists.
  unfold Test_start, harness_with, fresh, dial_args in *.
  repeat (unfold bind, modify, get, emit, expect, run_routine, call_Dial, on_dialer,
    mockZookeeperDialer_Dial, Called, On, log_if_set, Logf, ret; simpl).
  rewrite MethodCalled_other by done. simpl. split; reflexivity.
Qed.
End Start.

(** ** The second block: resolving the parameters *)

Lemma handle_for_None ty : handle_for ty = None <-> ty ∉ recognized.
Proof.
  unfold recognized. rewrite !not_elem_of_cons.
  destruct ty; simpl; split; try done; try (intros; repeat split; try done; apply not_elem_of_nil);
    intros (?&?&?&?&?&?&?&?&?&?); done.
Qed.

Lemma wait_params_cons ty params :
  wait_params (ty :: params) =
    ((if bool_decide (ty = T_ptr_WaitGroup) then 1 else 0) + wait_params params)%nat.
Proof.
  unfold wait_params. rewrite filter_cons. case_bool_decide; case_decide; done.
Qed.

Lemma unknown_cons ty params :
  filter (fun ty => ty ∉ recognized) (ty :: params) =
    (if bool_decide (ty ∉ recognized) then [ty] else []) ++
    filter (fun ty => ty ∉ recognized) params.
Proof. rewrite filter_cons. case_bool_decide; case_decide; done. Qed.

Lemma resolve_spec params waiting w :
  chan_id (events (harness w)) = 0%nat ->
  resolve params waiting w =
    (Done (handle_for <$> params, waiting || bool_decide (0 < wait_params params)%nat),
     mkWorld (set_wg (wg (harness w) + Z.of_nat (wait_params params)) (harness w))
       (mkT (errors (t w) ++ (unknown_arg <$> filter (fun ty => ty ∉ recognized) params)))
       (goroutines w)
       (trace w ++ replicate (wait_params params) (EvWgAdd Orchestrator))).
Proof.
  revert waiting w. induction params as [|ty params IH]; intros waiting w Hid.
  - destruct w as [[c d p b ev n] [errs] q tr]. simpl. unfold ret, wait_params. simpl.
    rewrite !app_nil_r, Z.add_0_r, orb_false_r. done.
  - simpl. unfold bind.
    assert (Hone : exists w1 wt,
      resolve_one ty w = (Done (handle_for ty, wt), w1) /\
      chan_id (events (harness w1)) = 0%nat /\
      wt = bool_decide (ty = T_ptr_WaitGroup) /\
      w1 = mkWorld (set_wg (wg (harness w) + (if wt then 1 else 0)) (harness w))
             (mkT (errors (t w) ++
                (if bool_decide (ty ∉ recognized) then [unknown_arg ty] else [])))
             (goroutines w)
             (trace w ++ (if wt then [EvWgAdd Orchestrator] else []))).
    { destruct w as [[c d p b [id cl] n] [errs] q tr]. simpl in Hid. subst id.
      destruct ty; eexists _, _; (split; [reflexivity|]); simpl;
        rewrite ?app_nil_r, ?Z.add_0_r; done. }
    destruct Hone as (w1 & wt & -> & Hid1 & -> & ->).
    rewrite IH by done. unfold ret.
    rewrite wait_params_cons, unknown_cons.
    destruct w as [[c d p b ev n] [errs] q tr]. cbn [fst snd harness t goroutines trace
      errors wg set_wg conn dialer compress builder events].
    destruct (bool_decide (ty = T_ptr_WaitGroup)), (bool_decide (ty ∉ recognized));
      cbn [fmap list_fmap app replicate Nat.add orb];
      rewrite <- ?app_assoc; cbn [app]; rewrite ?orb_false_r, ?orb_true_r;
      unfold set_wg; cbn [conn dialer compress builder events wg];
      try rewrite (bool_decide_eq_true_2 (0 < S _)%nat) by lia;
      rewrite ?orb_true_r;
      repeat match goal with |- _ = _ => first [done | lia | f_equal] end.
Qed.

Lemma valid_args_handles params :
  (Forall (fun ty => ty ∈ recognized) params ->
     exists vs, valid_args (handle_for <$> params) = Some vs /\
       Forall2 (fun ty v => handle_for ty = Some v) params vs) /\
  (Exists (fun ty => ty ∉ recognized) params -> valid_args (handle_for <$> params) = None).
Proof.
  induction params as [|ty params [IH1 IH2]].
  - split; [intros _; exists []; by split | intros H; inversion H].
  - rewrite fmap_cons. cbn [valid_args]. split.
    + intros H. inversion H as [|? ? Hty Hrest]; subst.
      destruct (IH1 Hrest) as (vs & E & F). rewrite E.
      destruct (handle_for ty) as [v|] eqn:Ev.
      * exists (v :: vs). split; [done|]. by constructor.
      * apply handle_for_None in Ev. done.
    + intros H. destruct (handle_for ty) as [v|] eqn:Ev; [|done].
      inversion H as [? ? Hty|? ? Hrest]; subst.
      * apply handle_for_None in Hty. congruence.
      * by rewrite (IH2 Hrest).
Qed.

(** ** The second and third block, whatever the outcome *)

Section Blocks.
Context (P : event -> bool).

Lemma stable_assert_NoError err : stable (evolves P) (assert_NoError err).
Proof.
  destruct err; simpl; [apply stable_Errorf | apply stable_ret; typeclasses eauto].
Qed.

Lemma stable_AssertExpectations d : stable (evolves P) (AssertExpectations d).
Proof.
  unfold AssertExpectations. apply stable_bind; try typeclasses eauto.
  - apply stable_get; typeclasses eauto.
  - intros w. destruct (unmet _); [apply stable_ret; typeclasses eauto | apply stable_Errorf].
Qed.

Lemma stable_resolve_one ty :
  P (EvWgAdd Orchestrator) = true -> stable (evolves P) (resolve_one ty).
Proof.
  intros HP. unfold resolve_one.
  destruct (switch_on cases ty) as [[]|];
    repeat first
      [ apply stable_ret; typeclasses eauto
      | apply stable_get; typeclasses eauto
      | apply stable_Errorf
      | by apply stable_wg_Add1
      | apply stable_bind; try typeclasses eauto; [| intros ?] ].
Qed.

Lemma stable_resolve params waiting :
  P (EvWgAdd Orchestrator) = true -> stable (evolves P) (resolve params waiting).
Proof.
  intros HP. revert waiting. induction params as [|ty params IH]; intros waiting; simpl.
  - apply stable_ret; typeclasses eauto.
  - apply stable_bind; try typeclasses eauto; [by apply stable_resolve_one|].
    intros r. apply stable_bind; try typeclasses eauto; [apply IH|].
    intros r'. apply stable_ret; typeclasses eauto.
Qed.

Lemma stable_Call_ body args :
  (forall vs, P (EvInvoke vs) = true) -> P EvReturned = true ->
  (forall e, made_by Callback e = true -> P e = true) ->
  stable (evolves P) (Call_ body args).
Proof.
  intros HI HR HC. unfold Call_. destruct (valid_args args) as [vs|].
  - apply stable_bind; try typeclasses eauto; [by apply stable_emit|].
    intros _. apply stable_bind; try typeclasses eauto; [by apply stable_run_routine|].
    intros _. by apply stable_emit.
  - apply stable_panic; typeclasses eauto.
Qed.

Lemma stable_Test_call cb :
  P (EvWgAdd Orchestrator) = true ->
  (forall vs, P (EvInvoke vs) = true) -> P EvReturned = true ->
  (forall e, made_by Callback e = true -> P e = true) ->
  stable (evolves P) (Test_call cb).
Proof.
  intros HA HI HR HC. destruct cb as [params body|kind]; simpl.
  - apply stable_bind; try typeclasses eauto; [by apply stable_resolve|].
    intros r. apply stable_bind; try typeclasses eauto; [by apply stable_Call_|].
    intros _. apply stable_ret; typeclasses eauto.
  - apply stable_bind; try typeclasses eauto; [apply stable_Errorf|].
    intros _. apply stable_panic; typeclasses eauto.
Qed.

Lemma stable_wg_Wait :
  P EvWaited = true ->
  (forall e, made_by Background e = true -> P e = true) ->
  stable (evolves P) wg_Wait.
Proof.
  intros HW HB. unfold wg_Wait. apply stable_bind; try typeclasses eauto.
  - intros w. by apply stable_wait_loop.
  - intros _. by apply stable_emit.
Qed.

Lemma stable_Test_teardown client waiting :
  P EvWaited = true ->
  (forall e, made_by Background e = true -> P e = true) ->
  P (EvExpect Orchestrator DConn "Close" []) = true ->
  P EvClose = true -> P EvClosed = true ->
  (forall e, made_by Client e = true -> P e = true) ->
  P (EvChanClose Orchestrator) = true ->
  stable (evolves P) (Test_teardown client waiting).
Proof.
  intros HW HB HE HC HD HL HX. unfold Test_teardown.
  apply stable_bind; try typeclasses eauto.
  { destruct waiting; [by apply stable_wg_Wait | apply stable_ret; typeclasses eauto]. }
  intros _. apply stable_bind; try typeclasses eauto; [by apply stable_expect|].
  intros _. apply stable_bind; try typeclasses eauto; [by apply stable_emit|].
  intros _. apply stable_bind; try typeclasses eauto; [by apply stable_run_routine|].
  intros err. apply stable_bind; try typeclasses eauto; [by apply stable_emit|].
  intros _. apply stable_bind; try typeclasses eauto; [apply stable_assert_NoError|].
  intros _. apply stable_bind; try typeclasses eauto; [by apply stable_close_events|].
  intros _. apply stable_bind; try typeclasses eauto; [apply stable_AssertExpectations|].
  intros _. apply stable_bind; try typeclasses eauto; [apply stable_AssertExpectations|].
  intros _. apply stable_AssertExpectations.
Qed.
End Blocks.

(** The wait returns only on a zero counter. *)
Lemma wait_loop_Done queue w w' :
  wait_loop queue w = (Done tt, w') -> wg (harness w') = 0.
Proof.
  revert w. induction queue as [|g rest IH]; intros w; simpl.
  - case_bool_decide; [by intros [= <-] | discriminate].
  - case_bool_decide; [by intros [= <-]|].
    intros H1. apply bind_inv_Done in H1 as (_ & w1 & _ & H1).
    apply bind_inv_Done in H1 as (_ & w2 & _ & H1). by eapply IH.
Qed.

Lemma wait_loop_idle queue w :
  wg (harness w) = 0 -> wait_loop queue w = (Done tt, w).
Proof. intros H. destruct queue; simpl; by rewrite bool_decide_eq_true_2. Qed.

(** ** An expectation programmed last *)

Lemma findExpectedCall_None l method args i ex b :
  findExpectedCall l method args i ex = (None, b) ->
  forall c, c ∈ l -> matches method args c = true -> Repeatability c <= -1.
Proof.
  revert i ex. induction l as [|c0 l IH]; intros i ex; simpl.
  - intros _ c Hc. by apply elem_of_nil in Hc.
  - destruct (matches method args c0) eqn:Em.
    + case_bool_decide as Hr; [discriminate|].
      intros E c Hc Hm. apply elem_of_cons in Hc as [->|Hc]; [lia | by eapply IH].
    + intros E c Hc Hm. apply elem_of_cons in Hc as [->|Hc]; [congruence | by eapply IH].
Qed.

(** A call right after [On(method, args...).Return(rets...).Once()] is
    answered; it consumes the new expectation unless an earlier one that
    matches is still to be called, and then the new one stays unmet. *)
Lemma MethodCalled_last method args rets m :
  let r := MethodCalled method args (On method args rets 1 m) in
  (exists v, fst r = Done v) /\
  (last (ExpectedCalls (snd r)) = Some (mkCall method args rets (-1) 1) \/
   last (ExpectedCalls (snd r)) = Some (mkCall method args rets 1 0)).
Proof.
  Local Transparent MethodCalled.
  simpl. unfold MethodCalled. cbn [On ExpectedCalls Calls].
  set (c1 := mkCall method args rets 1 0). set (l := ExpectedCalls m ++ [c1]).
  assert (Hc1 : matches method args c1 = true) by (apply matches_spec; done).
  destruct (findExpectedCall l method args 0 false) as [[j|] b] eqn:E.
  - destruct (findExpectedCall_Some _ _ _ _ _ _ _ E) as (c & _ & Hl & Hm & Hlive & _).
    replace (j - 0)%nat with j in Hl by lia. rewrite Hl. cbn [fst snd ExpectedCalls].
    split; [eauto|]. unfold l in *.
    destruct (decide (j < length (ExpectedCalls m))%nat) as [Hlt|Hge].
    + right. rewrite insert_app_l by done. apply last_snoc.
    + left. rewrite lookup_app_r in Hl by lia.
      destruct (j - length (ExpectedCalls m))%nat as [|n] eqn:En; [|done].
      injection Hl as <-. rewrite insert_app_r_alt by lia. rewrite En. simpl.
      rewrite last_snoc. done.
  - exfalso. assert (Repeatability c1 <= -1); [|simpl in *; lia].
    eapply findExpectedCall_None; eauto. unfold l. apply elem_of_app. right.
    by apply list_elem_of_singleton.
Qed.

Lemma unmet_of_last m c :
  last (ExpectedCalls m) = Some c -> 0 < Repeatability c -> unmet m <> [].
Proof.
  intros Hl Hr. apply last_Some in Hl as [l' E]. unfold unmet. rewrite E, filter_app.
  assert (Hs : satisfied m c = false).
  { unfold satisfied. rewrite (bool_decide_eq_true_2 (0 < Repeatability c)) by done.
    simpl. by rewrite andb_false_r. }
  rewrite filter_cons_True by exact Hs. intros H. by apply app_eq_nil in H as [_ ?].
Qed.

Lemma emit_eq e w :
  emit e w = (Done tt, mkWorld (harness w) (t w) (goroutines w) (trace w ++ [e])).
Proof. done. Qed.

Lemma AssertExpectations_spec d w :
  exists w', AssertExpectations d w = (Done tt, w') /\
    harness w' = harness w /\ trace w' = trace w /\ goroutines w' = goroutines w /\
    errors (t w) `prefix_of` errors (t w') /\
    (errors (t w') = [] ->
       unmet (match d with
              | DConn => conn_Mock (conn (harness w))
              | DDialer => dialer_Mock (dialer (harness w))
              | DCompress => compress_Mock (compress (harness w))
              end) = []).
Proof.
  unfold AssertExpectations, bind, get. simpl.
  destruct (unmet _) as [|c l] eqn:E.
  - eexists. split; [reflexivity|]. repeat split; auto.
  - eexists. split; [reflexivity|]. simpl. repeat split; auto.
    + by apply prefix_app_r.
    + intros H. by apply app_eq_nil in H as [_ ?].
Qed.

(** ** The third block of a run that completes *)

Lemma Test_teardown_Done cs st ro waiting w2 w' :
  Test_teardown (client_dialing cs st ro) waiting w2 = (Done tt, w') ->
  exists bg w3,
    evolves (made_by Background) w2 w3 /\
    trace w3 = trace w2 ++ bg /\
    Forall (fun e => made_by Background e = true) bg /\
    (waiting = false -> bg = []) /\
    (waiting = true -> wg (harness w3) = 0) /\
    closed (events (harness w3)) = false /\
    trace w' = trace w2 ++ bg ++ (if waiting then [EvWaited] else []) ++ end_events /\
    closed (events (harness w')) = true /\
    (errors (t w') = [] ->
       last (ExpectedCalls (conn_Mock (conn (harness w')))) = Some close_consumed).
Proof.
  unfold Test_teardown. intros H.
  apply bind_inv_Done in H as ([] & wa & Hwait & H).
  assert (Hw : exists bg w3,
    evolves (made_by Background) w2 w3 /\ trace w3 = trace w2 ++ bg /\
    Forall (fun e => made_by Background e = true) bg /\
    (waiting = false -> bg = []) /\ (waiting = true -> wg (harness w3) = 0) /\
    wa = mkWorld (harness w3) (t w3) (goroutines w3)
           (trace w3 ++ (if waiting then [EvWaited] else []))).
  { destruct waiting.
    - unfold wg_Wait in Hwait. apply bind_inv_Done in Hwait as ([] & w3 & Hloop & Hemit).
      rewrite emit_eq in Hemit. injection Hemit as <-.
      pose proof (stable_wait_loop (made_by Background) (goroutines w2) (fun e H => H) w2) as Hev.
      rewrite Hloop in Hev. simpl in Hev.
      destruct Hev as ((bg & Hbg & Fbg) & Hrest).
      exists bg, w3. split; [by split; [exists bg|]|].
      split; [done|]. split; [done|]. split; [done|]. split; [|done].
      intros _. by eapply wait_loop_Done.
    - injection Hwait as <-. exists [], w2. rewrite !app_nil_r.
      split; [reflexivity|]. split; [done|]. split; [done|]. split; [done|].
      split; [done|]. by destruct w2. }
  destruct Hw as (bg & w3 & Hev & Htr3 & Fbg & Hbg0 & Hwg & ->).
  exists bg, w3.
  unfold expect in H. apply bind_inv_Done in H as ([] & wb & Hexp & H).
  apply bind_inv_Done in Hexp as ([] & wb0 & He1 & He2).
  rewrite emit_eq in He1. injection He1 as <-. unfold modify in He2. injection He2 as <-.
  apply bind_inv_Done in H as ([] & wc & He3 & H). rewrite emit_eq in He3. injection He3 as <-.
  apply bind_inv_Done in H as (err & wd & Hclose & H).
  unfold run_routine in Hclose. simpl in Hclose.
  apply bind_inv_Done in Hclose as (r & we & Hcall & Hret). injection Hret as <- <-.
  unfold call_conn in Hcall. apply bind_inv_Done in Hcall as ([] & wf & He4 & Hcall).
  rewrite emit_eq in He4. injection He4 as <-.
  unfold on_conn in Hcall. cbn [harness upd_harness conn set_conn] in Hcall.
  destruct (invoke CClose _) as [o x] eqn:Hinv. injection Hcall as -> <-.
  apply bind_inv_Done in H as ([] & wg_ & He5 & H). rewrite emit_eq in He5. injection He5 as <-.
  apply bind_inv_Done in H as ([] & wh & Hne & H). injection Hne as <-.
  apply bind_inv_Done in H as ([] & wi & Hce & H).
  unfold close_events, bind, get in Hce. cbn in Hce.
  destruct (closed (events (harness w3))) eqn:Hcl; [discriminate|].
  injection Hce as <-.
  apply bind_inv_Done in H as ([] & wj & Ha1 & H).
  match type of Ha1 with AssertExpectations _ ?w = _ =>
    destruct (AssertExpectations_spec DConn w) as (wj' & Hj & Hjh & Hjt & _ & Hje & Hju)
  end.
  rewrite Hj in Ha1. injection Ha1 as <-.
  apply bind_inv_Done in H as ([] & wk & Ha2 & H).
  destruct (AssertExpectations_spec DDialer wj') as (wk' & Hk & Hkh & Hkt & _ & Hke & _).
  rewrite Hk in Ha2. injection Ha2 as <-.
  destruct (AssertExpectations_spec DCompress wk') as (wl' & Hl & Hlh & Hlt & _ & Hle & _).
  rewrite Hl in H. injection H as <-.
  split; [done|]. split; [done|]. split; [done|]. split; [done|]. split; [done|].
  split; [done|].
  split.
  { rewrite Hlt, Hkt, Hjt. cbn. rewrite Htr3. unfold end_events.
    rewrite <- !app_assoc. destruct waiting; reflexivity. }
  split.
  { rewrite Hlh, Hkh, Hjh. reflexivity. }
  intros Herr. rewrite Hlh, Hkh, Hjh. cbn.
  assert (Hej : errors (t wj') = []).
  { destruct Hle as [e1 Hx], Hke as [e2 Hy]. rewrite Hx, Hy in Herr.
    apply app_eq_nil in Herr as [Herr _]. by apply app_eq_nil in Herr as [Herr _]. }
  specialize (Hju Hej). cbn in Hju.
  unfold invoke, fmap_M, mockConn_Close, bind, Called in Hinv. cbn in Hinv.
  pose proof (MethodCalled_last "Close" [] [] (conn_Mock (conn (harness w3)))) as [_ Hlast].
  cbn zeta in Hlast.
  destruct (MethodCalled "Close" [] (On "Close" [] [] 1 (conn_Mock (conn (harness w3)))))
    as [o' m'] eqn:HMC.
  cbn [fst snd] in Hlast.
  assert (Hx : conn_Mock x = m').
  { destruct o'; cbn in Hinv; injection Hinv as _ <-; reflexivity. }
  rewrite Hx. destruct Hlast as [Hlast|Hlast]; [exact Hlast|].
  exfalso. rewrite Hx in Hju. eapply unmet_of_last; eauto. simpl. lia.
Qed.

(** ** The second block of a run that goes on *)

Lemma Test_call_Done params body w waiting w2 :
  chan_id (events (harness w)) = 0%nat ->
  Test_call (Func params body) w = (Done waiting, w2) ->
  exists vs during,
    Forall2 (fun ty v => handle_for ty = Some v) params vs /\
    Forall (fun e => made_by Callback e = true) during /\
    waiting = bool_decide (0 < wait_params params)%nat /\
    trace w2 = trace w ++ replicate (wait_params params) (EvWgAdd Orchestrator) ++
               [EvInvoke vs] ++ during ++ [EvReturned].
Proof.
  intros Hid H. simpl in H.
  apply bind_inv_Done in H as (r & wr & Hres & H).
  rewrite resolve_spec in Hres by done. injection Hres as <- <-.
  cbn [fst snd] in H.
  apply bind_inv_Done in H as ([] & wc & HCall & Hret). injection Hret as <- <-.
  unfold Call_ in HCall.
  destruct (decide (Forall (fun ty => ty ∈ recognized) params)) as [Hall|Hnot].
  - destruct (proj1 (valid_args_handles params) Hall) as (vs & Hv & F2). rewrite Hv in HCall.
    apply bind_inv_Done in HCall as ([] & wi & Hemit & HCall).
    rewrite emit_eq in Hemit. injection Hemit as <-.
    apply bind_inv_Done in HCall as (err & wb & Hrun & Hemit).
    rewrite emit_eq in Hemit. injection Hemit as <-.
    match type of Hrun with run_routine _ _ ?w0 = _ =>
      pose proof (stable_run_routine (made_by Callback) Callback body (fun e H => H) w0) as Hev
    end.
    rewrite Hrun in Hev. cbn [snd] in Hev. destruct Hev as ((during & Htr & Fd) & _).
    exists vs, during. split; [done|]. split; [done|]. split; [done|].
    cbn [trace] in *. rewrite Htr. by rewrite <- !app_assoc.
  - apply not_Forall_Exists in Hnot; [|intros ty; apply _].
    rewrite (proj2 (valid_args_handles params)) in HCall; [discriminate|].
    eapply Exists_impl; [exact Hnot|]. by intros ty Hty.
Qed.

(** ** A run that completes *)

Lemma balanced_started timeout b : balanced (started timeout b).
Proof. done. Qed.

Lemma chan_ok_started timeout b : chan_ok (started timeout b).
Proof. done. Qed.

Lemma completed_run timeout Build b params body w' :
  Build b = curator_Build timeout b ->
  Test timeout Build (Func params body) (fresh (harness_with b)) = (Done tt, w') ->
  exists vs during bg,
    let k := wait_params params in
    let before_wait :=
      start_events timeout b ++ replicate k (EvWgAdd Orchestrator) ++ [EvInvoke vs] ++
      during ++ [EvReturned] ++ bg in
    trace w' = before_wait ++ (if bool_decide (0 < k)%nat then [EvWaited] else []) ++ end_events /\
    Forall2 (fun ty v => handle_for ty = Some v) params vs /\
    Forall (fun e => made_by Callback e = true) during /\
    Forall (fun e => made_by Background e = true) bg /\
    (k = 0%nat -> bg = []) /\
    ((0 < k)%nat -> count is_done before_wait = count is_add before_wait) /\
    count is_chan_close before_wait = 0%nat /\
    closed (events (harness w')) = true /\
    ExpectedCalls (dialer_Mock (dialer (harness w'))) !! 0%nat = Some (dial_consumed timeout b) /\
    (errors (t w') = [] ->
       last (ExpectedCalls (conn_Mock (conn (harness w')))) = Some close_consumed).
Proof.
  intros HB HT. unfold Test in HT.
  rewrite (bind_Done _ _ _ _ _ (Test_start_curator timeout Build b HB)) in HT.
  rewrite HB in HT.
  apply bind_inv_Done in HT as (waiting & w2 & Hcall & Htear).
  pose proof (stable_Test_call anything (Func params body) eq_refl (fun _ => eq_refl) eq_refl
                (fun _ _ => eq_refl) (started timeout b)) as Hev2.
  rewrite Hcall in Hev2. cbn [snd] in Hev2.
  destruct Hev2 as (_ & Hbal2 & Hch2 & Hfr2 & _).
  specialize (Hbal2 (balanced_started timeout b)).
  specialize (Hch2 (chan_ok_started timeout b)).
  apply Test_call_Done in Hcall as (vs & during & F2 & Fd & -> & Htr2); [|done].
  pose proof (stable_Test_teardown anything (curator_Build timeout b)
                (bool_decide (0 < wait_params params)%nat) eq_refl (fun _ _ => eq_refl)
                eq_refl eq_refl eq_refl (fun _ _ => eq_refl) eq_refl w2) as Hev3.
  rewrite Htear in Hev3. cbn [snd] in Hev3. destruct Hev3 as (_ & _ & _ & Hfr3 & _).
  apply Test_teardown_Done in Htear
    as (bg & w3 & Hev & Htr3 & Fbg & Hbg0 & Hwg & Hcl3 & Htr & Hcl & Hlast).
  destruct Hev as (_ & Hbal3 & Hch3 & _).
  specialize (Hbal3 Hbal2). specialize (Hch3 Hch2).
  exists vs, during, bg. cbn zeta.
  assert (Hbefore : trace w3 =
    start_events timeout b ++ replicate (wait_params params) (EvWgAdd Orchestrator) ++
    [EvInvoke vs] ++ during ++ [EvReturned] ++ bg).
  { rewrite Htr3, Htr2. cbn [trace started]. by rewrite <- !app_assoc. }
  rewrite <- Hbefore.
  split. { rewrite Htr, Htr3. by rewrite <- !app_assoc. }
  split; [done|]. split; [done|]. split; [done|].
  split. { intros Hk. apply Hbg0. rewrite Hk. done. }
  split. { intros Hk. unfold balanced in Hbal3.
           rewrite Hwg in Hbal3 by (by apply bool_decide_eq_true_2). lia. }
  split. { unfold chan_ok in Hch3. by rewrite Hcl3 in Hch3. }
  split; [done|].
  split; [|done].
  apply Hfr3; [|done]. apply Hfr2; done.
Qed.

(** The trace of any run starts with the first block; the rest holds no
    further programming of the dialer by the orchestrator, and the
    expected dial stays consumed. *)
Lemma any_run_prefix timeout Build b cb :
  Build b = curator_Build timeout b ->
  exists rest,
    trace (snd (Test timeout Build cb (fresh (harness_with b)))) =
      start_events timeout b ++ rest /\
    count expects_dial rest = 0%nat /\
    ExpectedCalls (dialer_Mock (dialer (harness
      (snd (Test timeout Build cb (fresh (harness_with b))))))) !! 0%nat =
      Some (dial_consumed timeout b).
Proof.
  intros HB.
  unfold Test. rewrite (bind_Done _ _ _ _ _ (Test_start_curator timeout Build b HB)).
  rewrite HB.
  set (P := fun e => negb (expects_dial e)).
  assert (HC : forall who e, who <> Orchestrator -> made_by who e = true -> P e = true).
  { intros who [] Hw; simpl; try done; intros ->%bool_decide_eq_true; by destruct who. }
  assert (Hst : stable (evolves P)
    (waiting <- Test_call cb ;; Test_teardown (curator_Build timeout b) waiting)).
  { apply stable_bind; try typeclasses eauto.
    - apply stable_Test_call; try done. intros e. by apply HC.
    - intros waiting. apply stable_Test_teardown; try done; intros e; by apply HC. }
  destruct (Hst (started timeout b)) as ((rest & Htr & Frest) & _ & _ & Hfr & _).
  exists rest. split; [exact Htr|]. split.
  - apply count_zero. eapply Forall_impl; [exact Frest|].
    intros e He. unfold P in He. by destruct (expects_dial e).
  - apply Hfr; done.
Qed.

(** ** The claims on the orchestrator *)

(** The entry points of the suite run [Test] on a harness of fresh doubles. *)
Lemma WithClient_fresh timeout Build cb :
  WithClient timeout Build cb =
    Test timeout Build cb (fresh (harness_with (builder newMockZookeeperClient))).
Proof. reflexivity. Qed.

Lemma WithClientAndNamespace_fresh timeout Build namespace cb :
  WithClientAndNamespace timeout Build namespace cb =
    Test timeout Build cb
      (fresh (harness_with (builder (WithNamespace namespace newMockZookeeperClient)))).
Proof. reflexivity. Qed.

(** C2 (amended): in every run that completes, with a client that dials
    once at start and closes the connection once at close, the trace is
    the first block (build, the one expected dial programmed, the dial by
    the client), then steps among which the orchestrator programs nothing,
    the client calls nothing and nobody closes the event channel, then the
    last block: the one expected close programmed, the close by the client,
    and after its return the one close of the event channel.  The expected
    dial ends consumed; the expected close ends consumed when the run
    reports no failure. *)
Theorem completed_run_dials_once_closes_once :
  forall (timeout : Z) (b : CuratorFrameworkBuilder) (params : list go_type)
         (body : routine) (w' : world),
    Test timeout (curator_Build timeout) (Func params body) (fresh (harness_with b)) =
      (Done tt, w') ->
    exists middle,
      trace w' = start_events timeout b ++ middle ++ end_events /\
      count is_orchestrator_expect middle = 0%nat /\
      count (made_by Client) middle = 0%nat /\
      count is_chan_close middle = 0%nat /\
      ExpectedCalls (dialer_Mock (dialer (harness w'))) !! 0%nat =
        Some (dial_consumed timeout b) /\
      closed (events (harness w')) = true /\
      (errors (t w') = [] ->
         last (ExpectedCalls (conn_Mock (conn (harness w')))) = Some close_consumed).
Proof.
  intros timeout b params body w' HT.
  destruct (completed_run timeout _ b params body w' eq_refl HT)
    as (vs & during & bg & Htr & _ & Fd & Fbg & _ & _ & Hcc & Hcl & Hd & Hc).
  cbn zeta in *.
  set (k := wait_params params) in *.
  exists (replicate k (EvWgAdd Orchestrator) ++ [EvInvoke vs] ++ during ++ [EvReturned] ++ bg ++
          (if bool_decide (0 < k)%nat then [EvWaited] else [])).
  assert (Hf : forall (f : event -> bool) who, who <> Orchestrator -> who <> Client ->
    forall l, Forall (fun e => made_by who e = true) l ->
      (forall e, made_by who e = true -> f e = false) -> count f l = 0%nat).
  { intros f who _ _ l Fl Hfe. apply count_zero. eapply Forall_impl; [exact Fl|]. done. }
  split. { rewrite Htr. by rewrite <- !app_assoc. }
  split.
  { rewrite !count_app, count_replicate. simpl.
    rewrite (Hf _ Callback) with (l := during); try done.
    2:{ intros []; simpl; try done; intros ->%bool_decide_eq_true; done. }
    rewrite (Hf _ Background) with (l := bg); try done.
    2:{ intros []; simpl; try done; intros ->%bool_decide_eq_true; done. }
    by destruct (bool_decide (0 < k)%nat). }
  split.
  { rewrite !count_app, count_replicate. simpl.
    rewrite (Hf _ Callback) with (l := during); try done.
    2:{ intros []; simpl; try done; intros ->%bool_decide_eq_true; done. }
    rewrite (Hf _ Background) with (l := bg); try done.
    2:{ intros []; simpl; try done; intros ->%bool_decide_eq_true; done. }
    by destruct (bool_decide (0 < k)%nat). }
  split.
  { rewrite !count_app in Hcc. rewrite !count_app. simpl in *.
    destruct (bool_decide (0 < k)%nat); simpl; lia. }
  done.
Qed.

(** A run with a callback that takes no parameter. *)
Lemma completed_run_dials_once_closes_once_witness :
  exists middle,
    trace (snd (WithClient 15 (curator_Build 15) callback_plain)) =
      start_events 15 (builder newMockZookeeperClient) ++ middle ++ end_events /\
    count is_orchestrator_expect middle = 0%nat /\
    count (made_by Client) middle = 0%nat /\
    count is_chan_close middle = 0%nat /\
    ExpectedCalls (dialer_Mock (dialer (harness (snd (WithClient 15 (curator_Build 15)
      callback_plain))))) !! 0%nat = Some (dial_consumed 15 (builder newMockZookeeperClient)) /\
    closed (events (harness (snd (WithClient 15 (curator_Build 15) callback_plain)))) = true /\
    (errors (t (snd (WithClient 15 (curator_Build 15) callback_plain))) = [] ->
       last (ExpectedCalls (conn_Mock (conn (harness (snd (WithClient 15 (curator_Build 15)
         callback_plain)))))) = Some close_consumed).
Proof.
  apply (completed_run_dials_once_closes_once 15 (builder newMockZookeeperClient) []
           (Return_ None)).
  vm_compute. reflexivity.
Defined.

(** C2, as stated, fails: a run whose callback declares a parameter of a
    foreign type is aborted before the third block; the expected close is
    never programmed and the event channel is never closed. *)
Lemma aborted_run_never_closes :
  let r := WithClient 15 (curator_Build 15) callback_foreign in
  fst r = Panic ZeroValueArgument /\
  count is_orchestrator_expect (trace (snd r)) = 1%nat /\
  ExpectedCalls (conn_Mock (conn (harness (snd r)))) = [] /\
  count is_chan_close (trace (snd r)) = 0%nat /\
  closed (events (harness (snd r))) = false.
Proof. vm_compute. repeat split. Qed.

(** C3: in every run, a callback parameter of a type outside the
    recognized set is reported, by its type name, while the parameters are
    resolved; the call of the callback then panics before the function is
    entered: no invocation is in the trace, and the run and the state it
    leaves do not depend on the body of the callback. *)
Theorem foreign_parameter_reported_callback_not_invoked :
  forall (timeout : Z) (b : CuratorFrameworkBuilder) (params : list go_type)
         (body : routine) (ty : go_type),
    ty ∈ params -> ty ∉ recognized ->
    let r := Test timeout (curator_Build timeout) (Func params body) (fresh (harness_with b)) in
    fst r = Panic ZeroValueArgument /\
    unknown_arg ty ∈ errors (t (snd r)) /\
    count is_invoke (trace (snd r)) = 0%nat /\
    (forall body',
       Test timeout (curator_Build timeout) (Func params body') (fresh (harness_with b)) = r).
Proof.
  intros timeout b params body ty Hin Hnot.
  assert (Hrun : forall body0,
    Test timeout (curator_Build timeout) (Func params body0) (fresh (harness_with b)) =
      (Panic ZeroValueArgument,
       mkWorld (set_wg (0 + Z.of_nat (wait_params params)) (harness (started timeout b)))
         (mkT ([] ++ (unknown_arg <$> filter (fun ty => ty ∉ recognized) params)))
         []
         (start_events timeout b ++ replicate (wait_params params) (EvWgAdd Orchestrator)))).
  { intros body0. unfold Test.
    rewrite (bind_Done _ _ _ _ _ (Test_start_curator timeout _ b eq_refl)).
    unfold Test_call, bind. rewrite resolve_spec by done. cbn [fst snd].
    unfold Call_. rewrite (proj2 (valid_args_handles params)); [reflexivity|].
    apply Exists_exists. by exists ty. }
  cbn zeta. rewrite (Hrun body). cbn [fst snd t errors trace]. split; [done|].
  split.
  { rewrite app_nil_l. apply list_elem_of_fmap. exists ty. split; [done|].
    by apply list_elem_of_filter. }
  split.
  { rewrite count_app, count_replicate. done. }
  intros body'. apply Hrun.
Qed.

(** A callback with one parameter of type [int]. *)
Lemma foreign_parameter_reported_callback_not_invoked_witness :
  fst (WithClient 15 (curator_Build 15) callback_foreign) = Panic ZeroValueArgument /\
  unknown_arg (T_other "int") ∈ errors (t (snd (WithClient 15 (curator_Build 15) callback_foreign))) /\
  count is_invoke (trace (snd (WithClient 15 (curator_Build 15) callback_foreign))) = 0%nat.
Proof.
  destruct (foreign_parameter_reported_callback_not_invoked 15
    (builder newMockZookeeperClient) [T_other "int"] (Return_ None) (T_other "int"))
    as (H1 & H2 & H3 & _).
  - apply list_elem_of_here.
  - unfold recognized. intros H. repeat (apply elem_of_cons in H as [H|H]; [discriminate H|]).
    by apply elem_of_nil in H.
  - exact (conj H1 (conj H2 H3)).
Defined.

(** C4, as stated, fails: for a callback that declares two
    completion-signal handles the orchestrator registers two units of
    pending work, not one. *)
Lemma two_handles_register_two_units :
  let r := WithClient 15 (curator_Build 15) callback_two_handles in
  fst r = Done tt /\
  count is_registration (trace (snd r)) = 2%nat /\
  take 2 (drop 5 (trace (snd r))) = [EvWgAdd Orchestrator; EvWgAdd Orchestrator] /\
  trace (snd r) !! 7%nat = Some (EvInvoke [VWaitGroup; VWaitGroup]).
Proof. vm_compute. repeat split. Qed.

(** C5 (amended): in every run the orchestrator first builds the client,
    then programs the one expected dial on the dialer double, then starts
    the client; building dials nothing and the dial happens between the
    start and its return.  The order forbids a build that dials: a client
    whose build dials meets a dialer with nothing programmed, and the run
    is aborted there. *)
Theorem client_built_then_dial_programmed_then_started :
  forall (timeout : Z) (b : CuratorFrameworkBuilder) (cb : callback),
    (exists rest,
       trace (snd (Test timeout (curator_Build timeout) cb (fresh (harness_with b)))) =
         [EvBuild; EvExpect Orchestrator DDialer "Dial" (dial_args timeout b); EvStart;
          EvCall Client DDialer "Dial" (dial_args timeout b); EvStarted] ++ rest /\
       count expects_dial rest = 0%nat) /\
    (forall cs st ro k,
       let r := Test timeout (fun _ => client_dialing_at_build cs st ro k) cb
                  (fresh (harness_with b)) in
       fst r = Panic (UnexpectedCall "Dial" [VString cs; VDuration st; VBool ro]) /\
       trace (snd r) =
         [EvBuild; EvCall Client DDialer "Dial" [VString cs; VDuration st; VBool ro]]).
Proof.
  intros timeout b cb. split.
  - destruct (any_run_prefix timeout (curator_Build timeout) b cb eq_refl)
      as (rest & Htr & Hc & _).
    exists rest. by split.
  - intros cs st ro k. cbn zeta. unfold Test, Test_start, harness_with, fresh.
    repeat (unfold bind, modify, get, emit, expect, run_routine, call_Dial, on_dialer,
      mockZookeeperDialer_Dial, Called, On, log_if_set, Logf, ret; simpl).
    split; reflexivity.
Qed.

(** C5, as stated, fails: in a run the build is the first step and the
    programming of the expected dial the second; nothing is programmed
    before the client is built. *)
Lemma dial_is_programmed_after_build :
  let tr := trace (snd (WithClient 15 (curator_Build 15) callback_plain)) in
  tr !! 0%nat = Some EvBuild /\
  tr !! 1%nat = Some (EvExpect Orchestrator DDialer "Dial"
                        [VString "connectString"; VDuration 15; VBool false]) /\
  count is_orchestrator_expect (take 1 tr) = 0%nat /\
  count (fun e => bool_decide (e = EvBuild)) tr = 1%nat.
Proof. vm_compute. repeat split. Qed.

(** C6: in every run, whatever triple the client dials with, the
    orchestrator programs the dialer double once, with the connect string
    of the address resolver, the default timeout and the read-only flag of
    the configuration, in this order; a client that dials with another
    triple is aborted by an unexpected-call failure, and a client that
    dials with this triple consumes the expectation. *)
Theorem expected_dial_is_the_configured_triple :
  forall (timeout : Z) (b : CuratorFrameworkBuilder) (cb : callback)
         (cs : string) (st : Z) (ro : bool),
    let r := Test timeout (fun _ => client_dialing cs st ro) cb (fresh (harness_with b)) in
    (exists rest,
       trace (snd r) =
         EvBuild :: EvExpect Orchestrator DDialer "Dial"
                      [VString (ConnectionString b); VDuration timeout;
                       VBool (CanBeReadOnly b)] :: rest /\
       count expects_dial rest = 0%nat) /\
    ((cs, st, ro) <> (ConnectionString b, timeout, CanBeReadOnly b) ->
       fst r = Panic (UnexpectedCall "Dial" [VString cs; VDuration st; VBool ro])) /\
    ((cs, st, ro) = (ConnectionString b, timeout, CanBeReadOnly b) ->
       ExpectedCalls (dialer_Mock (dialer (harness (snd r)))) !! 0%nat =
         Some (mkCall "Dial"
                 [VString (ConnectionString b); VDuration timeout; VBool (CanBeReadOnly b)]
                 [VConn; VChan 0%nat; VNil] (-1) 1)).
Proof.
  intros timeout b cb cs st ro. cbn zeta.
  destruct (decide ((cs, st, ro) = (ConnectionString b, timeout, CanBeReadOnly b)))
    as [Heq|Hne].
  - injection Heq as -> -> ->.
    destruct (any_run_prefix timeout
      (fun _ => client_dialing (ConnectionString b) timeout (CanBeReadOnly b)) b cb eq_refl)
      as (rest & Htr & Hc & Hd).
    split; [|split; [done|]].
    + eexists. split; [rewrite Htr; reflexivity|]. exact Hc.
    + intros _. exact Hd.
  - destruct (Test_start_other_triple timeout b cs st ro) as (w & Hs & Htr).
    { unfold dial_args. intros [= -> -> ->]. done. }
    unfold Test, bind. rewrite Hs. cbn [fst snd].
    split; [|split; [done|]].
    + eexists. split; [rewrite Htr; reflexivity|]. reflexivity.
    + intros Heq. done.
Qed.

(** A client that dials with a connect string of its own. *)
Lemma expected_dial_is_the_configured_triple_witness :
  fst (WithClient 15 (fun _ => client_dialing "elsewhere" 15 false) callback_plain) =
    Panic (UnexpectedCall "Dial" [VString "elsewhere"; VDuration 15; VBool false]) /\
  ExpectedCalls (dialer_Mock (dialer (harness
    (snd (WithClient 15 (fun _ => client_dialing "connectString" 15 false) callback_plain)))))
    !! 0%nat =
    Some (mkCall "Dial" [VString "connectString"; VDuration 15; VBool false]
            [VConn; VChan 0%nat; VNil] (-1) 1).
Proof.
  split.
  - refine (proj1 (proj2 (expected_dial_is_the_configured_triple 15
      (builder newMockZookeeperClient) callback_plain "elsewhere" 15 false)) _).
    intros H. discriminate H.
  - refine (proj2 (proj2 (expected_dial_is_the_configured_triple 15
      (builder newMockZookeeperClient) callback_plain "connectString" 15 false)) _).
    reflexivity.
Defined.

(** C9: the compression double is injected for its concrete pointer type
    only.  The case that injects it lists the dialer interface first, but
    that type is taken by the dialer case before it, so the only type that
    reaches the compression case is the concrete one; the compression
    provider interface is in no case and is reported as an unknown argument
    type, while the connection and the dialer doubles are each injected for
    their interface and for their concrete type. *)
Theorem compression_double_by_concrete_type_only :
  cases !! 4%nat = Some ([T_ZookeeperDialer; T_ptr_mockCompressionProvider], SCompress) /\
  switch_on cases T_ZookeeperDialer = Some SDialer /\
  switch_on cases T_ptr_mockCompressionProvider = Some SCompress /\
  (forall ty, switch_on cases ty = Some SCompress -> ty = T_ptr_mockCompressionProvider) /\
  switch_on cases T_CompressionProvider = None /\
  switch_on cases T_ZookeeperConnection = Some SConn /\
  switch_on cases T_ptr_mockConn = Some SConn /\
  switch_on cases T_ptr_mockZookeeperDialer = Some SDialer /\
  (forall w, resolve_one T_ptr_mockCompressionProvider w = (Done (Some VCompress, false), w)) /\
  (forall w, resolve_one T_CompressionProvider w =
     (Done (None, false),
      mkWorld (harness w)
        (mkT (errors (t w) ++ [("unknown arg type: %s", [VString "curator.CompressionProvider"])]))
        (goroutines w) (trace w))).
Proof.
  repeat split.
  intros ty. destruct ty; simpl; try discriminate; done.
Qed.

(** ** The second and third block, case by case *)

Lemma bind_unfold {S A B} (m : M S A) (k : A -> M S B) s :
  bind m k s =
    match m s with
    | (Done a, s') => k a s'
    | (Panic f, s') => (Panic f, s')
    | (Hang, s') => (Hang, s')
    end.
Proof. reflexivity. Qed.

Lemma Forall_made_by_not_registration who l :
  who <> Orchestrator ->
  Forall (fun e => made_by who e = true) l -> count is_registration l = 0%nat.
Proof.
  intros Hw F. apply count_zero. eapply Forall_impl; [exact F|].
  intros []; simpl; try done. intros ->%bool_decide_eq_true. by destruct who.
Qed.

Lemma Test_call_any params body w :
  chan_id (events (harness w)) = 0%nat ->
  let r := Test_call (Func params body) w in
  let k := wait_params params in
  (fst r = Panic ZeroValueArgument /\
   trace (snd r) = trace w ++ replicate k (EvWgAdd Orchestrator)) \/
  (exists vs during,
     Forall (fun e => made_by Callback e = true) during /\
     ((fst r = Done (bool_decide (0 < k)%nat) /\
       trace (snd r) = trace w ++ replicate k (EvWgAdd Orchestrator) ++ [EvInvoke vs] ++
                       during ++ [EvReturned]) \/
      ((forall x, fst r <> Done x) /\
       trace (snd r) = trace w ++ replicate k (EvWgAdd Orchestrator) ++ [EvInvoke vs] ++
                       during))).
Proof.
  intros Hid. cbn zeta. unfold Test_call, bind. rewrite resolve_spec by done. cbn [fst snd].
  unfold Call_. destruct (valid_args (handle_for <$> params)) as [vs|]; [|left; by split].
  right. unfold bind. rewrite emit_eq.
  match goal with |- context [run_routine Callback body ?w0] =>
    pose proof (stable_run_routine (made_by Callback) Callback body (fun e H => H) w0) as Hev;
    destruct (run_routine Callback body w0) as [o wb] eqn:Hrun
  end.
  cbn [snd] in Hev. destruct Hev as ((during & Htr & Fd) & _). cbn [trace] in Htr.
  exists vs, during. split; [done|].
  destruct o as [err|f|]; cbn.
  - left. split; [done|]. rewrite Htr. by rewrite <- ?app_assoc.
  - right. split; [done|]. rewrite Htr. by rewrite <- ?app_assoc.
  - right. split; [done|]. rewrite Htr. by rewrite <- ?app_assoc.
Qed.

Lemma Test_teardown_any client waiting w2 :
  let r := Test_teardown client waiting w2 in
  exists bg,
    Forall (fun e => made_by Background e = true) bg /\
    (waiting = false -> bg = []) /\
    ((waiting = true /\ (forall x, fst r <> Done x) /\ trace (snd r) = trace w2 ++ bg) \/
     (exists rest,
        trace (snd r) = trace w2 ++ bg ++ (if waiting then [EvWaited] else []) ++
                        [EvExpect Orchestrator DConn "Close" []] ++ rest /\
        count is_registration rest = 0%nat /\
        (waiting = true -> balanced w2 ->
           count is_done (trace w2 ++ bg) = count is_add (trace w2 ++ bg)))).
Proof.
  cbn zeta. unfold Test_teardown.
  set (P := fun e => negb (is_registration e)).
  assert (HC : forall who e, who <> Orchestrator -> made_by who e = true -> P e = true).
  { intros who [] Hw; simpl; try done; intros ->%bool_decide_eq_true; by destruct who. }
  match goal with |- context [bind (expect ?a ?b ?c ?d ?e ?f) ?K] => set (rest_ := K) end.
  assert (Hrest : forall w, exists rest,
    trace (snd (bind (expect Orchestrator DConn "Close" [] [] 1) rest_ w)) =
      trace w ++ [EvExpect Orchestrator DConn "Close" []] ++ rest /\
    count is_registration rest = 0%nat).
  { intros w. unfold bind at 1. unfold expect at 1. unfold bind at 1. rewrite emit_eq.
    unfold modify at 1.
    match goal with |- context [rest_ tt ?w0] =>
      assert (Hst : stable (evolves P) (rest_ tt)); [|destruct (Hst w0) as ((rest & Htr & Fr) & _)]
    end.
    { unfold rest_.
      apply stable_bind; try typeclasses eauto; [by apply stable_emit|].
      intros _. apply stable_bind; try typeclasses eauto;
        [apply stable_run_routine; intros e; by apply HC|].
      intros err. apply stable_bind; try typeclasses eauto; [by apply stable_emit|].
      intros _. apply stable_bind; try typeclasses eauto; [apply stable_assert_NoError|].
      intros _. apply stable_bind; try typeclasses eauto; [by apply stable_close_events|].
      intros _. apply stable_bind; try typeclasses eauto; [apply stable_AssertExpectations|].
      intros _. apply stable_bind; try typeclasses eauto; [apply stable_AssertExpectations|].
      intros _. apply stable_AssertExpectations. }
    exists rest. unfold upd_harness in Htr |- *. cbn [trace] in Htr |- *. rewrite Htr.
    split; [by rewrite <- ?app_assoc|].
    apply count_zero. eapply Forall_impl; [exact Fr|].
    intros e He. unfold P in He. by destruct (is_registration e). }
  destruct waiting.
  - pose proof (stable_wait_loop (made_by Background) (goroutines w2) (fun e H => H) w2) as Hev.
    destruct (wait_loop (goroutines w2) w2) as [o w3] eqn:Hloop. cbn [snd] in Hev.
    destruct Hev as ((bg & Hbg & Fbg) & Hbal & _).
    assert (Hwait : wg_Wait w2 =
      match o with
      | Done _ => (Done tt, mkWorld (harness w3) (t w3) (goroutines w3) (trace w3 ++ [EvWaited]))
      | Panic f => (Panic f, w3)
      | Hang => (Hang, w3)
      end).
    { unfold wg_Wait, bind. rewrite Hloop. by destruct o as [[]|f|]. }
    exists bg. split; [done|]. split; [done|].
    rewrite !(bind_unfold wg_Wait), Hwait.
    destruct o as [[]|f|]; cbv beta iota.
    + right.
      match goal with |- context [bind (expect _ _ _ _ _ _) rest_ ?w0] =>
        destruct (Hrest w0) as (rest & Htr & Hc)
      end.
      exists rest. cbn [trace] in Htr.
      split. { rewrite Htr, Hbg. by rewrite <- ?app_assoc. }
      split; [done|]. intros _ Hb2. specialize (Hbal Hb2). unfold balanced in Hbal.
      rewrite (wait_loop_Done _ _ _ Hloop) in Hbal. rewrite <- Hbg. lia.
    + left. cbn. by split.
    + left. cbn. by split.
  - exists []. split; [done|]. split; [done|]. right.
    destruct (Hrest w2) as (rest & Htr & Hc). exists rest. rewrite app_nil_l.
    split; [exact Htr|]. split; [done|]. intros H. discriminate H.
Qed.

(** C4 (amended): in every run the orchestrator registers one unit of
    pending work per completion-signal-handle parameter of the callback,
    all of them before it invokes the callback, and no further one.  The
    expected close is programmed only after the callback has returned and,
    when a unit was registered, after the wait has returned, by which time
    as many units were marked done as were registered; with no such
    parameter no wait occurs and no goroutine is run before the close.  A
    run stops earlier when a parameter is of no recognized type, when the
    callback does not return, or when the wait does not return. *)
Theorem registers_a_unit_per_handle_and_waits_before_close :
  forall (timeout : Z) (b : CuratorFrameworkBuilder) (params : list go_type) (body : routine),
    let r := Test timeout (curator_Build timeout) (Func params body) (fresh (harness_with b)) in
    let k := wait_params params in
    let before := start_events timeout b ++ replicate k (EvWgAdd Orchestrator) in
    exists tail,
      trace (snd r) = before ++ tail /\
      count is_registration before = k /\
      count is_registration tail = 0%nat /\
      after_registration k before tail.
Proof.
  intros timeout b params body. cbn zeta.
  unfold Test. rewrite (bind_Done _ _ _ _ _ (Test_start_curator timeout _ b eq_refl)).
  assert (Hreg : count is_registration
            (start_events timeout b ++ replicate (wait_params params) (EvWgAdd Orchestrator)) = (wait_params params)).
  { rewrite count_app, count_replicate. done. }
  pose proof (stable_Test_call anything (Func params body) eq_refl (fun _ => eq_refl) eq_refl
                (fun _ _ => eq_refl) (started timeout b)) as Hev2.
  destruct Hev2 as (_ & Hbal2 & _). specialize (Hbal2 (balanced_started timeout b)).
  destruct (Test_call_any params body (started timeout b) eq_refl)
    as [[Ho Htr]|(vs & during & Fd & [[Ho Htr]|[Ho Htr]])];
    unfold bind at 1;
    destruct (Test_call (Func params body) (started timeout b)) as [o w2];
    cbn [fst snd] in *.
  - subst o. cbv beta iota. exists []. cbn [snd]. rewrite app_nil_r.
    split; [exact Htr|]. split; [done|]. split; [done|]. constructor.
  - subst o. cbv beta iota.
    destruct (Test_teardown_any (curator_Build timeout b) (bool_decide (0 < (wait_params params))%nat) w2)
      as (bg & Fbg & Hbg0 & [(Hw & Hnd & Htr3)|(rest & Htr3 & Hc & Hbal)]).
    + exists ([EvInvoke vs] ++ during ++ [EvReturned] ++ bg).
      split. { rewrite Htr3, Htr. cbn [trace started]. by rewrite <- ?app_assoc. }
      split; [done|].
      split.
      { rewrite !count_app. simpl.
        rewrite (Forall_made_by_not_registration Callback during),
          (Forall_made_by_not_registration Background bg); done. }
      apply still_waiting; try done. by apply bool_decide_eq_true in Hw.
    + exists ([EvInvoke vs] ++ during ++ [EvReturned] ++ bg ++
              (if bool_decide (0 < (wait_params params))%nat then [EvWaited] else []) ++
              [EvExpect Orchestrator DConn "Close" []] ++ rest).
      split. { rewrite Htr3, Htr. cbn [trace started]. by rewrite <- ?app_assoc. }
      split; [done|].
      split.
      { rewrite !count_app. simpl.
        rewrite (Forall_made_by_not_registration Callback during),
          (Forall_made_by_not_registration Background bg), Hc; try done.
        by destruct (bool_decide (0 < (wait_params params))%nat). }
      apply close_programmed; try done.
      * intros Hk0. apply Hbg0. apply bool_decide_eq_false_2. lia.
      * intros Hk0. specialize (Hbal (bool_decide_eq_true_2 _ Hk0) Hbal2).
        rewrite Htr in Hbal. cbn [trace started] in Hbal.
        rewrite <- ?app_assoc in Hbal. rewrite <- ?app_assoc. exact Hbal.
  - exists ([EvInvoke vs] ++ during).
    assert (Hsame : forall (K : bool -> M world unit),
      match o with
      | Done a => K a w2
      | Panic f => (Panic f, w2)
      | Hang => (Hang, w2)
      end = (match o with Done _ => Hang | Panic f => Panic f | Hang => Hang end, w2)).
    { intros K. destruct o as [x|f|]; [by destruct (Ho x) | done | done]. }
    rewrite Hsame. cbn [snd].
    split. { rewrite Htr. cbn [trace started]. by rewrite <- ?app_assoc. }
    split; [done|].
    split.
    { rewrite !count_app. simpl.
      rewrite (Forall_made_by_not_registration Callback during); done. }
    by apply not_returned.
Qed.

(** The scenario of the specification: the callback takes a
    completion-signal handle and the connection double, programs
    [Children] and starts a goroutine that reads the children and then
    marks the unit done; the close is programmed after the read. *)
Example background_read_precedes_close :
  WithClient 15 (curator_Build 15) callback_background =
    (Done tt, snd (WithClient 15 (curator_Build 15) callback_background)) /\
  trace (snd (WithClient 15 (curator_Build 15) callback_background)) =
    start_events 15 (builder newMockZookeeperClient) ++
    [EvWgAdd Orchestrator; EvInvoke [VWaitGroup; VConn];
     EvExpect Callback DConn "Children" [VString "/a"]; EvReturned;
     EvCall Background DConn "Children" [VString "/a"]; EvWgDone Background; EvWaited] ++
    end_events.
Proof. vm_compute. split; reflexivity. Qed.

(** ** What the doubles write through their hook *)

(** Keeps the checked assertions folded while a method body is run. *)
Ltac run_body :=
  cbn -[comma_ok assert_bytes assert_Stat assert_chan assert_strings assert_ACLs
        assert_responses assert_ZookeeperConnection assert_EnsurePath MethodCalled].

(** Splits on what the mock answers and on the canned values the typed
    accessors inspect. *)
Ltac split_answer :=
  repeat match goal with
  | |- context [MethodCalled ?m ?a ?x] =>
      destruct (MethodCalled m a x) as [[?rets|?f|] ?m'] eqn:?; run_body
  | |- context [match ?l !! ?i with Some _ => _ | None => _ end] =>
      destruct (l !! i) as [?v|] eqn:?; run_body
  | |- context [match ?v with VNil => _ | _ => _ end] =>
      is_var v; destruct v; run_body
  end.

(** X1: on every double, a method calls the hook at most once, and only
    when it returns: the methods that log ([Create], [Exists], [ExistsW],
    [Delete], [Children], [ChildrenW] and [Multi] of the connection double,
    [Dial], [Compress], [Decompress], the methods of the two path helpers)
    call it once, with a format of their own and with the arguments of the
    call followed by the results returned; the other methods never call
    it, a call that panics has not called it, and no method changes the
    hook. *)
Theorem hook_called_once_on_return :
  forall call : bench_call, exists format : string, forall b : bench,
    let r := perform call b in
    bench_log call (snd r) = bench_log call b /\
    bench_out call (snd r) =
      match fst r, bench_log call b with
      | Done res, Some hook =>
          if logging call then hook format (bench_args call ++ res) (bench_out call b)
          else bench_out call b
      | _, _ => bench_out call b
      end.
Proof.
  intros call.
  destruct call as [| | | |call| | | | | | | |]; [| | | |destruct call| | | | | | | |];
    eexists; intros [[mc cr] [mt] [ms] [mo rec lg out] [md ld od] [mp lp op] [ma]
                      [me le oe] [mh lh oh]];
    unfold_methods;
    unfold fmap_M, args_String, args_Bool, args_Error, args_Get, bind, get, modify, Called, log_if_set,
      ret, panic, must;
    run_body.
  all: try (destruct cr; run_body).
  all: split_answer.
  all: try (split; reflexivity).
  all: repeat match goal with
       | |- context [match ?l with Some _ => _ | None => _ end] => is_var l; destruct l; run_body
       end.
  all: try (split; reflexivity).
  all: try (destruct (assert_ACLs _); split; reflexivity).
  Unshelve. all: exact EmptyString.
Qed.

(** ** Fewer or more canned values than results *)

Ltac typed_accessor_slots :=
  repeat match goal with
  | H : _ && _ = true |- _ => apply andb_prop in H as [? ?]
  | H : well_typed _ ?v = true |- _ => destruct v; try discriminate H; clear H
  | H : true = true |- _ => clear H
  end.

(** What a call returns when the expectation that answers it carries any
    number of canned values: the results are read slot by slot, in order;
    the first missing slot panics, values past the last slot are never
    read. *)
Lemma perform_prefix call b e :
  next_expected (bench_mock call b) (bench_method call) (bench_args call) = Some e ->
  (call = BClose -> crash (b_closeable b) = false) ->
  accessors_typed (bench_signature call) (ReturnArguments e) = true ->
  fst (perform call b) =
    (if decide (length (bench_signature call) <= length (ReturnArguments e))%nat
     then Done (zip_with received (bench_signature call) (ReturnArguments e))
     else Panic (MissingArgument (length (ReturnArguments e)))) /\
  MethodCalled (bench_method call) (bench_args call) (bench_mock call b) =
    (Done (ReturnArguments e), bench_mock call (snd (perform call b))) /\
  ((length (ReturnArguments e) < length (bench_signature call))%nat ->
     bench_out call (snd (perform call b)) = bench_out call b).
Proof.
  intros He Hc Ht.
  destruct (next_expected_spec _ _ _ _ He) as (i & _ & _ & _ & _ & _ & HC).
  destruct e as [me ae rets rp tc]. cbn [ReturnArguments] in *.
  destruct b as [[mc cr] [mt] [ms] [mo rec lg out] [md ld od] [mp lp op] [ma]
                 [mee le oe] [mh lh oh]].
  destruct call as [| | | |call| | | | | | | |]; [| | | |destruct call| | | | | | | |];
    cbn [bench_signature conn_signature bench_mock bench_method bench_args call_method
         call_args b_closeable b_tracer b_sleeper b_conn b_dialer b_compress b_acl b_ensure
         b_helper closeable_Mock tracer_Mock sleeper_Mock conn_Mock dialer_Mock compress_Mock
         acl_Mock ensure_Mock helper_Mock crash] in *;
    try (specialize (Hc eq_refl); subst cr);
    destruct rets as [|v0 [|v1 [|v2 [|v3 rest]]]];
    cbn [accessors_typed zip zip_with forallb checked fst snd orb] in Ht;
    typed_accessor_slots;
    unfold_methods;
    unfold fmap_M, args_String, args_Bool, args_Error, args_Get, bind, get, modify, Called,
      log_if_set, ret, panic, must;
    run_body; rewrite HC; run_body;
    rewrite <- ?received_bytes, <- ?received_Stat, <- ?received_chan, <- ?received_strings,
      <- ?received_ACLs, <- ?received_responses, <- ?received_conn, <- ?received_EnsurePath;
    repeat match goal with
    | |- context [match ?l with Some _ => _ | None => _ end] => is_var l; destruct l; run_body
    end;
    (split; [try reflexivity | split; [reflexivity | first [reflexivity | intros; exfalso; simpl in *; lia]]]).
Qed.

(** X2: on every double, when the expectation that answers a call carries
    fewer canned values than the operation has results (the ones that are
    there having the type of their slot where a typed accessor reads them),
    the operation panics at the first missing slot; by then the expectation
    is consumed and the call recorded, and nothing is written through the
    hook. *)
Theorem too_few_canned_values_panic :
  forall (call : bench_call) (b : bench) (e : Call),
    next_expected (bench_mock call b) (bench_method call) (bench_args call) = Some e ->
    (call = BClose -> crash (b_closeable b) = false) ->
    accessors_typed (bench_signature call) (ReturnArguments e) = true ->
    (length (ReturnArguments e) < length (bench_signature call))%nat ->
    fst (perform call b) = Panic (MissingArgument (length (ReturnArguments e))) /\
    MethodCalled (bench_method call) (bench_args call) (bench_mock call b) =
      (Done (ReturnArguments e), bench_mock call (snd (perform call b))) /\
    bench_out call (snd (perform call b)) = bench_out call b.
Proof.
  intros call b e He Hc Ht Hlen.
  destruct (perform_prefix call b e He Hc Ht) as (H1 & H2 & H3).
  rewrite decide_False in H1 by lia. auto.
Qed.

(** [Get] programmed with the data only: the stat is missing. *)
Lemma too_few_canned_values_panic_witness :
  fst (perform (BConn (CGet "/a"))
         (bench_conn (programmed "Get" [VString "/a"]
            [VBytes (String.list_byte_of_string "v")] 1))) =
    Panic (MissingArgument 1).
Proof.
  refine (proj1 (too_few_canned_values_panic (BConn (CGet "/a"))
    (bench_conn (programmed "Get" [VString "/a"] [VBytes (String.list_byte_of_string "v")] 1))
    (mkCall "Get" [VString "/a"] [VBytes (String.list_byte_of_string "v")] 1 0) _ _ _ _)).
  - reflexivity.
  - intros H. discriminate H.
  - reflexivity.
  - simpl. lia.
Defined.

Lemma zip_app_surplus {A B} (l : list A) (used surplus : list B) :
  length used = length l -> zip l (used ++ surplus) = zip l used.
Proof.
  revert used. induction l as [|a l IH]; intros [|u used]; simpl; try done.
  intros [= H]. by rewrite IH.
Qed.

Lemma zip_with_app_surplus {A B C} (f : A -> B -> C) (l : list A) (used surplus : list B) :
  length used = length l -> zip_with f l (used ++ surplus) = zip_with f l used.
Proof.
  revert used. induction l as [|a l IH]; intros [|u used]; simpl; try done.
  intros [= H]. by rewrite IH.
Qed.

(** X3: on every double, the canned values past the last result of the
    operation are never read: with [used] one value per result and any
    [surplus] behind them, the caller receives what it receives for [used]
    alone (each value when it has the type of its slot, the zero value of a
    slot read by a checked assertion otherwise). *)
Theorem surplus_canned_values_ignored :
  forall (call : bench_call) (b : bench) (e : Call) (used surplus : list value),
    next_expected (bench_mock call b) (bench_method call) (bench_args call) = Some e ->
    (call = BClose -> crash (b_closeable b) = false) ->
    ReturnArguments e = used ++ surplus ->
    length used = length (bench_signature call) ->
    accessors_typed (bench_signature call) used = true ->
    fst (perform call b) = Done (zip_with received (bench_signature call) used).
Proof.
  intros call b e used surplus He Hc Hr Hlen Ht.
  destruct (perform_prefix call b e He Hc) as (H1 & _).
  { rewrite Hr. unfold accessors_typed. by rewrite zip_app_surplus. }
  rewrite H1, decide_True by (rewrite Hr, length_app; lia).
  by rewrite Hr, zip_with_app_surplus.
Qed.

(** [Sync] programmed with a third value behind the path and the error. *)
Lemma surplus_canned_values_ignored_witness :
  fst (perform (BConn (CSync "/a"))
         (bench_conn (programmed "Sync" [VString "/a"] [VString "/a"; VNil; VInt 7] 1))) =
    Done [VString "/a"; VNil].
Proof.
  refine (surplus_canned_values_ignored (BConn (CSync "/a"))
    (bench_conn (programmed "Sync" [VString "/a"] [VString "/a"; VNil; VInt 7] 1))
    (mkCall "Sync" [VString "/a"] [VString "/a"; VNil; VInt 7] 1 0)
    [VString "/a"; VNil] [VInt 7] _ _ _ _ _).
  - reflexivity.
  - intros H. discriminate H.
  - reflexivity.
  - reflexivity.
  - reflexivity.
Defined.

(** ** A call that no expectation answers *)

Lemma findExpectedCall_flag l method args i ex b :
  findExpectedCall l method args i ex = (None, b) ->
  b = ex || existsb (matches method args) l.
Proof.
  revert i ex. induction l as [|c l IH]; intros i ex; simpl.
  - intros [= <-]. by rewrite orb_false_r.
  - destruct (matches method args c) eqn:Em; simpl.
    + case_bool_decide; [discriminate|]. intros E. apply IH in E. rewrite E.
      by rewrite !orb_true_r.
    + apply IH.
Qed.

Lemma MethodCalled_unanswered method args m :
  next_expected m method args = None ->
  MethodCalled method args m =
    (Panic (if existsb (matches method args) (ExpectedCalls m)
            then OverCalled method args else UnexpectedCall method args), m).
Proof.
  unfold next_expected, MethodCalled.
  destruct (findExpectedCall _ _ _ _ _) as [[j|] b] eqn:E.
  - destruct (findExpectedCall_Some _ _ _ _ _ _ _ E) as (c & _ & Hl & _).
    replace (j - 0)%nat with j in Hl by lia. rewrite Hl. discriminate.
  - intros _. apply findExpectedCall_flag in E. simpl in E. subst b.
    by destruct (existsb _ _).
Qed.

(** X4: on every double, a call that no expectation answers panics, as
    over-called when some expectation matches (each is exhausted then) and
    as unexpected otherwise; the double is left as it was: nothing is
    consumed, nothing recorded as called, nothing written through the hook.
    [Multi] alone has recorded its batch by then. *)
Theorem unanswered_call_panics_and_consumes_nothing :
  forall (call : bench_call) (b : bench),
    next_expected (bench_mock call b) (bench_method call) (bench_args call) = None ->
    (call = BClose -> crash (b_closeable b) = false) ->
    perform call b =
      (Panic (if existsb (matches (bench_method call) (bench_args call))
                   (ExpectedCalls (bench_mock call b))
              then OverCalled (bench_method call) (bench_args call)
              else UnexpectedCall (bench_method call) (bench_args call)),
       recorded_only call b).
Proof.
  intros call b He Hc. apply MethodCalled_unanswered in He.
  destruct b as [[mc cr] [mt] [ms] [mo rec lg out] [md ld od] [mp lp op] [ma]
                 [mee le oe] [mh lh oh]].
  destruct call as [| | | |call| | | | | | | |]; [| | | |destruct call| | | | | | | |];
    cbn [bench_signature conn_signature bench_mock bench_method bench_args call_method
         call_args b_closeable b_tracer b_sleeper b_conn b_dialer b_compress b_acl b_ensure
         b_helper closeable_Mock tracer_Mock sleeper_Mock conn_Mock dialer_Mock compress_Mock
         acl_Mock ensure_Mock helper_Mock crash recorded_only] in *;
    try (specialize (Hc eq_refl); subst cr);
    unfold_methods;
    unfold fmap_M, bind, get, modify, Called; run_body; rewrite He; reflexivity.
Qed.

(** [Sync] on a connection double whose one expectation is exhausted. *)
Lemma unanswered_call_panics_and_consumes_nothing_witness :
  perform (BConn (CSync "/a"))
    (bench_conn (mkMock [mkCall "Sync" [VString "/a"] [VString "/a"; VNil] (-1) 1]
                   [("Sync", [VString "/a"])])) =
    (Panic (OverCalled "Sync" [VString "/a"]),
     bench_conn (mkMock [mkCall "Sync" [VString "/a"] [VString "/a"; VNil] (-1) 1]
                   [("Sync", [VString "/a"])])).
Proof.
  refine (unanswered_call_panics_and_consumes_nothing (BConn (CSync "/a"))
    (bench_conn (mkMock [mkCall "Sync" [VString "/a"] [VString "/a"; VNil] (-1) 1]
                   [("Sync", [VString "/a"])])) _ _).
  - reflexivity.
  - intros H. discriminate H.
Defined.

(** ** What every step of a run keeps *)

(** A relation between the world before and after that every primitive
    step keeps is kept by handed-in code, by the wait and by the blocks of
    [Test]. *)
Section Frame.
Context (R : world -> world -> Prop) `{!Reflexive R} `{!Transitive R}.
Hypothesis R_trace :
  forall e w, R w (mkWorld (harness w) (t w) (goroutines w) (trace w ++ [e])).
Hypothesis R_queue : forall q w, R w (set_goroutines q w).
Hypothesis R_conn :
  forall call w, R w (upd_harness (set_conn (snd (invoke call (conn (harness w))))) w).
Hypothesis R_dialer :
  forall cs st ro w,
    R w (upd_harness (set_dialer (snd (mockZookeeperDialer_Dial cs st ro (dialer (harness w))))) w).
Hypothesis R_compress :
  forall path data w,
    R w (upd_harness
           (set_compress (snd (mockCompressionProvider_Compress path data (compress (harness w)))))
           w).
Hypothesis R_decompress :
  forall path data w,
    R w (upd_harness
           (set_compress (snd (mockCompressionProvider_Decompress path data (compress (harness w)))))
           w).
Hypothesis R_program :
  forall d method args rets times w, R w (upd_harness (program d method args rets times) w).
Hypothesis R_wg : forall n w, R w (upd_harness (set_wg n) w).
Hypothesis R_close :
  forall w, R w (upd_harness (set_events (mkChannel (chan_id (events (harness w))) true)) w).

Lemma frame_emit e : stable R (emit e).
Proof. intros w. apply R_trace. Qed.

Lemma frame_call_conn who call : stable R (call_conn who call).
Proof.
  unfold call_conn. apply stable_bind; try typeclasses eauto; [apply frame_emit|].
  intros _ w. unfold on_conn. specialize (R_conn call w).
  by destruct (invoke call _) as [o x].
Qed.

Lemma frame_call_Dial who cs st ro : stable R (call_Dial who cs st ro).
Proof.
  unfold call_Dial. apply stable_bind; try typeclasses eauto; [apply frame_emit|].
  intros _ w. unfold on_dialer. specialize (R_dialer cs st ro w).
  by destruct (mockZookeeperDialer_Dial _ _ _ _) as [o x].
Qed.

Lemma frame_call_Compress who path data : stable R (call_Compress who path data).
Proof.
  unfold call_Compress. apply stable_bind; try typeclasses eauto; [apply frame_emit|].
  intros _ w. unfold on_compress. specialize (R_compress path data w).
  by destruct (mockCompressionProvider_Compress _ _ _) as [o x].
Qed.

Lemma frame_call_Decompress who path data : stable R (call_Decompress who path data).
Proof.
  unfold call_Decompress. apply stable_bind; try typeclasses eauto; [apply frame_emit|].
  intros _ w. unfold on_compress. specialize (R_decompress path data w).
  by destruct (mockCompressionProvider_Decompress _ _ _) as [o x].
Qed.

Lemma frame_expect who d method args rets times :
  stable R (expect who d method args rets times).
Proof.
  unfold expect. apply stable_bind; try typeclasses eauto; [apply frame_emit|].
  intros _ w. apply (R_program d method args rets times w).
Qed.

Lemma frame_wg_Add1 who : stable R (wg_Add1 who).
Proof.
  unfold wg_Add1. apply stable_bind; try typeclasses eauto; [apply frame_emit|].
  intros _ w. apply (R_wg (wg (harness w) + 1) w).
Qed.

Lemma frame_wg_Done who : stable R (wg_Done who).
Proof.
  intros w. unfold wg_Done, bind, get. simpl. case_bool_decide; [reflexivity|].
  etransitivity; [apply R_trace|]. apply (R_wg _ (mkWorld _ _ _ _)).
Qed.

Lemma frame_close_events who : stable R (close_events who).
Proof.
  intros w. unfold close_events, bind, get. simpl.
  destruct (closed (events (harness w))); [reflexivity|].
  etransitivity; [apply R_trace|]. apply (R_close (mkWorld _ _ _ _)).
Qed.

Lemma frame_run {G} (spawn : G -> M world unit) who (p : prog G) :
  (forall g, stable R (spawn g)) -> stable R (run spawn who p).
Proof.
  intros Hs.
  induction p as [err|msg|call k IH|cs st ro k IH|path data k IH|path data k IH
                  |d method args rets times k IH|k IH|k IH|k IH|body k IH]; simpl.
  - by apply stable_ret.
  - by apply stable_panic.
  - apply stable_bind; try typeclasses eauto; [apply frame_call_conn | done].
  - apply stable_bind; try typeclasses eauto; [apply frame_call_Dial | done].
  - apply stable_bind; try typeclasses eauto; [apply frame_call_Compress | done].
  - apply stable_bind; try typeclasses eauto; [apply frame_call_Decompress | done].
  - apply stable_bind; try typeclasses eauto; [apply frame_expect | done].
  - apply stable_bind; try typeclasses eauto; [apply frame_wg_Add1 | done].
  - apply stable_bind; try typeclasses eauto; [apply frame_wg_Done | done].
  - apply stable_bind; try typeclasses eauto; [apply frame_close_events | done].
  - apply stable_bind; try typeclasses eauto; [apply Hs | done].
Qed.

Lemma frame_run_goroutine g : stable R (run_goroutine g).
Proof. apply frame_run. intros []. Qed.

Lemma frame_run_routine who p : stable R (run_routine who p).
Proof. apply frame_run. intros g w. apply R_queue. Qed.

Lemma frame_wait_loop queue : stable R (wait_loop queue).
Proof.
  induction queue as [|g rest IH]; intros w; simpl.
  - case_bool_decide; reflexivity.
  - case_bool_decide; [reflexivity|].
    revert w H. fold (stable R
      (modify (set_goroutines rest) ;; _ <- run_goroutine g ;; wait_loop rest)).
    intros w _. revert w.
    apply stable_bind; try typeclasses eauto.
    + intros w. apply R_queue.
    + intros _. apply stable_bind; try typeclasses eauto; [apply frame_run_goroutine | done].
Qed.

Lemma frame_wg_Wait : stable R wg_Wait.
Proof.
  unfold wg_Wait. apply stable_bind; try typeclasses eauto.
  - intros w. apply frame_wait_loop.
  - intros _. apply frame_emit.
Qed.

Lemma frame_Call_ body args : stable R (Call_ body args).
Proof.
  unfold Call_. destruct (valid_args args) as [vs|]; [|by apply stable_panic].
  apply stable_bind; try typeclasses eauto; [apply frame_emit|].
  intros _. apply stable_bind; try typeclasses eauto; [apply frame_run_routine|].
  intros _. apply frame_emit.
Qed.

Hypothesis R_report :
  forall format args w,
    R w (mkWorld (harness w) (mkT (errors (t w) ++ [(format, args)])) (goroutines w) (trace w)).

Lemma frame_Errorf format args : stable R (Errorf format args).
Proof. intros w. apply R_report. Qed.

Lemma frame_assert_NoError err : stable R (assert_NoError err).
Proof. destruct err; simpl; [apply frame_Errorf | by apply stable_ret]. Qed.

Lemma frame_AssertExpectations d : stable R (AssertExpectations d).
Proof.
  unfold AssertExpectations. apply stable_bind; try typeclasses eauto; [by apply stable_get|].
  intros w. destruct (unmet _); [by apply stable_ret | apply frame_Errorf].
Qed.

Lemma frame_resolve_one ty : stable R (resolve_one ty).
Proof.
  unfold resolve_one.
  destruct (switch_on cases ty) as [[]|];
    repeat first
      [ by apply stable_ret
      | by apply stable_get
      | apply frame_Errorf
      | apply frame_wg_Add1
      | apply stable_bind; try typeclasses eauto; [| intros ?] ].
Qed.

Lemma frame_resolve params waiting : stable R (resolve params waiting).
Proof.
  revert waiting. induction params as [|ty params IH]; intros waiting; simpl.
  - by apply stable_ret.
  - apply stable_bind; try typeclasses eauto; [apply frame_resolve_one|].
    intros r. apply stable_bind; try typeclasses eauto; [apply IH|]. intros r'. by apply stable_ret.
Qed.

Lemma frame_Test_call cb : stable R (Test_call cb).
Proof.
  destruct cb as [params body|kind]; simpl.
  - apply stable_bind; try typeclasses eauto; [apply frame_resolve|].
    intros r. apply stable_bind; try typeclasses eauto; [apply frame_Call_|].
    intros _. by apply stable_ret.
  - apply stable_bind; try typeclasses eauto; [apply frame_Errorf|].
    intros _. by apply stable_panic.
Qed.

(** The last block up to the close of the client, and from the close of
    the event channel on. *)
Lemma frame_before_channel_close (client : CuratorFramework) (waiting : bool) :
  stable R
    ((if waiting then wg_Wait else @ret world unit tt) ;;
     expect Orchestrator DConn "Close" [] [] 1 ;;
     emit EvClose ;;
     err <- run_routine Client (Close client) ;;
     emit EvClosed ;;
     assert_NoError err).
Proof.
  apply stable_bind; try typeclasses eauto.
  { destruct waiting; [apply frame_wg_Wait | by apply stable_ret]. }
  intros _. apply stable_bind; try typeclasses eauto; [apply frame_expect|].
  intros _. apply stable_bind; try typeclasses eauto; [apply frame_emit|].
  intros _. apply stable_bind; try typeclasses eauto; [apply frame_run_routine|].
  intros err. apply stable_bind; try typeclasses eauto; [apply frame_emit|].
  intros _. apply frame_assert_NoError.
Qed.

Lemma frame_Test_teardown client waiting : stable R (Test_teardown client waiting).
Proof.
  unfold Test_teardown.
  apply stable_bind; try typeclasses eauto.
  { destruct waiting; [apply frame_wg_Wait | by apply stable_ret]. }
  intros _. apply stable_bind; try typeclasses eauto; [apply frame_expect|].
  intros _. apply stable_bind; try typeclasses eauto; [apply frame_emit|].
  intros _. apply stable_bind; try typeclasses eauto; [apply frame_run_routine|].
  intros err. apply stable_bind; try typeclasses eauto; [apply frame_emit|].
  intros _. apply stable_bind; try typeclasses eauto; [apply frame_assert_NoError|].
  intros _. apply stable_bind; try typeclasses eauto; [apply frame_close_events|].
  intros _. apply stable_bind; try typeclasses eauto; [apply frame_AssertExpectations|].
  intros _. apply stable_bind; try typeclasses eauto; [apply frame_AssertExpectations|].
  intros _. apply frame_AssertExpectations.
Qed.

(** A last block that completes has found the event channel open and has
    closed it. *)
Lemma teardown_reaches_close client waiting w2 w' :
  Test_teardown client waiting w2 = (Done tt, w') ->
  exists w3,
    R w2 w3 /\ closed (events (harness w3)) = false /\
    harness w' = set_events (mkChannel (chan_id (events (harness w3))) true) (harness w3).
Proof.
  unfold Test_teardown. intros H.
  apply bind_inv_Done in H as ([] & wa & Ha & H).
  assert (Ra : R w2 wa).
  { assert (Hs : stable R (if waiting then wg_Wait else ret tt))
      by (destruct waiting; [apply frame_wg_Wait | by apply stable_ret]).
    specialize (Hs w2). by rewrite Ha in Hs. }
  apply bind_inv_Done in H as ([] & wb & Hb & H).
  pose proof (frame_expect Orchestrator DConn "Close" [] [] 1 wa) as Rb. rewrite Hb in Rb.
  apply bind_inv_Done in H as ([] & wc & Hc & H).
  pose proof (frame_emit EvClose wb) as Rc. rewrite Hc in Rc.
  apply bind_inv_Done in H as (err & wd & Hd & H).
  pose proof (frame_run_routine Client (Close client) wc) as Rd. rewrite Hd in Rd.
  apply bind_inv_Done in H as ([] & we & He & H).
  pose proof (frame_emit EvClosed wd) as Re. rewrite He in Re.
  apply bind_inv_Done in H as ([] & wf & Hf & H).
  pose proof (frame_assert_NoError err we) as Rf. rewrite Hf in Rf.
  apply bind_inv_Done in H as ([] & wg_ & Hg & H).
  exists wf. split.
  { cbn [snd] in *. transitivity wa; [done|]. transitivity wb; [done|].
    transitivity wc; [done|]. transitivity wd; [done|]. by transitivity we. }
  unfold close_events, bind, get in Hg. cbn in Hg.
  destruct (closed (events (harness wf))) eqn:Hcl; [discriminate|].
  split; [done|]. injection Hg as <-.
  apply bind_inv_Done in H as ([] & wj & Ha1 & H).
  match type of Ha1 with AssertExpectations _ ?w = _ =>
    destruct (AssertExpectations_spec DConn w) as (wj' & Hj & Hjh & _)
  end.
  rewrite Hj in Ha1. injection Ha1 as <-.
  apply bind_inv_Done in H as ([] & wk & Ha2 & H).
  destruct (AssertExpectations_spec DDialer wj') as (wk' & Hk & Hkh & _).
  rewrite Hk in Ha2. injection Ha2 as <-.
  destruct (AssertExpectations_spec DCompress wk') as (wl' & Hl & Hlh & _).
  rewrite Hl in H. injection H as <-.
  rewrite Hlh, Hkh, Hjh. reflexivity.
Qed.

Hypothesis R_hooks : forall w, R w (upd_harness install_hooks w).

Lemma frame_Test_start timeout Build : stable R (Test_start timeout Build).
Proof.
  unfold Test_start.
  apply stable_bind; try typeclasses eauto; [intros w; apply R_hooks|].
  intros _. apply stable_bind; try typeclasses eauto; [by apply stable_get|].
  intros w. apply stable_bind; try typeclasses eauto; [apply frame_emit|].
  intros _. apply stable_bind; try typeclasses eauto; [apply frame_run_routine|].
  intros _. apply stable_bind; try typeclasses eauto; [apply frame_expect|].
  intros _. apply stable_bind; try typeclasses eauto; [apply frame_emit|].
  intros _. apply stable_bind; try typeclasses eauto; [apply frame_run_routine|].
  intros err. apply stable_bind; try typeclasses eauto; [apply frame_emit|].
  intros _. apply stable_bind; try typeclasses eauto; [apply frame_assert_NoError|].
  intros _. by apply stable_ret.
Qed.

Lemma frame_Test timeout Build cb : stable R (Test timeout Build cb).
Proof.
  unfold Test. apply stable_bind; try typeclasses eauto; [apply frame_Test_start|].
  intros client. apply stable_bind; try typeclasses eauto; [apply frame_Test_call|].
  intros waiting. apply frame_Test_teardown.
Qed.

(** A run that completes went from the world it started in to the close of
    the event channel, which it found open. *)
Lemma run_reaches_close timeout Build cb w w' :
  Test timeout Build cb w = (Done tt, w') ->
  exists w3,
    R w w3 /\ closed (events (harness w3)) = false /\
    harness w' = set_events (mkChannel (chan_id (events (harness w3))) true) (harness w3).
Proof.
  unfold Test. intros H.
  apply bind_inv_Done in H as (client & w1 & H1 & H).
  pose proof (frame_Test_start timeout Build w) as R1. rewrite H1 in R1.
  apply bind_inv_Done in H as (waiting & w2 & H2 & H).
  pose proof (frame_Test_call cb w1) as R2. rewrite H2 in R2.
  apply teardown_reaches_close in H as (w3 & R3 & Hcl & Hh).
  exists w3. split; [|done]. cbn [snd] in *.
  transitivity w1; [done|]. by transitivity w2.
Qed.
End Frame.

(** ** The event channel is closed once *)

Global Instance stays_closed_refl : Reflexive stays_closed.
Proof. intros w H. exact H. Qed.
Global Instance stays_closed_trans : Transitive stays_closed.
Proof. intros w1 w2 w3 H1 H2 H. apply H2, H1, H. Qed.

Lemma completed_run_closes_channel timeout Build cb w w' :
  Test timeout Build cb w = (Done tt, w') ->
  closed (events (harness w)) = false /\ closed (events (harness w')) = true.
Proof.
  intros HT.
  apply (run_reaches_close stays_closed) in HT as (w3 & HR & Hopen & ->);
    try (intros; unfold stays_closed; cbn; tauto).
  - split; [|done]. destruct (closed (events (harness w))) eqn:Hcl; [|done].
    rewrite (HR Hcl) in Hopen. discriminate.
  - intros d method args rets times w0. unfold stays_closed. by destruct d.
Qed.

(** X5: a harness serves one run.  A run of [Test] that completes has
    found the event channel open and leaves it closed, and [Test] run again
    on the harness it leaves does not complete, whatever the client and the
    callback: at the latest it panics at its own close of the channel. *)
Theorem harness_serves_one_run :
  forall (timeout : Z) (Build Build' : CuratorFrameworkBuilder -> CuratorFramework)
         (cb cb' : callback) (w w1 : world),
    Test timeout Build cb w = (Done tt, w1) ->
    closed (events (harness w)) = false /\
    closed (events (harness w1)) = true /\
    forall x, fst (Test timeout Build' cb' w1) <> Done x.
Proof.
  intros timeout Build Build' cb cb' w w1 HT.
  destruct (completed_run_closes_channel _ _ _ _ _ HT) as [Hopen Hcl].
  split; [done|]. split; [done|].
  intros [] H2. destruct (Test timeout Build' cb' w1) as [o w2] eqn:HT2.
  cbn in H2. subst o.
  apply completed_run_closes_channel in HT2 as [Hopen2 _]. congruence.
Qed.

(** A second run after the run of a callback without parameter. *)
Lemma harness_serves_one_run_witness :
  closed (events (harness (snd (WithClient 15 (curator_Build 15) callback_plain)))) = true /\
  forall x,
    fst (Test 15 (curator_Build 15) callback_plain
           (snd (WithClient 15 (curator_Build 15) callback_plain))) <> Done x.
Proof.
  refine (proj2 (harness_serves_one_run 15 (curator_Build 15) (curator_Build 15)
    callback_plain callback_plain (fresh (newMockZookeeperClient))
    (snd (WithClient 15 (curator_Build 15) callback_plain)) _)).
  vm_compute. reflexivity.
Defined.

(** ** The configuration and the hooks *)

Global Instance configuration_kept_refl : Reflexive configuration_kept.
Proof. intros w. unfold configuration_kept. tauto. Qed.
Global Instance configuration_kept_trans : Transitive configuration_kept.
Proof.
  intros w1 w2 w3 (B1 & C1 & H1) (B2 & C2 & H2). unfold configuration_kept.
  rewrite B2, C2. auto.
Qed.

Lemma invoke_keeps_hook call :
  stable (fun c c' : mockConn => conn_log c' = conn_log c) (invoke call).
Proof.
  assert (Reflexive (fun c c' : mockConn => conn_log c' = conn_log c)) by (by intros c).
  assert (Transitive (fun c c' : mockConn => conn_log c' = conn_log c))
    by (intros a b c; congruence).
  destruct call; simpl;
    unfold mockConn_AddAuth, mockConn_Close, mockConn_Create, mockConn_Exists,
      mockConn_ExistsW, mockConn_Delete, mockConn_Get, mockConn_GetW, mockConn_Set,
      mockConn_Children, mockConn_ChildrenW, mockConn_GetACL, mockConn_SetACL,
      mockConn_Multi, mockConn_Sync;
    stable_with ltac:(simpl; reflexivity).
  intros c. reflexivity.
Qed.

Lemma Dial_keeps_hook cs st ro :
  stable (fun d d' : mockZookeeperDialer => dialer_log d' = dialer_log d)
    (mockZookeeperDialer_Dial cs st ro).
Proof.
  assert (Reflexive (fun d d' : mockZookeeperDialer => dialer_log d' = dialer_log d))
    by (by intros c).
  assert (Transitive (fun d d' : mockZookeeperDialer => dialer_log d' = dialer_log d))
    by (intros a b c; congruence).
  unfold mockZookeeperDialer_Dial. stable_with ltac:(simpl; reflexivity).
Qed.

Lemma Compress_keeps_hook path data :
  stable (fun p p' : mockCompressionProvider => compress_log p' = compress_log p)
    (mockCompressionProvider_Compress path data) /\
  stable (fun p p' : mockCompressionProvider => compress_log p' = compress_log p)
    (mockCompressionProvider_Decompress path data).
Proof.
  assert (Reflexive (fun p p' : mockCompressionProvider => compress_log p' = compress_log p))
    by (by intros c).
  assert (Transitive (fun p p' : mockCompressionProvider => compress_log p' = compress_log p))
    by (intros a b c; congruence).
  split; unfold mockCompressionProvider_Compress, mockCompressionProvider_Decompress;
    stable_with ltac:(simpl; reflexivity).
Qed.

Lemma install_hooks_once w :
  upd_harness install_hooks (upd_harness install_hooks w) = upd_harness install_hooks w.
Proof. by destruct w as [[[] [] [] ? ? ?] ? ? ?]. Qed.

Lemma bind_modify {S B} (f : S -> S) (k : unit -> M S B) s :
  bind (modify f) k s = k tt (f s).
Proof. reflexivity. Qed.

Lemma Test_start_installs_hooks timeout Build w :
  Test_start timeout Build w = Test_start timeout Build (upd_harness install_hooks w).
Proof.
  unfold Test_start. rewrite !bind_modify.
  change (upd_harness _ (upd_harness install_hooks w))
    with (upd_harness install_hooks (upd_harness install_hooks w)).
  by rewrite install_hooks_once.
Qed.

(** No step of a run changes the configuration or the channel identity,
    or takes a hook away. *)
Lemma Test_configuration_kept timeout Build cb :
  stable configuration_kept (Test timeout Build cb).
Proof.
  apply frame_Test; try typeclasses eauto;
    try (intros; unfold configuration_kept, hooked; cbn; tauto).
  - intros call w0. pose proof (invoke_keeps_hook call (conn (harness w0))) as Hk.
    unfold configuration_kept, hooked. cbn in *. rewrite Hk. tauto.
  - intros cs st ro w0. pose proof (Dial_keeps_hook cs st ro (dialer (harness w0))) as Hk.
    unfold configuration_kept, hooked. cbn in *. rewrite Hk. tauto.
  - intros path data w0.
    pose proof (proj1 (Compress_keeps_hook path data) (compress (harness w0))) as Hk.
    unfold configuration_kept, hooked. cbn in *. rewrite Hk. tauto.
  - intros path data w0.
    pose proof (proj2 (Compress_keeps_hook path data) (compress (harness w0))) as Hk.
    unfold configuration_kept, hooked. cbn in *. rewrite Hk. tauto.
  - intros d method args rets times w0. unfold configuration_kept, hooked.
    destruct d; cbn; tauto.
Qed.

(** X6: whatever the client, the callback and the outcome, a run of [Test]
    leaves the configuration of the harness and the identity of its event
    channel as they were, and leaves [t.Logf] as the hook of the
    connection, the dialer and the compression double: the hooks are set
    before anything else, and no step of the run (a call on a double, the
    programming of an expectation, the wait group, the channel) takes them
    away. *)
Theorem run_keeps_configuration_and_installs_hooks :
  forall (timeout : Z) (Build : CuratorFrameworkBuilder -> CuratorFramework)
         (cb : callback) (w : world),
    let w' := snd (Test timeout Build cb w) in
    builder (harness w') = builder (harness w) /\
    chan_id (events (harness w')) = chan_id (events (harness w)) /\
    hooked (harness w').
Proof.
  intros timeout Build cb w. cbn zeta.
  assert (Hsame : Test timeout Build cb w = Test timeout Build cb (upd_harness install_hooks w)).
  { unfold Test. rewrite !(bind_unfold (Test_start timeout Build)).
    by rewrite <- Test_start_installs_hooks. }
  rewrite Hsame.
  destruct (Test_configuration_kept timeout Build cb (upd_harness install_hooks w))
    as (HB & HC & HH).
  rewrite HB, HC. split; [by destruct w as [[] ? ? ?]|]. split; [by destruct w as [[] ? ? ?]|].
  apply HH. by destruct w as [[[] [] [] ? ? ?] ? ? ?].
Qed.

(** ** A unit of work that is never marked done *)

Global Instance unfinished_refl : Reflexive unfinished.
Proof. intros w. split; [lia | done]. Qed.
Global Instance unfinished_trans : Transitive unfinished.
Proof. intros w1 w2 w3 [L1 F1] [L2 F2]. split; [lia | auto]. Qed.

(** A step that leaves the counter and the queue alone. *)
Lemma unfinished_same w w' :
  wg (harness w') = wg (harness w) -> goroutines w' = goroutines w -> unfinished w w'.
Proof. intros Hw Hq. unfold unfinished. rewrite Hw, Hq. split; [lia | done]. Qed.

Lemma run_unfinished {G} (spawn : G -> M world unit) who (inner : G -> Prop) (p : prog G) :
  (forall g, inner g -> stable unfinished (spawn g)) ->
  never_done inner p -> stable unfinished (run spawn who p).
Proof.
  intros Hs.
  induction p as [err|msg|call k IH|cs st ro k IH|path data k IH|path data k IH
                  |d method args rets times k IH|k IH|k IH|k IH|body k IH]; simpl; intros Hnd.
  - apply stable_ret; typeclasses eauto.
  - apply stable_panic; typeclasses eauto.
  - apply stable_bind; try typeclasses eauto; [|by intros r; apply IH].
    apply frame_call_conn; try typeclasses eauto; intros; by apply unfinished_same.
  - apply stable_bind; try typeclasses eauto; [|by intros r; apply IH].
    apply frame_call_Dial; try typeclasses eauto; intros; by apply unfinished_same.
  - apply stable_bind; try typeclasses eauto; [|by intros r; apply IH].
    apply frame_call_Compress; try typeclasses eauto; intros; by apply unfinished_same.
  - apply stable_bind; try typeclasses eauto; [|by intros r; apply IH].
    apply frame_call_Decompress; try typeclasses eauto; intros; by apply unfinished_same.
  - apply stable_bind; try typeclasses eauto; [|by intros _; apply IH].
    apply frame_expect; try typeclasses eauto; intros; apply unfinished_same; try done.
    match goal with |- context [program ?d0 _ _ _ _] => by destruct d0 end.
  - apply stable_bind; try typeclasses eauto; [|by intros _; apply IH].
    intros w. split; [cbn; lia | done].
  - done.
  - apply stable_bind; try typeclasses eauto; [|by intros _; apply IH].
    apply frame_close_events; try typeclasses eauto; intros; by apply unfinished_same.
  - destruct Hnd as [Hb Hk].
    apply stable_bind; try typeclasses eauto; [by apply Hs | by intros _; apply IH].
Qed.

Lemma run_goroutine_unfinished g :
  goroutine_never_done g -> stable unfinished (run_goroutine g).
Proof. apply run_unfinished. intros []. Qed.

Lemma run_routine_unfinished who p :
  routine_never_done p -> stable unfinished (run_routine who p).
Proof.
  apply run_unfinished. intros g Hg w. split; [cbn; lia|].
  cbn. intros F. apply Forall_app. split; [done|]. by constructor.
Qed.

(** With a unit pending and nobody to mark it done, the wait does not
    return. *)
Lemma wait_loop_blocked queue w :
  0 < wg (harness w) -> Forall goroutine_never_done queue ->
  forall x, fst (wait_loop queue w) <> Done x.
Proof.
  revert w. induction queue as [|g rest IH]; intros w Hpos Hq x; simpl.
  - rewrite bool_decide_eq_false_2 by lia. done.
  - rewrite bool_decide_eq_false_2 by lia.
    inversion Hq as [|? ? Hg Hrest]; subst.
    rewrite bind_modify, bind_unfold.
    pose proof (run_goroutine_unfinished g Hg (set_goroutines rest w)) as [Hle _].
    destruct (run_goroutine g (set_goroutines rest w)) as [[err|f|] w1]; [|done|done].
    cbn [snd] in Hle. apply IH; [|done]. cbn in Hle. lia.
Qed.

Lemma wg_Wait_blocked w :
  0 < wg (harness w) -> Forall goroutine_never_done (goroutines w) ->
  forall x, fst (wg_Wait w) <> Done x.
Proof.
  intros Hpos Hq x. unfold wg_Wait. rewrite bind_unfold.
  pose proof (wait_loop_blocked (goroutines w) w Hpos Hq) as Hb.
  destruct (wait_loop (goroutines w) w) as [[[]|f|] w1]; [|done|done].
  by destruct (Hb tt).
Qed.

(** The steps of a run that stops short of the last block's close. *)
Lemma no_close_steps (ev : list event) :
  Forall (fun e => negb (is_client_close e) && negb (is_orchestrator_expect e) = true) ev ->
  count is_client_close ev = 0%nat /\ count is_orchestrator_expect ev = 0%nat.
Proof.
  intros F. split; apply count_zero; (eapply Forall_impl; [exact F|]); intros e He;
    apply andb_prop in He as [H1 H2]; [by destruct (is_client_close e)
                                      | by destruct (is_orchestrator_expect e)].
Qed.

(** X7: a callback that takes a completion-signal handle and never marks a
    unit done, no more than the goroutines it starts, blocks the run: the
    run does not complete (the wait does not return, unless the run is
    aborted before), the client is never closed and the orchestrator
    programs nothing but the expected dial. *)
Theorem unfinished_unit_blocks_the_run :
  forall (timeout : Z) (b : CuratorFrameworkBuilder) (params : list go_type) (body : routine),
    (0 < wait_params params)%nat ->
    routine_never_done body ->
    let r := Test timeout (curator_Build timeout) (Func params body) (fresh (harness_with b)) in
    (forall x, fst r <> Done x) /\
    count is_client_close (trace (snd r)) = 0%nat /\
    count is_orchestrator_expect (trace (snd r)) = 1%nat.
Proof.
  intros timeout b params body Hk Hnd. cbn zeta.
  unfold Test. rewrite (bind_Done _ _ _ _ _ (Test_start_curator timeout _ b eq_refl)).
  set (P := fun e => negb (is_client_close e) && negb (is_orchestrator_expect e)).
  assert (HC : forall who e, who <> Orchestrator -> made_by who e = true -> P e = true).
  { intros who [] Hw; simpl; try done; intros ->%bool_decide_eq_true; by destruct who. }
  pose proof (stable_Test_call P (Func params body) eq_refl (fun _ => eq_refl) eq_refl
                (fun e => HC Callback e ltac:(done)) (started timeout b)) as Hev2.
  rewrite bind_unfold.
  destruct (Test_call (Func params body) (started timeout b)) as [o w2] eqn:Hcall.
  cbn [snd] in Hev2. destruct Hev2 as ((ev2 & Htr2 & F2) & _).
  destruct (no_close_steps ev2 F2) as [Hc2 He2].
  assert (Hstop : count is_client_close (trace w2) = 0%nat /\
                  count is_orchestrator_expect (trace w2) = 1%nat).
  { rewrite Htr2, !count_app, Hc2, He2. by split. }
  destruct o as [waiting|f|]; [|by split|by split].
  (* the callback returned: the wait is entered with a unit pending *)
  assert (Hw2 : waiting = true /\ 0 < wg (harness w2) /\
                Forall goroutine_never_done (goroutines w2)).
  { simpl in Hcall. apply bind_inv_Done in Hcall as (r & wr & Hres & Hcall).
    rewrite resolve_spec in Hres by done. injection Hres as <- <-.
    cbn [fst snd] in Hcall.
    apply bind_inv_Done in Hcall as ([] & wc & HCall & Hret). injection Hret as <- <-.
    unfold Call_ in HCall. destruct (valid_args _) as [vs|]; [|discriminate].
    apply bind_inv_Done in HCall as ([] & wi & Hemit & HCall).
    rewrite emit_eq in Hemit. injection Hemit as <-.
    apply bind_inv_Done in HCall as (err & wb & Hrun & Hemit).
    rewrite emit_eq in Hemit. injection Hemit as <-.
    match type of Hrun with run_routine _ _ ?w0 = _ =>
      pose proof (run_routine_unfinished Callback body Hnd w0) as [Hle Hq]
    end.
    rewrite Hrun in Hle, Hq. cbn in Hle, Hq.
    split; [by apply bool_decide_eq_true_2|]. split; [cbn; lia|]. cbn. by apply Hq. }
  destruct Hw2 as (-> & Hpos & Hq).
  unfold Test_teardown. rewrite bind_unfold.
  pose proof (wg_Wait_blocked w2 Hpos Hq) as Hb.
  pose proof (stable_wg_Wait P eq_refl (fun e => HC Background e ltac:(done)) w2) as Hev3.
  destruct (wg_Wait w2) as [[[]|f|] w3]; [by destruct (Hb tt)| |];
    cbn [fst snd] in *; destruct Hev3 as ((ev3 & Htr3 & F3) & _);
    destruct (no_close_steps ev3 F3) as [Hc3 He3];
    (split; [done|]); rewrite Htr3, !count_app, Hc3, He3; lia.
Qed.

(** A callback that takes a handle and returns at once. *)
Lemma unfinished_unit_blocks_the_run_witness :
  (forall x, fst (WithClient 15 (curator_Build 15) (Func [T_ptr_WaitGroup] (Return_ None))) <>
             Done x) /\
  count is_client_close
    (trace (snd (WithClient 15 (curator_Build 15) (Func [T_ptr_WaitGroup] (Return_ None))))) =
    0%nat /\
  count is_orchestrator_expect
    (trace (snd (WithClient 15 (curator_Build 15) (Func [T_ptr_WaitGroup] (Return_ None))))) =
    1%nat.
Proof.
  apply (unfinished_unit_blocks_the_run 15 (builder newMockZookeeperClient)
           [T_ptr_WaitGroup] (Return_ None)).
  - vm_compute. lia.
  - exact I.
Defined.

(** ** A run whose callback returns *)

Lemma expect_eq who d method args rets times w :
  expect who d method args rets times w =
    (Done tt, mkWorld (program d method args rets times (harness w)) (t w) (goroutines w)
                (trace w ++ [EvExpect who d method args])).
Proof. reflexivity. Qed.

Lemma AssertExpectations_eq d w :
  AssertExpectations d w =
    (Done tt,
     mkWorld (harness w)
       (mkT (errors (t w) ++
             unmet_report (match d with
                           | DConn => conn_Mock (conn (harness w))
                           | DDialer => dialer_Mock (dialer (harness w))
                           | DCompress => compress_Mock (compress (harness w))
                           end)))
       (goroutines w) (trace w)).
Proof.
  unfold AssertExpectations, bind, get, unmet_report. cbn [fst snd].
  destruct (unmet _); [|reflexivity].
  destruct w as [h [errs] q tr]. cbn. by rewrite app_nil_r.
Qed.

Lemma unmet_report_nil m : unmet_report m = [] <-> unmet m = [].
Proof. unfold unmet_report. by destruct (unmet m). Qed.

(** The close of the connection right after the orchestrator has programmed
    it is answered. *)
Lemma Close_answered m0 ops hook out :
  exists m',
    invoke CClose (mkConn (On "Close" [] [] 1 m0) ops hook out) =
      (Done RClosed, mkConn m' ops hook out).
Proof.
  pose proof (MethodCalled_last "Close" [] [] m0) as [[v Hv] _]. cbn zeta in Hv.
  unfold invoke, fmap_M, mockConn_Close, bind, Called. cbn [the_mock with_mock mockConn_HasMock
    conn_Mock operations conn_log conn_out].
  destruct (MethodCalled "Close" [] (On "Close" [] [] 1 m0)) as [o m'].
  cbn in Hv. subst o. by exists m'.
Qed.

(** The last block without a wait, for the client that closes the
    connection once: it completes when the event channel is open, and the
    failures it adds are those of the three checks of the expectations. *)
Lemma teardown_without_wait cs st ro w2 :
  closed (events (harness w2)) = false ->
  exists w',
    Test_teardown (client_dialing cs st ro) false w2 = (Done tt, w') /\
    errors (t w') =
      errors (t w2) ++ unmet_report (conn_Mock (conn (harness w'))) ++
      unmet_report (dialer_Mock (dialer (harness w'))) ++
      unmet_report (compress_Mock (compress (harness w'))) /\
    closed (events (harness w')) = true.
Proof.
  intros Hopen. destruct w2 as [[[m0 ops hook out] d p bl ev n] tt_ q tr].
  cbn in Hopen.
  destruct (Close_answered m0 ops hook out) as (m' & Hclose).
  unfold Test_teardown.
  rewrite (bind_Done _ _ _ _ _ (eq_refl : ret tt _ = (Done tt, _))).
  rewrite (bind_Done _ _ _ _ _ (expect_eq _ _ _ _ _ _ _)).
  rewrite (bind_Done _ _ _ _ _ (emit_eq _ _)).
  cbn [harness t goroutines trace program conn with_mock mockConn_HasMock set_conn dialer
       compress builder events wg conn_Mock operations conn_log conn_out].
  assert (Hrun : forall tr0,
    run_routine Client (Close (client_dialing cs st ro))
      (mkWorld (mkZookeeperClient (mkConn (On "Close" [] [] 1 m0) ops hook out) d p bl ev n)
         tt_ q tr0) =
      (Done None,
       mkWorld (mkZookeeperClient (mkConn m' ops hook out) d p bl ev n) tt_ q
         (tr0 ++ [EvCall Client DConn "Close" []]))).
  { intros tr0. unfold run_routine, client_dialing. cbn [Close run].
    unfold call_conn. rewrite bind_unfold, bind_unfold, emit_eq. unfold on_conn.
    cbn [harness conn]. rewrite Hclose. reflexivity. }
  rewrite (bind_Done _ _ _ _ _ (Hrun _)).
  rewrite (bind_Done _ _ _ _ _ (emit_eq _ _)).
  rewrite (bind_Done _ _ _ _ _ (eq_refl : assert_NoError None _ = (Done tt, _))).
  cbn [harness t goroutines trace].
  assert (Hce : forall h tr0, closed (events h) = false ->
    close_events Orchestrator (mkWorld h tt_ q tr0) =
      (Done tt, mkWorld (set_events (mkChannel (chan_id (events h)) true) h) tt_ q
                  (tr0 ++ [EvChanClose Orchestrator]))).
  { intros h tr0 Hh. unfold close_events, bind, get. cbn. by rewrite Hh. }
  rewrite (bind_Done _ _ _ _ _
    (Hce (mkZookeeperClient (mkConn m' ops hook out) d p bl ev n) _ Hopen)).
  rewrite (bind_Done _ _ _ _ _ (AssertExpectations_eq _ _)).
  rewrite (bind_Done _ _ _ _ _ (AssertExpectations_eq _ _)).
  rewrite AssertExpectations_eq.
  eexists. split; [reflexivity|]. cbn. split; [|done]. by rewrite <- !app_assoc.
Qed.

Lemma recognized_none_unknown params :
  Forall (fun ty => ty ∈ recognized) params ->
  filter (fun ty => ty ∉ recognized) params = [].
Proof.
  induction 1 as [|ty params Hty _ IH]; [done|].
  rewrite filter_cons_False by (intros Hn; by apply Hn). exact IH.
Qed.

Lemma valid_args_recognized params :
  Forall (fun ty => ty ∈ recognized) params ->
  valid_args (handle_for <$> params) = Some (handles params) /\
  Forall2 (fun ty v => handle_for ty = Some v) params (handles params).
Proof.
  unfold handles. induction 1 as [|ty params Hty _ [IH1 IH2]]; [by split|].
  rewrite fmap_cons. cbn [valid_args omap list_omap]. rewrite IH1.
  destruct (handle_for ty) as [v|] eqn:Ev.
  - split; [done|]. by constructor.
  - apply handle_for_None in Ev. done.
Qed.

Global Instance reports_kept_refl : Reflexive reports_kept.
Proof. by intros w. Qed.
Global Instance reports_kept_trans : Transitive reports_kept.
Proof. intros w1 w2 w3. unfold reports_kept. congruence. Qed.

(** Handed-in code reports nothing to the test handle. *)
Lemma run_routine_reports_nothing who p : stable reports_kept (run_routine who p).
Proof.
  apply frame_run_routine; try typeclasses eauto; intros; reflexivity.
Qed.

(** The second block for parameters that are all recognized and hold no
    completion-signal handle, when the callback returns. *)
Lemma Test_call_returns timeout b params body err w2 :
  Forall (fun ty => ty ∈ recognized) params ->
  wait_params params = 0%nat ->
  run_routine Callback body (entered timeout b params) = (Done err, w2) ->
  Test_call (Func params body) (started timeout b) =
    (Done false, mkWorld (harness w2) (t w2) (goroutines w2) (trace w2 ++ [EvReturned])).
Proof.
  intros Hrec Hk Hrun. unfold Test_call.
  rewrite (bind_Done _ _ _ _ _ (resolve_spec params false (started timeout b) eq_refl)).
  cbn [fst snd]. rewrite Hk, (recognized_none_unknown params Hrec).
  unfold Call_. rewrite (proj1 (valid_args_recognized params Hrec)).
  match goal with |- _ ?w0 = _ => change w0 with (started timeout b) end.
  rewrite bind_unfold, bind_unfold, emit_eq.
  change (mkWorld _ _ _ (trace (started timeout b) ++ [EvInvoke (handles params)]))
    with (entered timeout b params).
  rewrite bind_unfold, Hrun, emit_eq. reflexivity.
Qed.



(** ** The arguments of the callback *)

(** The trace of the second block for parameters that are all recognized,
    wherever the callback stops. *)
Lemma Test_call_invokes_with_handles params body w :
  chan_id (events (harness w)) = 0%nat ->
  Forall (fun ty => ty ∈ recognized) params ->
  exists during,
    trace (snd (Test_call (Func params body) w)) =
      trace w ++ replicate (wait_params params) (EvWgAdd Orchestrator) ++
      [EvInvoke (handles params)] ++ during /\
    Forall (fun e => is_invoke e = false) during.
Proof.
  intros Hid Hrec. unfold Test_call.
  rewrite (bind_Done _ _ _ _ _ (resolve_spec params false w Hid)). cbn [fst snd].
  unfold Call_. rewrite (proj1 (valid_args_recognized params Hrec)).
  rewrite bind_unfold, bind_unfold, emit_eq.
  match goal with |- context [bind (run_routine Callback body) _ ?w0] =>
    pose proof (stable_run_routine (made_by Callback) Callback body (fun e H => H) w0) as Hev;
    rewrite (bind_unfold (run_routine Callback body));
    destruct (run_routine Callback body w0) as [o wb]
  end.
  cbn [snd] in Hev. destruct Hev as ((during & Htr & Fd) & _). cbn [trace] in Htr.
  assert (Fi : Forall (fun e => is_invoke e = false) during).
  { eapply Forall_impl; [exact Fd|]. by intros []. }
  destruct o as [err|f|].
  - exists (during ++ [EvReturned]). rewrite emit_eq. cbn. rewrite Htr.
    split; [by rewrite <- !app_assoc|]. apply Forall_app. split; [done|]. by constructor.
  - exists during. cbn. rewrite Htr. split; [by rewrite <- !app_assoc | done].
  - exists during. cbn. rewrite Htr. split; [by rewrite <- !app_assoc | done].
Qed.

(** X9: when the parameters of the callback are all of recognized types,
    the callback is invoked once, after the registration of the units of
    work, with one argument per parameter, in order: the handle of the
    parameter's type.  The connection and the channel it is handed are the
    ones the expected dial returns to the client. *)
Theorem callback_receives_the_handle_of_each_parameter_type :
  forall (timeout : Z) (b : CuratorFrameworkBuilder) (params : list go_type) (body : routine),
    Forall (fun ty => ty ∈ recognized) params ->
    let r := Test timeout (curator_Build timeout) (Func params body) (fresh (harness_with b)) in
    (exists rest,
       trace (snd r) =
         start_events timeout b ++ replicate (wait_params params) (EvWgAdd Orchestrator) ++
         [EvInvoke (handles params)] ++ rest /\
       count is_invoke rest = 0%nat) /\
    Forall2 (fun ty v => handle_for ty = Some v) params (handles params) /\
    handle_for T_ZookeeperConnection = ReturnArguments (dial_consumed timeout b) !! 0%nat /\
    handle_for T_ptr_mockConn = ReturnArguments (dial_consumed timeout b) !! 0%nat /\
    handle_for T_chan_Event = ReturnArguments (dial_consumed timeout b) !! 1%nat.
Proof.
  intros timeout b params body Hrec. cbn zeta.
  split; [|split; [exact (proj2 (valid_args_recognized params Hrec)) | by repeat split]].
  unfold Test. rewrite (bind_Done _ _ _ _ _ (Test_start_curator timeout _ b eq_refl)).
  destruct (Test_call_invokes_with_handles params body (started timeout b) eq_refl Hrec)
    as (during & Htr & Fd).
  rewrite bind_unfold.
  destruct (Test_call (Func params body) (started timeout b)) as [o w2].
  cbn [snd] in Htr. cbn [trace started] in Htr.
  destruct o as [waiting|f|]; [| exists during; split; [done | by apply count_zero]
                                | exists during; split; [done | by apply count_zero]].
  set (P := fun e => negb (is_invoke e)).
  assert (HC : forall who e, made_by who e = true -> P e = true) by (by intros who []).
  pose proof (stable_Test_teardown P (curator_Build timeout b) waiting eq_refl
                (HC Background) eq_refl eq_refl eq_refl (HC Client) eq_refl w2) as Hev.
  destruct Hev as ((ev & Htr3 & F3) & _).
  exists (during ++ ev). rewrite Htr3, Htr. split; [by rewrite <- !app_assoc|].
  rewrite count_app, (count_zero _ during Fd). apply count_zero.
  eapply Forall_impl; [exact F3|]. intros e He. unfold P in He. by destruct (is_invoke e).
Qed.

(** A callback that takes the event channel, the connection double by its
    interface and the client. *)
Lemma callback_receives_the_handle_of_each_parameter_type_witness :
  exists rest,
    trace (snd (WithClient 15 (curator_Build 15)
                  (Func [T_chan_Event; T_ZookeeperConnection; T_CuratorFramework]
                     (Return_ None)))) =
      start_events 15 (builder newMockZookeeperClient) ++
      [EvInvoke [VChan 0%nat; VConn; VFramework]] ++ rest /\
    count is_invoke rest = 0%nat.
Proof.
  refine (proj1 (callback_receives_the_handle_of_each_parameter_type 15
    (builder newMockZookeeperClient)
    [T_chan_Event; T_ZookeeperConnection; T_CuratorFramework] (Return_ None) _)).
  repeat constructor.
Defined.

(** ** A callback that is no function *)


(** ** The expected dial is programmed once *)

Lemma started_dialer_answers_no_more timeout b args :
  MethodCalled "Dial" args (dialer_Mock (dialer (harness (started timeout b)))) =
    (Panic (if bool_decide (dial_args timeout b = args)
            then OverCalled "Dial" args else UnexpectedCall "Dial" args),
     dialer_Mock (dialer (harness (started timeout b)))).
Proof.
  rewrite MethodCalled_unanswered.
  - cbn [started harness dialer dialer_Mock ExpectedCalls existsb dial_consumed matches Method
         Arguments].
    rewrite orb_false_r. unfold matches, dial_consumed. cbn [Method Arguments].
    by rewrite (bool_decide_eq_true_2 ("Dial" = "Dial")) by done.
  - unfold next_expected.
    cbn [started harness dialer dialer_Mock ExpectedCalls findExpectedCall dial_consumed
         Repeatability].
    rewrite (bool_decide_eq_false_2 (-1 < -1)) by lia.
    by destruct (matches _ _ _).
Qed.

(** X11: the expected dial serves one dial.  In the world the first block
    of [Test] leaves, a further dial by anyone (the client, the callback, a
    goroutine) is answered by no expectation and panics: as over-called
    with the configured triple, as unexpected with any other; the dialer
    double stays as it is. *)
Theorem expected_dial_serves_one_dial :
  forall (timeout : Z) (b : CuratorFrameworkBuilder) (who : actor)
         (cs : string) (st : Z) (ro : bool),
    Test_start timeout (curator_Build timeout) (fresh (harness_with b)) =
      (Done (curator_Build timeout b), started timeout b) /\
    call_Dial who cs st ro (started timeout b) =
      (Panic (if bool_decide ((cs, st, ro) = (ConnectionString b, timeout, CanBeReadOnly b))
              then OverCalled "Dial" [VString cs; VDuration st; VBool ro]
              else UnexpectedCall "Dial" [VString cs; VDuration st; VBool ro]),
       mkWorld (harness (started timeout b)) (mkT []) []
         (start_events timeout b ++
          [EvCall who DDialer "Dial" [VString cs; VDuration st; VBool ro]])).
Proof.
  intros timeout b who cs st ro. split; [by apply Test_start_curator|].
  unfold call_Dial. rewrite bind_unfold, emit_eq. unfold on_dialer.
  unfold mockZookeeperDialer_Dial. rewrite bind_unfold. unfold Called.
  cbn [harness the_mock mockZookeeperDialer_HasMock].
  rewrite started_dialer_answers_no_more. cbn.
  f_equal. f_equal. unfold dial_args.
  case_bool_decide as H1; case_bool_decide as H2; try done.
  - injection H1 as <- <- <-. done.
  - injection H2 as -> -> ->. done.
Qed.

(** ** Every unknown parameter *)

(** X12: the loop over the parameters of the callback does not stop at an
    unknown type.  When some parameter is of no recognized type, every such
    parameter is reported, by its type name and in the order of the
    parameters, and every completion-signal handle among the parameters is
    registered (the counter is left at their number); then the call aborts
    the run, right after the first block and the registrations. *)
Theorem every_unknown_parameter_is_reported :
  forall (timeout : Z) (b : CuratorFrameworkBuilder) (params : list go_type) (body : routine),
    Exists (fun ty => ty ∉ recognized) params ->
    Test timeout (curator_Build timeout) (Func params body) (fresh (harness_with b)) =
      (Panic ZeroValueArgument,
       mkWorld (set_wg (Z.of_nat (wait_params params)) (harness (started timeout b)))
         (mkT (unknown_arg <$> filter (fun ty => ty ∉ recognized) params))
         []
         (start_events timeout b ++ replicate (wait_params params) (EvWgAdd Orchestrator))).
Proof.
  intros timeout b params body Hex. unfold Test.
  rewrite (bind_Done _ _ _ _ _ (Test_start_curator timeout _ b eq_refl)).
  unfold Test_call, bind. rewrite resolve_spec by done. cbn [fst snd].
  unfold Call_. rewrite (proj2 (valid_args_handles params) Hex). reflexivity.
Qed.

(** An unknown type, a completion-signal handle, another unknown type. *)
Lemma every_unknown_parameter_is_reported_witness :
  errors (t (snd (WithClient 15 (curator_Build 15)
                    (Func [T_other "int"; T_ptr_WaitGroup; T_CompressionProvider]
                       (Return_ None))))) =
    [unknown_arg (T_other "int"); unknown_arg T_CompressionProvider] /\
  wg (harness (snd (WithClient 15 (curator_Build 15)
                      (Func [T_other "int"; T_ptr_WaitGroup; T_CompressionProvider]
                         (Return_ None))))) = 1.
Proof.
  pose proof (every_unknown_parameter_is_reported 15 (builder newMockZookeeperClient)
    [T_other "int"; T_ptr_WaitGroup; T_CompressionProvider] (Return_ None)) as H.
  unfold WithClient. change (fresh newMockZookeeperClient)
    with (fresh (harness_with (builder newMockZookeeperClient))).
  rewrite H.
  - split; reflexivity.
  - apply Exists_cons_hd. unfold recognized. intros Hin.
    repeat (apply elem_of_cons in Hin as [Hin|Hin]; [discriminate Hin|]).
    by apply elem_of_nil in Hin.
Defined.

(** ** The hooks of the other doubles *)

Section Inert.
Context {S : Type} `{HasMock S} `{HasLog S}.
Hypothesis mock_with_mock : forall m (s : S), the_mock (with_mock m s) = m.
Hypothesis mock_with_out : forall o (s : S), the_mock (with_out o s) = the_mock s.

Lemma inert_ret {A} (a : A) : inert (@ret S A a).
Proof. by intros s1 s2 E. Qed.

Lemma inert_panic {A} f : inert (@panic S A f).
Proof. by intros s1 s2 E. Qed.

Lemma inert_bind {A B} (m : M S A) (k : A -> M S B) :
  inert m -> (forall a, inert (k a)) -> inert (bind m k).
Proof.
  intros Hm Hk s1 s2 E. unfold bind. destruct (Hm s1 s2 E) as [Ho Hs].
  destruct (m s1) as [o1 x1], (m s2) as [o2 x2]. cbn in *. subst o2.
  destruct o1; cbn; auto. by apply Hk.
Qed.

Lemma inert_args_Get args i : inert (@args_Get S args i).
Proof. unfold args_Get. destruct (args !! i); [apply inert_ret | apply inert_panic]. Qed.

Lemma inert_args_String args i : inert (@args_String S args i).
Proof.
  apply inert_bind; [apply inert_args_Get|].
  intros []; first [apply inert_ret | apply inert_panic].
Qed.

Lemma inert_args_Bool args i : inert (@args_Bool S args i).
Proof.
  apply inert_bind; [apply inert_args_Get|].
  intros []; first [apply inert_ret | apply inert_panic].
Qed.

Lemma inert_args_Error args i : inert (@args_Error S args i).
Proof.
  apply inert_bind; [apply inert_args_Get|].
  intros []; first [apply inert_ret | apply inert_panic].
Qed.

Lemma inert_Called method args : inert (Called (S := S) method args).
Proof.
  intros s1 s2 E. unfold Called. rewrite E.
  destruct (MethodCalled _ _ _) as [o m']. cbn. by rewrite !mock_with_mock.
Qed.

Lemma inert_log_if_set format args : inert (log_if_set (S := S) format args).
Proof.
  intros s1 s2 E. unfold log_if_set.
  destruct (the_log s1), (the_log s2); cbn; rewrite ?mock_with_out; by split.
Qed.
End Inert.

Ltac inert_body :=
  repeat first
    [ apply inert_ret | apply inert_panic | apply inert_args_Get | apply inert_args_String
    | apply inert_args_Bool | apply inert_args_Error
    | apply inert_Called; by intros
    | apply inert_log_if_set; by intros
    | apply inert_bind; [| intros ?] ].

Lemma Dial_inert cs st ro : inert (mockZookeeperDialer_Dial cs st ro).
Proof. unfold mockZookeeperDialer_Dial. inert_body. Qed.

Lemma Compress_inert path data : inert (mockCompressionProvider_Compress path data).
Proof. unfold mockCompressionProvider_Compress. inert_body. Qed.

Lemma Decompress_inert path data : inert (mockCompressionProvider_Decompress path data).
Proof. unfold mockCompressionProvider_Decompress. inert_body. Qed.

Lemma Ensure_inert client : inert (mockEnsurePath_Ensure client).
Proof. unfold mockEnsurePath_Ensure. inert_body. Qed.

Lemma ExcludingLast_inert : inert mockEnsurePath_ExcludingLast.
Proof. unfold mockEnsurePath_ExcludingLast. inert_body. Qed.

Lemma HelperEnsure_inert client path makeLastNode :
  inert (mockEnsurePathHelper_Ensure client path makeLastNode).
Proof. unfold mockEnsurePathHelper_Ensure. inert_body. Qed.

(** Runs the two calls side by side, given that they agree. *)
Ltac side_by_side Hagree :=
  let Ho := fresh "Ho" in
  let Hm := fresh "Hm" in
  pose proof Hagree as [Ho Hm];
  unfold perform, fmap_M, lift_field, bind, same_but_hooks;
  cbn [b_closeable b_tracer b_sleeper b_conn b_dialer b_compress b_acl b_ensure b_helper];
  repeat match goal with
  | |- context [let '(_, _) := ?m ?s in _] =>
      let o := fresh "o" in let x := fresh "x" in destruct (m s) as [o x]
  end;
  cbn in Ho, Hm; subst;
  match goal with
  | |- context [match ?o with Done _ => _ | Panic _ => _ | Hang => _ end] =>
      destruct o as [[]|?|] || destruct o
  end; cbn; repeat split; congruence.

(** X13: on every double that carries a hook (the connection, the dialer,
    the compression provider, the two path helpers), the hook is inert: for
    every call, two benches that differ only in the hooks and in what was
    written through them return the same outcome and are left differing
    only there. *)
Theorem hooks_are_inert_on_every_double :
  forall (call : bench_call) (b1 b2 : bench),
    same_but_hooks b1 b2 ->
    fst (perform call b1) = fst (perform call b2) /\
    same_but_hooks (snd (perform call b1)) (snd (perform call b2)).
Proof.
  intros call
    [[mc cr] [mt] [ms] [mo rec lg out] [md ld od] [mp lp op] [ma] [me le oe] [mh lh oh]]
    [[mc2 cr2] [mt2] [ms2] [mo2 rec2 lg2 out2] [md2 ld2 od2] [mp2 lp2 op2] [ma2]
     [me2 le2 oe2] [mh2 lh2 oh2]] H.
  unfold same_but_hooks in H. cbn in H.
  destruct H as ([= <- <-] & [= <-] & [= <-] & <- & <- & <- & <- & [= <-] & <- & <-).
  destruct call as [|name d|name n|time|call|cs st ro|path data|path data| |path|client|
                    |client path makeLastNode].
  - side_by_side (conj (eq_refl (fst (mockCloseable_Close (mkCloseable mc cr))))
                       (eq_refl (snd (mockCloseable_Close (mkCloseable mc cr))))).
  - side_by_side (conj (eq_refl (fst (mockTracerDriver_AddTime name d (mkTracerDriver mt))))
                       (eq_refl (snd (mockTracerDriver_AddTime name d (mkTracerDriver mt))))).
  - side_by_side (conj (eq_refl (fst (mockTracerDriver_AddCount name n (mkTracerDriver mt))))
                       (eq_refl (snd (mockTracerDriver_AddCount name n (mkTracerDriver mt))))).
  - side_by_side (conj (eq_refl (fst (mockRetrySleeper_SleepFor time (mkRetrySleeper ms))))
                       (eq_refl (snd (mockRetrySleeper_SleepFor time (mkRetrySleeper ms))))).
  - destruct (invoke_agrees call (mkConn mo rec lg out) (mkConn mo rec lg2 out2))
      as [Ho [Hm Hops]]; [by split|].
    unfold perform, fmap_M, lift_field, bind, same_but_hooks. cbn [b_conn].
    destruct (invoke call (mkConn mo rec lg out)) as [o1 c1],
             (invoke call (mkConn mo rec lg2 out2)) as [o2 c2].
    cbn in Ho, Hm, Hops. subst o2. destruct o1; cbn; repeat split; congruence.
  - side_by_side (Dial_inert cs st ro (mkDialer md ld od) (mkDialer md ld2 od2) eq_refl).
  - side_by_side (Compress_inert path data (mkCompression mp lp op) (mkCompression mp lp2 op2)
                    eq_refl).
  - side_by_side (Decompress_inert path data (mkCompression mp lp op)
                    (mkCompression mp lp2 op2) eq_refl).
  - side_by_side (conj (eq_refl (fst (mockACLProvider_GetDefaultAcl (mkACLProvider ma))))
                       (eq_refl (snd (mockACLProvider_GetDefaultAcl (mkACLProvider ma))))).
  - side_by_side (conj (eq_refl (fst (mockACLProvider_GetAclForPath path (mkACLProvider ma))))
                       (eq_refl (snd (mockACLProvider_GetAclForPath path (mkACLProvider ma))))).
  - side_by_side (Ensure_inert client (mkEnsurePath me le oe) (mkEnsurePath me le2 oe2) eq_refl).
  - side_by_side (ExcludingLast_inert (mkEnsurePath me le oe) (mkEnsurePath me le2 oe2) eq_refl).
  - side_by_side (HelperEnsure_inert client path makeLastNode (mkEnsurePathHelper mh lh oh)
                    (mkEnsurePathHelper mh lh2 oh2) eq_refl).
Qed.

(** [Compress] on a bench without hooks and on one whose compression
    double writes through [t.Logf]. *)
Lemma hooks_are_inert_on_every_double_witness :
  fst (perform (BCompress "/a" [])
         (set_b_compress (mkCompression (programmed "Compress" [VString "/a"; VBytes []]
                                           [VBytes []; VNil] 1) None []) new_bench)) =
  fst (perform (BCompress "/a" [])
         (set_b_compress (mkCompression (programmed "Compress" [VString "/a"; VBytes []]
                                           [VBytes []; VNil] 1) (Some Logf) []) new_bench)).
Proof.
  refine (proj1 (hooks_are_inert_on_every_double (BCompress "/a" [])
    (set_b_compress (mkCompression (programmed "Compress" [VString "/a"; VBytes []]
                                      [VBytes []; VNil] 1) None []) new_bench)
    (set_b_compress (mkCompression (programmed "Compress" [VString "/a"; VBytes []]
                                      [VBytes []; VNil] 1) (Some Logf) []) new_bench) _)).
  unfold same_but_hooks. cbn. repeat split.
Defined.

(** ** Every method reads its results slot by slot *)

Ltac run_reads :=
  cbn -[comma_ok assert_bytes assert_Stat assert_chan assert_strings assert_ACLs
        assert_responses assert_ZookeeperConnection assert_EnsurePath MethodCalled received].

Ltac split_reads :=
  repeat match goal with
  | |- context [match ?v with VNil => _ | _ => _ end] => is_var v; destruct v; run_reads
  end.

(** X14: on every double, a call that an expectation answers reads the
    canned values slot by slot, in the order of its results, after the
    expectation is consumed: a missing slot panics; a slot read by a typed
    accessor ([String], [Bool], [Error]) or by the unchecked assertion of
    the ACL provider panics on a value of another type; a slot read by a
    checked assertion yields the value, or the zero value when the type
    differs; the first panic is the outcome, and without one the caller
    receives the values read. *)
Theorem results_are_read_slot_by_slot :
  forall (call : bench_call) (b : bench) (e : Call),
    next_expected (bench_mock call b) (bench_method call) (bench_args call) = Some e ->
    (call = BClose -> crash (b_closeable b) = false) ->
    fst (perform call b) = read_from 0 (bench_signature call) (ReturnArguments e) /\
    MethodCalled (bench_method call) (bench_args call) (bench_mock call b) =
      (Done (ReturnArguments e), bench_mock call (snd (perform call b))).
Proof.
  intros call b e He Hc.
  destruct (next_expected_spec _ _ _ _ He) as (i & _ & _ & _ & _ & _ & HC).
  destruct e as [me ae rets rp tc]. cbn [ReturnArguments] in *.
  destruct b as [[mc cr] [mt] [ms] [mo rec lg out] [md ld od] [mp lp op] [ma]
                 [mee le oe] [mh lh oh]].
  destruct call as [| | | |call| | | | | | | |]; [| | | |destruct call| | | | | | | |];
    cbn [bench_signature conn_signature bench_mock bench_method bench_args call_method
         call_args b_closeable b_tracer b_sleeper b_conn b_dialer b_compress b_acl b_ensure
         b_helper closeable_Mock tracer_Mock sleeper_Mock conn_Mock dialer_Mock compress_Mock
         acl_Mock ensure_Mock helper_Mock crash] in *;
    try (specialize (Hc eq_refl); subst cr);
    destruct rets as [|v0 [|v1 [|v2 [|v3 rest]]]];
    unfold_methods;
    unfold fmap_M, args_String, args_Bool, args_Error, args_Get, bind, get, modify, Called,
      log_if_set, ret, panic, must, read_slot;
    run_reads; rewrite HC; run_reads;
    rewrite ?received_bytes, ?received_Stat, ?received_chan, ?received_strings,
      ?received_ACLs, ?received_responses, ?received_conn, ?received_EnsurePath;
    split_reads;
    repeat match goal with
    | |- context [match ?l with Some _ => _ | None => _ end] => is_var l; destruct l; run_reads
    end;
    rewrite ?received_bytes, ?received_Stat, ?received_chan, ?received_strings,
      ?received_ACLs, ?received_responses, ?received_conn, ?received_EnsurePath;
    try (split; reflexivity).
Qed.

(** [Exists] programmed with an integer where the error is expected: the
    flag and the stat are read, the error accessor panics. *)
Lemma results_are_read_slot_by_slot_witness :
  fst (perform (BConn (CExists "/a"))
         (bench_conn (programmed "Exists" [VString "/a"] [VBool true; VNil; VInt 3] 1))) =
    Panic (WrongType "Error" 2).
Proof.
  refine (proj1 (results_are_read_slot_by_slot (BConn (CExists "/a"))
    (bench_conn (programmed "Exists" [VString "/a"] [VBool true; VNil; VInt 3] 1))
    (mkCall "Exists" [VString "/a"] [VBool true; VNil; VInt 3] 1 0) _ _)).
  - reflexivity.
  - intros H. discriminate H.
Defined.

(** ** The entry points of the suite *)

(** X15: both entry points of the suite run [Test] on a harness made by
    [newMockZookeeperClient]: whatever the namespace and the callback, the
    run starts by programming and performing the dial of the fixed ensemble
    (connect string "connectString", the default timeout, not read-only);
    the namespace only enters the configuration, which the run leaves as
    [newMockZookeeperClient] and [WithNamespace] made it; [WithClient] is
    the run with the empty namespace. *)
Theorem suite_runs_dial_the_fixed_ensemble :
  forall (timeout : Z) (namespace : string) (cb : callback),
    let r := WithClientAndNamespace timeout (curator_Build timeout) namespace cb in
    (exists rest,
       trace (snd r) =
         [EvBuild;
          EvExpect Orchestrator DDialer "Dial"
            [VString "connectString"; VDuration timeout; VBool false];
          EvStart;
          EvCall Client DDialer "Dial"
            [VString "connectString"; VDuration timeout; VBool false];
          EvStarted] ++ rest) /\
    builder (harness (snd r)) =
      mkBuilder VDialer "connectString" VCompress 0 (String.list_byte_of_string "default")
        namespace false /\
    WithClient timeout (curator_Build timeout) cb =
      WithClientAndNamespace timeout (curator_Build timeout) "" cb.
Proof.
  intros timeout namespace cb. cbn zeta. split; [|split; [|reflexivity]].
  - rewrite WithClientAndNamespace_fresh.
    destruct (any_run_prefix timeout (curator_Build timeout)
                (builder (WithNamespace namespace newMockZookeeperClient)) cb eq_refl)
      as (rest & Htr & _).
    exists rest. exact Htr.
  - unfold WithClientAndNamespace.
    destruct (Test_configuration_kept timeout (curator_Build timeout) cb
                (fresh (WithNamespace namespace newMockZookeeperClient))) as (HB & _).
    rewrite HB. reflexivity.
Qed.
